(** * correccion: a Spanish question to SQL translator

    Shallow embedding of [src/audio_processor/compilador.py]: the schema
    [Trie], the date recogniser, the lexer, the operator normaliser, the
    parser, the SQL generator and the corrector, followed by the properties
    of these functions.

    Conventions of the embedding.
    - A Python [str] is the list of its code points, a [string] of [char]s.
      A text between double quotes is read from UTF-8 into that list.
    - The character classes of the Python library ([str.isspace],
      [str.isdigit], [\d], [\w]) and [str.lower] follow the Unicode tables
      of CPython 3.11 (Unicode 14.0), given in [Unicode].
    - The [Trie] is generic in its alphabet; its [collections.defaultdict]
      children are an association list in insertion order, which is the
      order Python's dict iterates in.
    - Python integers are [Z]; an index into the token list is checked and
      an index out of range (a negative one included) is [IndexError]. *)

From Stdlib Require Import List NArith ZArith Lia Bool Permutation.
From Stdlib Require Import Strings.Byte.
Import ListNotations.

Set Implicit Arguments.

Local Open Scope list_scope.

(** ** Characters and text *)

(** A character is its code point. *)
Abbreviation char := N.

Abbreviation string := (list N).

(** The type the texts between double quotes are read into. *)
Definition text : Type := list N.

(** The reading of the texts written between double quotes. *)
Module Utf8.

Inductive literal : Type :=
| Fin : literal
| Mas : N -> literal -> literal.

Fixpoint literal_of (l : list N) : literal :=
  match l with
  | [] => Fin
  | c :: l' => Mas c (literal_of l')
  end.

Definition bits (b : byte) (mask : N) : N := N.land (Byte.to_N b) mask.

(** [acc] holds the bits read of the character in progress and [need] the
    number of bytes it still takes. *)
Fixpoint decode_from (acc : N) (need : nat) (bs : list byte) : list N :=
  match bs with
  | [] => []
  | b :: bs' =>
      match need with
      | O =>
          if (Byte.to_N b <? 128)%N then Byte.to_N b :: decode_from 0 0 bs'
          else if (Byte.to_N b <? 224)%N then decode_from (bits b 31) 1 bs'
          else if (Byte.to_N b <? 240)%N then decode_from (bits b 15) 2 bs'
          else decode_from (bits b 7) 3 bs'
      | S O => N.lor (N.shiftl acc 6) (bits b 63) :: decode_from 0 0 bs'
      | S k => decode_from (N.lor (N.shiftl acc 6) (bits b 63)) k bs'
      end
  end.

Definition decode (bs : list byte) : literal :=
  literal_of (decode_from 0 0 bs).

Definition byte_of (n : N) : byte :=
  match Byte.of_N n with
  | Some b => b
  | None => x00
  end.

Definition low6 (shift : N) (c : N) : byte :=
  byte_of (N.lor 128 (N.land (N.shiftr c shift) 63)).

Definition encode_char (c : N) : list byte :=
  if (c <? 128)%N then [byte_of c]
  else if (c <? 2048)%N then [byte_of (N.lor 192 (N.shiftr c 6)); low6 0 c]
  else if (c <? 65536)%N
  then [byte_of (N.lor 224 (N.shiftr c 12)); low6 6 c; low6 0 c]
  else [byte_of (N.lor 240 (N.land (N.shiftr c 18) 7)); low6 12 c; low6 6 c;
        low6 0 c].

Fixpoint encode (l : literal) : list byte :=
  match l with
  | Fin => []
  | Mas c l' => encode_char c ++ encode l'
  end.

Definition decode_char (bs : list byte) : option N :=
  match decode_from 0 0 bs with
  | [c] => Some c
  | _ => None
  end.

Definition encode_one (c : N) : option (list byte) :=
  if (c <? 1114112)%N then Some (encode_char c) else None.

End Utf8.

Declare Scope text_scope.
Delimit Scope text_scope with text.
Bind Scope text_scope with text.

#[warnings="-via-type-remapping,-via-type-mismatch"]
String Notation text Utf8.decode Utf8.encode
  (via Utf8.literal mapping [[nil] => Utf8.Fin, [cons] => Utf8.Mas])
  : text_scope.

(** One character between double quotes, as in ["#"%char]. *)
Declare Scope char_scope.
Delimit Scope char_scope with char.

String Notation N Utf8.decode_char Utf8.encode_one : char_scope.

Local Open Scope text_scope.

Module Str.

(** [a == b] *)
Fixpoint eqb (a b : string) : bool :=
  match a, b with
  | [], [] => true
  | c :: a', d :: b' => N.eqb c d && eqb a' b'
  | _, _ => false
  end.

(** [s.startswith(p)] *)
Fixpoint prefix (p s : string) : bool :=
  match p, s with
  | [], _ => true
  | c :: p', d :: s' => N.eqb c d && prefix p' s'
  | _ :: _, [] => false
  end.

(** The character at index [n], when there is one. *)
Definition get (n : nat) (s : string) : option char := nth_error s n.

(** The [parts] with [sep] between them. *)
Fixpoint concat (sep : string) (parts : list string) : string :=
  match parts with
  | [] => []
  | [x] => x
  | x :: parts' => x ++ sep ++ concat sep parts'
  end.

End Str.

(** ** The Unicode tables of the Python library *)

Module Unicode.

(** [c] lies in one of the ranges [(first, last)] of a table. *)
Definition in_ranges (t : list (N * N)) (c : char) : bool :=
  existsb (fun r => (fst r <=? c)%N && (c <=? snd r)%N) t.

(** The characters [str.isspace] accepts: the separators of [str.split()]
    and [str.strip()], and the class [\s]. *)
Definition WHITE_SPACE : list (N * N) :=
  [(9, 13); (28, 32); (133, 133); (160, 160); (5760, 5760); (8192, 8202);
   (8232, 8233); (8239, 8239); (8287, 8287); (12288, 12288)]%N.

(** The characters [str.isdecimal] accepts: the class [\d]. *)
Definition DECIMAL : list (N * N) :=
  [(48, 57); (1632, 1641); (1776, 1785); (1984, 1993); (2406, 2415);
   (2534, 2543); (2662, 2671); (2790, 2799); (2918, 2927); (3046, 3055);
   (3174, 3183); (3302, 3311); (3430, 3439); (3558, 3567); (3664, 3673);
   (3792, 3801); (3872, 3881); (4160, 4169); (4240, 4249); (6112, 6121);
   (6160, 6169); (6470, 6479); (6608, 6617); (6784, 6793); (6800, 6809);
   (6992, 7001); (7088, 7097); (7232, 7241); (7248, 7257); (42528, 42537);
   (43216, 43225); (43264, 43273); (43472, 43481); (43504, 43513);
   (43600, 43609); (44016, 44025); (65296, 65305); (66720, 66729);
   (68912, 68921); (69734, 69743); (69872, 69881); (69942, 69951);
   (70096, 70105); (70384, 70393); (70736, 70745); (70864, 70873);
   (71248, 71257); (71360, 71369); (71472, 71481); (71904, 71913);
   (72016, 72025); (72784, 72793); (73040, 73049); (73120, 73129);
   (92768, 92777); (92864, 92873); (93008, 93017); (120782, 120831);
   (123200, 123209); (123632, 123641); (125264, 125273); (130032, 130041)]%N.

(** The characters [str.isdigit] accepts. *)
Definition DIGIT : list (N * N) :=
  [(48, 57); (178, 179); (185, 185); (1632, 1641); (1776, 1785);
   (1984, 1993); (2406, 2415); (2534, 2543); (2662, 2671); (2790, 2799);
   (2918, 2927); (3046, 3055); (3174, 3183); (3302, 3311); (3430, 3439);
   (3558, 3567); (3664, 3673); (3792, 3801); (3872, 3881); (4160, 4169);
   (4240, 4249); (4969, 4977); (6112, 6121); (6160, 6169); (6470, 6479);
   (6608, 6618); (6784, 6793); (6800, 6809); (6992, 7001); (7088, 7097);
   (7232, 7241); (7248, 7257); (8304, 8304); (8308, 8313); (8320, 8329);
   (9312, 9320); (9332, 9340); (9352, 9360); (9450, 9450); (9461, 9469);
   (9471, 9471); (10102, 10110); (10112, 10120); (10122, 10130);
   (42528, 42537); (43216, 43225); (43264, 43273); (43472, 43481);
   (43504, 43513); (43600, 43609); (44016, 44025); (65296, 65305);
   (66720, 66729); (68160, 68163); (68912, 68921); (69216, 69224);
   (69714, 69722); (69734, 69743); (69872, 69881); (69942, 69951);
   (70096, 70105); (70384, 70393); (70736, 70745); (70864, 70873);
   (71248, 71257); (71360, 71369); (71472, 71481); (71904, 71913);
   (72016, 72025); (72784, 72793); (73040, 73049); (73120, 73129);
   (92768, 92777); (92864, 92873); (93008, 93017); (120782, 120831);
   (123200, 123209); (123632, 123641); (125264, 125273); (127232, 127242);
   (130032, 130041)]%N.

(** The class [\w]: the characters [str.isalnum] accepts and [_]. *)
Definition WORD : list (N * N) :=
  [(48, 57); (65, 90); (95, 95); (97, 122); (170, 170); (178, 179);
   (181, 181); (185, 186); (188, 190); (192, 214); (216, 246); (248, 705);
   (710, 721); (736, 740); (748, 748); (750, 750); (880, 884); (886, 887);
   (890, 893); (895, 895); (902, 902); (904, 906); (908, 908); (910, 929);
   (931, 1013); (1015, 1153); (1162, 1327); (1329, 1366); (1369, 1369);
   (1376, 1416); (1488, 1514); (1519, 1522); (1568, 1610); (1632, 1641);
   (1646, 1647); (1649, 1747); (1749, 1749); (1765, 1766); (1774, 1788);
   (1791, 1791); (1808, 1808); (1810, 1839); (1869, 1957); (1969, 1969);
   (1984, 2026); (2036, 2037); (2042, 2042); (2048, 2069); (2074, 2074);
   (2084, 2084); (2088, 2088); (2112, 2136); (2144, 2154); (2160, 2183);
   (2185, 2190); (2208, 2249); (2308, 2361); (2365, 2365); (2384, 2384);
   (2392, 2401); (2406, 2415); (2417, 2432); (2437, 2444); (2447, 2448);
   (2451, 2472); (2474, 2480); (2482, 2482); (2486, 2489); (2493, 2493);
   (2510, 2510); (2524, 2525); (2527, 2529); (2534, 2545); (2548, 2553);
   (2556, 2556); (2565, 2570); (2575, 2576); (2579, 2600); (2602, 2608);
   (2610, 2611); (2613, 2614); (2616, 2617); (2649, 2652); (2654, 2654);
   (2662, 2671); (2674, 2676); (2693, 2701); (2703, 2705); (2707, 2728);
   (2730, 2736); (2738, 2739); (2741, 2745); (2749, 2749); (2768, 2768);
   (2784, 2785); (2790, 2799); (2809, 2809); (2821, 2828); (2831, 2832);
   (2835, 2856); (2858, 2864); (2866, 2867); (2869, 2873); (2877, 2877);
   (2908, 2909); (2911, 2913); (2918, 2927); (2929, 2935); (2947, 2947);
   (2949, 2954); (2958, 2960); (2962, 2965); (2969, 2970); (2972, 2972);
   (2974, 2975); (2979, 2980); (2984, 2986); (2990, 3001); (3024, 3024);
   (3046, 3058); (3077, 3084); (3086, 3088); (3090, 3112); (3114, 3129);
   (3133, 3133); (3160, 3162); (3165, 3165); (3168, 3169); (3174, 3183);
   (3192, 3198); (3200, 3200); (3205, 3212); (3214, 3216); (3218, 3240);
   (3242, 3251); (3253, 3257); (3261, 3261); (3293, 3294); (3296, 3297);
   (3302, 3311); (3313, 3314); (3332, 3340); (3342, 3344); (3346, 3386);
   (3389, 3389); (3406, 3406); (3412, 3414); (3416, 3425); (3430, 3448);
   (3450, 3455); (3461, 3478); (3482, 3505); (3507, 3515); (3517, 3517);
   (3520, 3526); (3558, 3567); (3585, 3632); (3634, 3635); (3648, 3654);
   (3664, 3673); (3713, 3714); (3716, 3716); (3718, 3722); (3724, 3747);
   (3749, 3749); (3751, 3760); (3762, 3763); (3773, 3773); (3776, 3780);
   (3782, 3782); (3792, 3801); (3804, 3807); (3840, 3840); (3872, 3891);
   (3904, 3911); (3913, 3948); (3976, 3980); (4096, 4138); (4159, 4169);
   (4176, 4181); (4186, 4189); (4193, 4193); (4197, 4198); (4206, 4208);
   (4213, 4225); (4238, 4238); (4240, 4249); (4256, 4293); (4295, 4295);
   (4301, 4301); (4304, 4346); (4348, 4680); (4682, 4685); (4688, 4694);
   (4696, 4696); (4698, 4701); (4704, 4744); (4746, 4749); (4752, 4784);
   (4786, 4789); (4792, 4798); (4800, 4800); (4802, 4805); (4808, 4822);
   (4824, 4880); (4882, 4885); (4888, 4954); (4969, 4988); (4992, 5007);
   (5024, 5109); (5112, 5117); (5121, 5740); (5743, 5759); (5761, 5786);
   (5792, 5866); (5870, 5880); (5888, 5905); (5919, 5937); (5952, 5969);
   (5984, 5996); (5998, 6000); (6016, 6067); (6103, 6103); (6108, 6108);
   (6112, 6121); (6128, 6137); (6160, 6169); (6176, 6264); (6272, 6276);
   (6279, 6312); (6314, 6314); (6320, 6389); (6400, 6430); (6470, 6509);
   (6512, 6516); (6528, 6571); (6576, 6601); (6608, 6618); (6656, 6678);
   (6688, 6740); (6784, 6793); (6800, 6809); (6823, 6823); (6917, 6963);
   (6981, 6988); (6992, 7001); (7043, 7072); (7086, 7141); (7168, 7203);
   (7232, 7241); (7245, 7293); (7296, 7304); (7312, 7354); (7357, 7359);
   (7401, 7404); (7406, 7411); (7413, 7414); (7418, 7418); (7424, 7615);
   (7680, 7957); (7960, 7965); (7968, 8005); (8008, 8013); (8016, 8023);
   (8025, 8025); (8027, 8027); (8029, 8029); (8031, 8061); (8064, 8116);
   (8118, 8124); (8126, 8126); (8130, 8132); (8134, 8140); (8144, 8147);
   (8150, 8155); (8160, 8172); (8178, 8180); (8182, 8188); (8304, 8305);
   (8308, 8313); (8319, 8329); (8336, 8348); (8450, 8450); (8455, 8455);
   (8458, 8467); (8469, 8469); (8473, 8477); (8484, 8484); (8486, 8486);
   (8488, 8488); (8490, 8493); (8495, 8505); (8508, 8511); (8517, 8521);
   (8526, 8526); (8528, 8585); (9312, 9371); (9450, 9471); (10102, 10131);
   (11264, 11492); (11499, 11502); (11506, 11507); (11517, 11517);
   (11520, 11557); (11559, 11559); (11565, 11565); (11568, 11623);
   (11631, 11631); (11648, 11670); (11680, 11686); (11688, 11694);
   (11696, 11702); (11704, 11710); (11712, 11718); (11720, 11726);
   (11728, 11734); (11736, 11742); (11823, 11823); (12293, 12295);
   (12321, 12329); (12337, 12341); (12344, 12348); (12353, 12438);
   (12445, 12447); (12449, 12538); (12540, 12543); (12549, 12591);
   (12593, 12686); (12690, 12693); (12704, 12735); (12784, 12799);
   (12832, 12841); (12872, 12879); (12881, 12895); (12928, 12937);
   (12977, 12991); (13312, 19903); (19968, 42124); (42192, 42237);
   (42240, 42508); (42512, 42539); (42560, 42606); (42623, 42653);
   (42656, 42735); (42775, 42783); (42786, 42888); (42891, 42954);
   (42960, 42961); (42963, 42963); (42965, 42969); (42994, 43009);
   (43011, 43013); (43015, 43018); (43020, 43042); (43056, 43061);
   (43072, 43123); (43138, 43187); (43216, 43225); (43250, 43255);
   (43259, 43259); (43261, 43262); (43264, 43301); (43312, 43334);
   (43360, 43388); (43396, 43442); (43471, 43481); (43488, 43492);
   (43494, 43518); (43520, 43560); (43584, 43586); (43588, 43595);
   (43600, 43609); (43616, 43638); (43642, 43642); (43646, 43695);
   (43697, 43697); (43701, 43702); (43705, 43709); (43712, 43712);
   (43714, 43714); (43739, 43741); (43744, 43754); (43762, 43764);
   (43777, 43782); (43785, 43790); (43793, 43798); (43808, 43814);
   (43816, 43822); (43824, 43866); (43868, 43881); (43888, 44002);
   (44016, 44025); (44032, 55203); (55216, 55238); (55243, 55291);
   (63744, 64109); (64112, 64217); (64256, 64262); (64275, 64279);
   (64285, 64285); (64287, 64296); (64298, 64310); (64312, 64316);
   (64318, 64318); (64320, 64321); (64323, 64324); (64326, 64433);
   (64467, 64829); (64848, 64911); (64914, 64967); (65008, 65019);
   (65136, 65140); (65142, 65276); (65296, 65305); (65313, 65338);
   (65345, 65370); (65382, 65470); (65474, 65479); (65482, 65487);
   (65490, 65495); (65498, 65500); (65536, 65547); (65549, 65574);
   (65576, 65594); (65596, 65597); (65599, 65613); (65616, 65629);
   (65664, 65786); (65799, 65843); (65856, 65912); (65930, 65931);
   (66176, 66204); (66208, 66256); (66273, 66299); (66304, 66339);
   (66349, 66378); (66384, 66421); (66432, 66461); (66464, 66499);
   (66504, 66511); (66513, 66517); (66560, 66717); (66720, 66729);
   (66736, 66771); (66776, 66811); (66816, 66855); (66864, 66915);
   (66928, 66938); (66940, 66954); (66956, 66962); (66964, 66965);
   (66967, 66977); (66979, 66993); (66995, 67001); (67003, 67004);
   (67072, 67382); (67392, 67413); (67424, 67431); (67456, 67461);
   (67463, 67504); (67506, 67514); (67584, 67589); (67592, 67592);
   (67594, 67637); (67639, 67640); (67644, 67644); (67647, 67669);
   (67672, 67702); (67705, 67742); (67751, 67759); (67808, 67826);
   (67828, 67829); (67835, 67867); (67872, 67897); (67968, 68023);
   (68028, 68047); (68050, 68096); (68112, 68115); (68117, 68119);
   (68121, 68149); (68160, 68168); (68192, 68222); (68224, 68255);
   (68288, 68295); (68297, 68324); (68331, 68335); (68352, 68405);
   (68416, 68437); (68440, 68466); (68472, 68497); (68521, 68527);
   (68608, 68680); (68736, 68786); (68800, 68850); (68858, 68899);
   (68912, 68921); (69216, 69246); (69248, 69289); (69296, 69297);
   (69376, 69415); (69424, 69445); (69457, 69460); (69488, 69505);
   (69552, 69579); (69600, 69622); (69635, 69687); (69714, 69743);
   (69745, 69746); (69749, 69749); (69763, 69807); (69840, 69864);
   (69872, 69881); (69891, 69926); (69942, 69951); (69956, 69956);
   (69959, 69959); (69968, 70002); (70006, 70006); (70019, 70066);
   (70081, 70084); (70096, 70106); (70108, 70108); (70113, 70132);
   (70144, 70161); (70163, 70187); (70272, 70278); (70280, 70280);
   (70282, 70285); (70287, 70301); (70303, 70312); (70320, 70366);
   (70384, 70393); (70405, 70412); (70415, 70416); (70419, 70440);
   (70442, 70448); (70450, 70451); (70453, 70457); (70461, 70461);
   (70480, 70480); (70493, 70497); (70656, 70708); (70727, 70730);
   (70736, 70745); (70751, 70753); (70784, 70831); (70852, 70853);
   (70855, 70855); (70864, 70873); (71040, 71086); (71128, 71131);
   (71168, 71215); (71236, 71236); (71248, 71257); (71296, 71338);
   (71352, 71352); (71360, 71369); (71424, 71450); (71472, 71483);
   (71488, 71494); (71680, 71723); (71840, 71922); (71935, 71942);
   (71945, 71945); (71948, 71955); (71957, 71958); (71960, 71983);
   (71999, 71999); (72001, 72001); (72016, 72025); (72096, 72103);
   (72106, 72144); (72161, 72161); (72163, 72163); (72192, 72192);
   (72203, 72242); (72250, 72250); (72272, 72272); (72284, 72329);
   (72349, 72349); (72368, 72440); (72704, 72712); (72714, 72750);
   (72768, 72768); (72784, 72812); (72818, 72847); (72960, 72966);
   (72968, 72969); (72971, 73008); (73030, 73030); (73040, 73049);
   (73056, 73061); (73063, 73064); (73066, 73097); (73112, 73112);
   (73120, 73129); (73440, 73458); (73648, 73648); (73664, 73684);
   (73728, 74649); (74752, 74862); (74880, 75075); (77712, 77808);
   (77824, 78894); (82944, 83526); (92160, 92728); (92736, 92766);
   (92768, 92777); (92784, 92862); (92864, 92873); (92880, 92909);
   (92928, 92975); (92992, 92995); (93008, 93017); (93019, 93025);
   (93027, 93047); (93053, 93071); (93760, 93846); (93952, 94026);
   (94032, 94032); (94099, 94111); (94176, 94177); (94179, 94179);
   (94208, 100343); (100352, 101589); (101632, 101640); (110576, 110579);
   (110581, 110587); (110589, 110590); (110592, 110882); (110928, 110930);
   (110948, 110951); (110960, 111355); (113664, 113770); (113776, 113788);
   (113792, 113800); (113808, 113817); (119520, 119539); (119648, 119672);
   (119808, 119892); (119894, 119964); (119966, 119967); (119970, 119970);
   (119973, 119974); (119977, 119980); (119982, 119993); (119995, 119995);
   (119997, 120003); (120005, 120069); (120071, 120074); (120077, 120084);
   (120086, 120092); (120094, 120121); (120123, 120126); (120128, 120132);
   (120134, 120134); (120138, 120144); (120146, 120485); (120488, 120512);
   (120514, 120538); (120540, 120570); (120572, 120596); (120598, 120628);
   (120630, 120654); (120656, 120686); (120688, 120712); (120714, 120744);
   (120746, 120770); (120772, 120779); (120782, 120831); (122624, 122654);
   (123136, 123180); (123191, 123197); (123200, 123209); (123214, 123214);
   (123536, 123565); (123584, 123627); (123632, 123641); (124896, 124902);
   (124904, 124907); (124909, 124910); (124912, 124926); (124928, 125124);
   (125127, 125135); (125184, 125251); (125259, 125259); (125264, 125273);
   (126065, 126123); (126125, 126127); (126129, 126132); (126209, 126253);
   (126255, 126269); (126464, 126467); (126469, 126495); (126497, 126498);
   (126500, 126500); (126503, 126503); (126505, 126514); (126516, 126519);
   (126521, 126521); (126523, 126523); (126530, 126530); (126535, 126535);
   (126537, 126537); (126539, 126539); (126541, 126543); (126545, 126546);
   (126548, 126548); (126551, 126551); (126553, 126553); (126555, 126555);
   (126557, 126557); (126559, 126559); (126561, 126562); (126564, 126564);
   (126567, 126570); (126572, 126578); (126580, 126583); (126585, 126588);
   (126590, 126590); (126592, 126601); (126603, 126619); (126625, 126627);
   (126629, 126633); (126635, 126651); (127232, 127244); (130032, 130041);
   (131072, 173791); (173824, 177976); (177984, 178205); (178208, 183969);
   (183984, 191456); (194560, 195101); (196608, 201546)]%N.

(** The cased characters, those that are also case-ignorable left out. *)
Definition CASED : list (N * N) :=
  [(65, 90); (97, 122); (170, 170); (181, 181); (186, 186); (192, 214);
   (216, 246); (248, 442); (444, 447); (452, 659); (661, 687); (880, 883);
   (886, 887); (891, 893); (895, 895); (902, 902); (904, 906); (908, 908);
   (910, 929); (931, 1013); (1015, 1153); (1162, 1327); (1329, 1366);
   (1376, 1416); (4256, 4293); (4295, 4295); (4301, 4301); (4304, 4346);
   (4349, 4351); (5024, 5109); (5112, 5117); (7296, 7304); (7312, 7354);
   (7357, 7359); (7424, 7467); (7531, 7543); (7545, 7578); (7680, 7957);
   (7960, 7965); (7968, 8005); (8008, 8013); (8016, 8023); (8025, 8025);
   (8027, 8027); (8029, 8029); (8031, 8061); (8064, 8116); (8118, 8124);
   (8126, 8126); (8130, 8132); (8134, 8140); (8144, 8147); (8150, 8155);
   (8160, 8172); (8178, 8180); (8182, 8188); (8450, 8450); (8455, 8455);
   (8458, 8467); (8469, 8469); (8473, 8477); (8484, 8484); (8486, 8486);
   (8488, 8488); (8490, 8493); (8495, 8500); (8505, 8505); (8508, 8511);
   (8517, 8521); (8526, 8526); (8544, 8575); (8579, 8580); (9398, 9449);
   (11264, 11387); (11390, 11492); (11499, 11502); (11506, 11507);
   (11520, 11557); (11559, 11559); (11565, 11565); (42560, 42605);
   (42624, 42651); (42786, 42863); (42865, 42887); (42891, 42894);
   (42896, 42954); (42960, 42961); (42963, 42963); (42965, 42969);
   (42997, 42998); (43002, 43002); (43824, 43866); (43872, 43880);
   (43888, 43967); (64256, 64262); (64275, 64279); (65313, 65338);
   (65345, 65370); (66560, 66639); (66736, 66771); (66776, 66811);
   (66928, 66938); (66940, 66954); (66956, 66962); (66964, 66965);
   (66967, 66977); (66979, 66993); (66995, 67001); (67003, 67004);
   (68736, 68786); (68800, 68850); (71840, 71903); (93760, 93823);
   (119808, 119892); (119894, 119964); (119966, 119967); (119970, 119970);
   (119973, 119974); (119977, 119980); (119982, 119993); (119995, 119995);
   (119997, 120003); (120005, 120069); (120071, 120074); (120077, 120084);
   (120086, 120092); (120094, 120121); (120123, 120126); (120128, 120132);
   (120134, 120134); (120138, 120144); (120146, 120485); (120488, 120512);
   (120514, 120538); (120540, 120570); (120572, 120596); (120598, 120628);
   (120630, 120654); (120656, 120686); (120688, 120712); (120714, 120744);
   (120746, 120770); (120772, 120779); (122624, 122633); (122635, 122654);
   (125184, 125251); (127280, 127305); (127312, 127337); (127344, 127369)]%N.

(** The case-ignorable characters. *)
Definition CASE_IGNORABLE : list (N * N) :=
  [(39, 39); (46, 46); (58, 58); (94, 94); (96, 96); (168, 168);
   (173, 173); (175, 175); (180, 180); (183, 184); (688, 879); (884, 885);
   (890, 890); (900, 901); (903, 903); (1155, 1161); (1369, 1369);
   (1375, 1375); (1425, 1469); (1471, 1471); (1473, 1474); (1476, 1477);
   (1479, 1479); (1524, 1524); (1536, 1541); (1552, 1562); (1564, 1564);
   (1600, 1600); (1611, 1631); (1648, 1648); (1750, 1757); (1759, 1768);
   (1770, 1773); (1807, 1807); (1809, 1809); (1840, 1866); (1958, 1968);
   (2027, 2037); (2042, 2042); (2045, 2045); (2070, 2093); (2137, 2139);
   (2184, 2184); (2192, 2193); (2200, 2207); (2249, 2306); (2362, 2362);
   (2364, 2364); (2369, 2376); (2381, 2381); (2385, 2391); (2402, 2403);
   (2417, 2417); (2433, 2433); (2492, 2492); (2497, 2500); (2509, 2509);
   (2530, 2531); (2558, 2558); (2561, 2562); (2620, 2620); (2625, 2626);
   (2631, 2632); (2635, 2637); (2641, 2641); (2672, 2673); (2677, 2677);
   (2689, 2690); (2748, 2748); (2753, 2757); (2759, 2760); (2765, 2765);
   (2786, 2787); (2810, 2815); (2817, 2817); (2876, 2876); (2879, 2879);
   (2881, 2884); (2893, 2893); (2901, 2902); (2914, 2915); (2946, 2946);
   (3008, 3008); (3021, 3021); (3072, 3072); (3076, 3076); (3132, 3132);
   (3134, 3136); (3142, 3144); (3146, 3149); (3157, 3158); (3170, 3171);
   (3201, 3201); (3260, 3260); (3263, 3263); (3270, 3270); (3276, 3277);
   (3298, 3299); (3328, 3329); (3387, 3388); (3393, 3396); (3405, 3405);
   (3426, 3427); (3457, 3457); (3530, 3530); (3538, 3540); (3542, 3542);
   (3633, 3633); (3636, 3642); (3654, 3662); (3761, 3761); (3764, 3772);
   (3782, 3782); (3784, 3789); (3864, 3865); (3893, 3893); (3895, 3895);
   (3897, 3897); (3953, 3966); (3968, 3972); (3974, 3975); (3981, 3991);
   (3993, 4028); (4038, 4038); (4141, 4144); (4146, 4151); (4153, 4154);
   (4157, 4158); (4184, 4185); (4190, 4192); (4209, 4212); (4226, 4226);
   (4229, 4230); (4237, 4237); (4253, 4253); (4348, 4348); (4957, 4959);
   (5906, 5908); (5938, 5939); (5970, 5971); (6002, 6003); (6068, 6069);
   (6071, 6077); (6086, 6086); (6089, 6099); (6103, 6103); (6109, 6109);
   (6155, 6159); (6211, 6211); (6277, 6278); (6313, 6313); (6432, 6434);
   (6439, 6440); (6450, 6450); (6457, 6459); (6679, 6680); (6683, 6683);
   (6742, 6742); (6744, 6750); (6752, 6752); (6754, 6754); (6757, 6764);
   (6771, 6780); (6783, 6783); (6823, 6823); (6832, 6862); (6912, 6915);
   (6964, 6964); (6966, 6970); (6972, 6972); (6978, 6978); (7019, 7027);
   (7040, 7041); (7074, 7077); (7080, 7081); (7083, 7085); (7142, 7142);
   (7144, 7145); (7149, 7149); (7151, 7153); (7212, 7219); (7222, 7223);
   (7288, 7293); (7376, 7378); (7380, 7392); (7394, 7400); (7405, 7405);
   (7412, 7412); (7416, 7417); (7468, 7530); (7544, 7544); (7579, 7679);
   (8125, 8125); (8127, 8129); (8141, 8143); (8157, 8159); (8173, 8175);
   (8189, 8190); (8203, 8207); (8216, 8217); (8228, 8228); (8231, 8231);
   (8234, 8238); (8288, 8292); (8294, 8303); (8305, 8305); (8319, 8319);
   (8336, 8348); (8400, 8432); (11388, 11389); (11503, 11505);
   (11631, 11631); (11647, 11647); (11744, 11775); (11823, 11823);
   (12293, 12293); (12330, 12333); (12337, 12341); (12347, 12347);
   (12441, 12446); (12540, 12542); (40981, 40981); (42232, 42237);
   (42508, 42508); (42607, 42610); (42612, 42621); (42623, 42623);
   (42652, 42655); (42736, 42737); (42752, 42785); (42864, 42864);
   (42888, 42890); (42994, 42996); (43000, 43001); (43010, 43010);
   (43014, 43014); (43019, 43019); (43045, 43046); (43052, 43052);
   (43204, 43205); (43232, 43249); (43263, 43263); (43302, 43309);
   (43335, 43345); (43392, 43394); (43443, 43443); (43446, 43449);
   (43452, 43453); (43471, 43471); (43493, 43494); (43561, 43566);
   (43569, 43570); (43573, 43574); (43587, 43587); (43596, 43596);
   (43632, 43632); (43644, 43644); (43696, 43696); (43698, 43700);
   (43703, 43704); (43710, 43711); (43713, 43713); (43741, 43741);
   (43756, 43757); (43763, 43764); (43766, 43766); (43867, 43871);
   (43881, 43883); (44005, 44005); (44008, 44008); (44013, 44013);
   (64286, 64286); (64434, 64450); (65024, 65039); (65043, 65043);
   (65056, 65071); (65106, 65106); (65109, 65109); (65279, 65279);
   (65287, 65287); (65294, 65294); (65306, 65306); (65342, 65342);
   (65344, 65344); (65392, 65392); (65438, 65439); (65507, 65507);
   (65529, 65531); (66045, 66045); (66272, 66272); (66422, 66426);
   (67456, 67461); (67463, 67504); (67506, 67514); (68097, 68099);
   (68101, 68102); (68108, 68111); (68152, 68154); (68159, 68159);
   (68325, 68326); (68900, 68903); (69291, 69292); (69446, 69456);
   (69506, 69509); (69633, 69633); (69688, 69702); (69744, 69744);
   (69747, 69748); (69759, 69761); (69811, 69814); (69817, 69818);
   (69821, 69821); (69826, 69826); (69837, 69837); (69888, 69890);
   (69927, 69931); (69933, 69940); (70003, 70003); (70016, 70017);
   (70070, 70078); (70089, 70092); (70095, 70095); (70191, 70193);
   (70196, 70196); (70198, 70199); (70206, 70206); (70367, 70367);
   (70371, 70378); (70400, 70401); (70459, 70460); (70464, 70464);
   (70502, 70508); (70512, 70516); (70712, 70719); (70722, 70724);
   (70726, 70726); (70750, 70750); (70835, 70840); (70842, 70842);
   (70847, 70848); (70850, 70851); (71090, 71093); (71100, 71101);
   (71103, 71104); (71132, 71133); (71219, 71226); (71229, 71229);
   (71231, 71232); (71339, 71339); (71341, 71341); (71344, 71349);
   (71351, 71351); (71453, 71455); (71458, 71461); (71463, 71467);
   (71727, 71735); (71737, 71738); (71995, 71996); (71998, 71998);
   (72003, 72003); (72148, 72151); (72154, 72155); (72160, 72160);
   (72193, 72202); (72243, 72248); (72251, 72254); (72263, 72263);
   (72273, 72278); (72281, 72283); (72330, 72342); (72344, 72345);
   (72752, 72758); (72760, 72765); (72767, 72767); (72850, 72871);
   (72874, 72880); (72882, 72883); (72885, 72886); (73009, 73014);
   (73018, 73018); (73020, 73021); (73023, 73029); (73031, 73031);
   (73104, 73105); (73109, 73109); (73111, 73111); (73459, 73460);
   (78896, 78904); (92912, 92916); (92976, 92982); (92992, 92995);
   (94031, 94031); (94095, 94111); (94176, 94177); (94179, 94180);
   (110576, 110579); (110581, 110587); (110589, 110590); (113821, 113822);
   (113824, 113827); (118528, 118573); (118576, 118598); (119143, 119145);
   (119155, 119170); (119173, 119179); (119210, 119213); (119362, 119364);
   (121344, 121398); (121403, 121452); (121461, 121461); (121476, 121476);
   (121499, 121503); (121505, 121519); (122880, 122886); (122888, 122904);
   (122907, 122913); (122915, 122916); (122918, 122922); (123184, 123197);
   (123566, 123566); (123628, 123631); (125136, 125142); (125252, 125259);
   (127995, 127999); (917505, 917505); (917536, 917631); (917760, 917999)]%N.

(** The characters that [str.lower] maps to one other character, in rows
    [(first, last, step, image)]: the characters [first], [first + step],
    ..., [last] are mapped to [image], [image + step], ... *)
Definition LOWER_ROWS : list (N * N * N * N) :=
  [(65, 90, 1, 97); (192, 214, 1, 224); (216, 222, 1, 248);
   (256, 302, 2, 257); (306, 310, 2, 307); (313, 327, 2, 314);
   (330, 374, 2, 331); (376, 376, 1, 255); (377, 381, 2, 378);
   (385, 385, 1, 595); (386, 388, 2, 387); (390, 390, 1, 596);
   (391, 391, 1, 392); (393, 394, 1, 598); (395, 395, 1, 396);
   (398, 398, 1, 477); (399, 399, 1, 601); (400, 400, 1, 603);
   (401, 401, 1, 402); (403, 403, 1, 608); (404, 404, 1, 611);
   (406, 406, 1, 617); (407, 407, 1, 616); (408, 408, 1, 409);
   (412, 412, 1, 623); (413, 413, 1, 626); (415, 415, 1, 629);
   (416, 420, 2, 417); (422, 422, 1, 640); (423, 423, 1, 424);
   (425, 425, 1, 643); (428, 428, 1, 429); (430, 430, 1, 648);
   (431, 431, 1, 432); (433, 434, 1, 650); (435, 437, 2, 436);
   (439, 439, 1, 658); (440, 440, 1, 441); (444, 444, 1, 445);
   (452, 452, 1, 454); (453, 453, 1, 454); (455, 455, 1, 457);
   (456, 456, 1, 457); (458, 458, 1, 460); (459, 475, 2, 460);
   (478, 494, 2, 479); (497, 497, 1, 499); (498, 500, 2, 499);
   (502, 502, 1, 405); (503, 503, 1, 447); (504, 542, 2, 505);
   (544, 544, 1, 414); (546, 562, 2, 547); (570, 570, 1, 11365);
   (571, 571, 1, 572); (573, 573, 1, 410); (574, 574, 1, 11366);
   (577, 577, 1, 578); (579, 579, 1, 384); (580, 580, 1, 649);
   (581, 581, 1, 652); (582, 590, 2, 583); (880, 882, 2, 881);
   (886, 886, 1, 887); (895, 895, 1, 1011); (902, 902, 1, 940);
   (904, 906, 1, 941); (908, 908, 1, 972); (910, 911, 1, 973);
   (913, 929, 1, 945); (931, 939, 1, 963); (975, 975, 1, 983);
   (984, 1006, 2, 985); (1012, 1012, 1, 952); (1015, 1015, 1, 1016);
   (1017, 1017, 1, 1010); (1018, 1018, 1, 1019); (1021, 1023, 1, 891);
   (1024, 1039, 1, 1104); (1040, 1071, 1, 1072); (1120, 1152, 2, 1121);
   (1162, 1214, 2, 1163); (1216, 1216, 1, 1231); (1217, 1229, 2, 1218);
   (1232, 1326, 2, 1233); (1329, 1366, 1, 1377); (4256, 4293, 1, 11520);
   (4295, 4295, 1, 11559); (4301, 4301, 1, 11565); (5024, 5103, 1, 43888);
   (5104, 5109, 1, 5112); (7312, 7354, 1, 4304); (7357, 7359, 1, 4349);
   (7680, 7828, 2, 7681); (7838, 7838, 1, 223); (7840, 7934, 2, 7841);
   (7944, 7951, 1, 7936); (7960, 7965, 1, 7952); (7976, 7983, 1, 7968);
   (7992, 7999, 1, 7984); (8008, 8013, 1, 8000); (8025, 8031, 2, 8017);
   (8040, 8047, 1, 8032); (8072, 8079, 1, 8064); (8088, 8095, 1, 8080);
   (8104, 8111, 1, 8096); (8120, 8121, 1, 8112); (8122, 8123, 1, 8048);
   (8124, 8124, 1, 8115); (8136, 8139, 1, 8050); (8140, 8140, 1, 8131);
   (8152, 8153, 1, 8144); (8154, 8155, 1, 8054); (8168, 8169, 1, 8160);
   (8170, 8171, 1, 8058); (8172, 8172, 1, 8165); (8184, 8185, 1, 8056);
   (8186, 8187, 1, 8060); (8188, 8188, 1, 8179); (8486, 8486, 1, 969);
   (8490, 8490, 1, 107); (8491, 8491, 1, 229); (8498, 8498, 1, 8526);
   (8544, 8559, 1, 8560); (8579, 8579, 1, 8580); (9398, 9423, 1, 9424);
   (11264, 11311, 1, 11312); (11360, 11360, 1, 11361);
   (11362, 11362, 1, 619); (11363, 11363, 1, 7549);
   (11364, 11364, 1, 637); (11367, 11371, 2, 11368);
   (11373, 11373, 1, 593); (11374, 11374, 1, 625); (11375, 11375, 1, 592);
   (11376, 11376, 1, 594); (11378, 11378, 1, 11379);
   (11381, 11381, 1, 11382); (11390, 11391, 1, 575);
   (11392, 11490, 2, 11393); (11499, 11501, 2, 11500);
   (11506, 11506, 1, 11507); (42560, 42604, 2, 42561);
   (42624, 42650, 2, 42625); (42786, 42798, 2, 42787);
   (42802, 42862, 2, 42803); (42873, 42875, 2, 42874);
   (42877, 42877, 1, 7545); (42878, 42886, 2, 42879);
   (42891, 42891, 1, 42892); (42893, 42893, 1, 613);
   (42896, 42898, 2, 42897); (42902, 42920, 2, 42903);
   (42922, 42922, 1, 614); (42923, 42923, 1, 604); (42924, 42924, 1, 609);
   (42925, 42925, 1, 620); (42926, 42926, 1, 618); (42928, 42928, 1, 670);
   (42929, 42929, 1, 647); (42930, 42930, 1, 669);
   (42931, 42931, 1, 43859); (42932, 42946, 2, 42933);
   (42948, 42948, 1, 42900); (42949, 42949, 1, 642);
   (42950, 42950, 1, 7566); (42951, 42953, 2, 42952);
   (42960, 42960, 1, 42961); (42966, 42968, 2, 42967);
   (42997, 42997, 1, 42998); (65313, 65338, 1, 65345);
   (66560, 66599, 1, 66600); (66736, 66771, 1, 66776);
   (66928, 66938, 1, 66967); (66940, 66954, 1, 66979);
   (66956, 66962, 1, 66995); (66964, 66965, 1, 67003);
   (68736, 68786, 1, 68800); (71840, 71871, 1, 71872);
   (93760, 93791, 1, 93792); (125184, 125217, 1, 125218)]%N.

Definition is_space (c : char) : bool := in_ranges WHITE_SPACE c.

Definition is_decimal (c : char) : bool := in_ranges DECIMAL c.

Definition is_digit (c : char) : bool := in_ranges DIGIT c.

Definition is_word (c : char) : bool := in_ranges WORD c.

Definition is_cased (c : char) : bool := in_ranges CASED c.

Definition is_case_ignorable (c : char) : bool := in_ranges CASE_IGNORABLE c.

(** The characters of a row, each with its image. *)
Fixpoint row_from (n : nat) (c step image : N) : list (char * char) :=
  match n with
  | O => []
  | S k => (c, image) :: row_from k (c + step)%N step (image + step)%N
  end.

Definition row (r : N * N * N * N) : list (char * char) :=
  let '(first, last, step, image) := r in
  row_from (S (N.to_nat ((last - first) / step))) first step image.

(** Every character that [str.lower] maps to one other character, with
    that character. *)
Definition LOWER : list (char * char) :=
  Eval vm_compute in flat_map row LOWER_ROWS.

Fixpoint assoc (c : char) (t : list (char * char)) : option char :=
  match t with
  | [] => None
  | (k, v) :: t' => if (k =? c)%N then Some v else assoc c t'
  end.

(** [c.lower()] for one character, read out of its context. U+0130 is the
    one character whose lower case takes two characters. *)
Definition lower_char (c : char) : string :=
  if (c =? 304)%N then [105; 775]%N
  else match assoc c LOWER with
       | Some l => [l]
       | None => [c]
       end.

(** The first character of [s] that is not case-ignorable is a cased
    one. *)
Fixpoint cased_first (s : string) : bool :=
  match s with
  | [] => false
  | c :: s' => if is_case_ignorable c then cased_first s' else is_cased c
  end.

(** A capital sigma (U+03A3) is final when a cased character comes before
    it and none comes after it, the case-ignorable characters in between
    skipped. [antes] is the text before it, the nearest character first,
    and [despues] the text after it. *)
Definition final_sigma (antes despues : string) : bool :=
  cased_first antes && negb (cased_first despues).

(** [str.lower], from a place inside a text: a capital sigma becomes the
    final sigma (U+03C2) or the small one (U+03C3) by its context, every
    other character its lower case. *)
Fixpoint lower_from (antes s : string) : string :=
  match s with
  | [] => []
  | c :: s' =>
      (if (c =? 931)%N
       then [if final_sigma antes s' then 962%N else 963%N]
       else lower_char c)
      ++ lower_from (c :: antes) s'
  end.

End Unicode.

Arguments Unicode.is_space : simpl never.
Arguments Unicode.is_decimal : simpl never.
Arguments Unicode.is_digit : simpl never.
Arguments Unicode.is_word : simpl never.
Arguments Unicode.is_cased : simpl never.
Arguments Unicode.is_case_ignorable : simpl never.
Arguments Unicode.lower_char : simpl never.

(** ** Text *)

Module Text.

Definition between (lo hi : N) (c : char) : bool :=
  (lo <=? c)%N && (c <=? hi)%N.


(** [[a-z]] *)
Definition is_az (c : char) : bool := between 97 122 c.

(** [string.punctuation] *)
Definition is_punct (c : char) : bool :=
  between 33 47 c || between 58 64 c || between 91 96 c || between 123 126 c.

(** [str.lower] *)
Definition lower (s : string) : string := Unicode.lower_from [] s.

Definition is_empty (s : string) : bool :=
  match s with [] => true | _ => false end.

Fixpoint all_chars (p : char -> bool) (s : string) : bool :=
  match s with
  | [] => true
  | c :: s' => p c && all_chars p s'
  end.

(** [str.isdigit]: every character is a digit and there is at least one. *)
Definition isdigit (s : string) : bool :=
  negb (is_empty s) && all_chars Unicode.is_digit s.

Fixpoint lstrip (p : char -> bool) (s : string) : string :=
  match s with
  | [] => []
  | c :: s' => if p c then lstrip p s' else s
  end.

Fixpoint rstrip (p : char -> bool) (s : string) : string :=
  match s with
  | [] => []
  | c :: s' =>
      let r := rstrip p s' in
      if is_empty r && p c then [] else c :: r
  end.

(** [s.strip(chars)], the set [chars] given as a predicate; [s.strip()] is
    [strip Unicode.is_space s]. *)
Definition strip (p : char -> bool) (s : string) : string :=
  rstrip p (lstrip p s).

(** [str.split()] with no argument: the maximal runs of characters that are
    not white space. [cur] is the run being read. *)
Fixpoint split_from (cur : string) (s : string) : list string :=
  match s with
  | [] => if is_empty cur then [] else [cur]
  | c :: s' =>
      if Unicode.is_space c
      then (if is_empty cur then split_from [] s'
            else cur :: split_from [] s')
      else split_from (cur ++ [c]) s'
  end.

Definition split (s : string) : list string := split_from [] s.

(** [sep.join(parts)]. *)
Definition join (sep : string) (parts : list string) : string :=
  Str.concat sep parts.

(** Membership in a set or list literal of strings. *)
Definition mem (s : string) (l : list string) : bool :=
  existsb (Str.eqb s) l.

Definition allows (count : option nat) : bool :=
  match count with Some O => false | _ => true end.

Definition spend (count : option nat) : option nat :=
  match count with Some n => Some (Nat.pred n) | None => None end.

(** [s.replace(old, new)] when [count] is [None] and
    [s.replace(old, new, n)] when it is [Some n], for a non-empty [old]:
    the occurrences are taken from the left and do not overlap. [skip]
    counts the characters of the occurrence just replaced that are still
    to be dropped. An empty [old] is not used by the program and leaves
    the text as it is here. *)
Fixpoint replace_from (old new : string) (count : option nat) (skip : nat)
    (s : string) : string :=
  match s with
  | [] => []
  | c :: s' =>
      match skip with
      | S k => replace_from old new count k s'
      | O =>
          if negb (is_empty old) && allows count && Str.prefix old s
          then new ++ replace_from old new (spend count) (length old - 1) s'
          else c :: replace_from old new count 0 s'
      end
  end.

Definition replace (old new : string) (count : option nat) (s : string)
  : string :=
  replace_from old new count 0 s.

Definition word_opt (c : option char) : bool :=
  match c with Some c => Unicode.is_word c | None => false end.

(** [\b] between two neighbouring positions: exactly one side is a word
    character; the ends of the text count as not a word character. *)
Definition boundary (before after : option char) : bool :=
  xorb (word_opt before) (word_opt after).

Fixpoint last_char (s : string) : option char :=
  match s with
  | [] => None
  | [c] => Some c
  | _ :: s' => last_char s'
  end.

(** Does [\b frase \b] match at the head of [s], where [prev] is the
    character before [s] in the whole text? The first [\b] stands between
    [prev] and the head of [s]; the second one after the last character of
    [frase], which is [prev] again when [frase] is empty. *)
Definition word_match (frase : string) (prev : option char) (s : string)
  : bool :=
  Str.prefix frase s
  && boundary prev (Str.get 0 s)
  && boundary (match last_char frase with Some c => Some c | None => prev end)
       (Str.get (length frase) s).

(** [re.sub(r'\b' + re.escape(frase) + r'\b', repl, s)] ([count = None])
    and the same with a fourth argument [n] ([count = Some n]), for a
    replacement [repl] without a backslash, which [re] puts in as it is.
    The matches are taken from the left and do not overlap; an empty
    [frase] matches, without taking a character, wherever [\b] holds, the
    end of the text included. *)
Fixpoint sub_word_from (frase repl : string) (count : option nat)
    (prev : option char) (skip : nat) (s : string) : string :=
  match s with
  | [] =>
      if allows count && is_empty frase && word_match frase prev []
      then repl else []
  | c :: s' =>
      match skip with
      | S k => sub_word_from frase repl count (Some c) k s'
      | O =>
          if allows count && word_match frase prev s
          then
            if is_empty frase
            then repl ++ c :: sub_word_from frase repl (spend count)
                               (Some c) 0 s'
            else repl ++ sub_word_from frase repl (spend count) (Some c)
                           (length frase - 1) s'
          else c :: sub_word_from frase repl count (Some c) 0 s'
      end
  end.

Definition sub_word (frase repl : string) (count : option nat) (s : string)
  : string :=
  sub_word_from frase repl count None 0 s.

End Text.

(** ** Regular expressions

    The patterns of the program are matched by derivatives: [matches] is
    [re.fullmatch] read as a test, [match_prefix] is [re.match]. *)

Module Regex.

Inductive regex : Type :=
| Void : regex
| Eps : regex
| Cls : (char -> bool) -> regex
| Cat : regex -> regex -> regex
| Alt : regex -> regex -> regex
| Star : regex -> regex.

Fixpoint nullable (r : regex) : bool :=
  match r with
  | Void => false
  | Eps => true
  | Cls _ => false
  | Cat r1 r2 => nullable r1 && nullable r2
  | Alt r1 r2 => nullable r1 || nullable r2
  | Star _ => true
  end.

Fixpoint deriv (c : char) (r : regex) : regex :=
  match r with
  | Void => Void
  | Eps => Void
  | Cls p => if p c then Eps else Void
  | Cat r1 r2 =>
      if nullable r1 then Alt (Cat (deriv c r1) r2) (deriv c r2)
      else Cat (deriv c r1) r2
  | Alt r1 r2 => Alt (deriv c r1) (deriv c r2)
  | Star r1 => Cat (deriv c r1) (Star r1)
  end.

Fixpoint matches (r : regex) (s : string) : bool :=
  match s with
  | [] => nullable r
  | c :: s' => matches (deriv c r) s'
  end.

(** The words of a pattern, as a relation. *)
Inductive lang : regex -> string -> Prop :=
| lang_eps : lang Eps []
| lang_cls : forall (p : char -> bool) c,
    p c = true -> lang (Cls p) ([c])
| lang_cat : forall r1 r2 s1 s2,
    lang r1 s1 -> lang r2 s2 -> lang (Cat r1 r2) (s1 ++ s2)
| lang_alt_l : forall r1 r2 s, lang r1 s -> lang (Alt r1 r2) s
| lang_alt_r : forall r1 r2 s, lang r2 s -> lang (Alt r1 r2) s
| lang_star_nil : forall r, lang (Star r) []
| lang_star_cons : forall r s1 s2,
    lang r s1 -> lang (Star r) s2 -> lang (Star r) (s1 ++ s2).

Definition chr (c : char) : regex := Cls (N.eqb c).

(** A literal text. *)
Fixpoint lit (s : string) : regex :=
  match s with
  | [] => Eps
  | c :: s' => Cat (chr c) (lit s')
  end.

(** [r{n}]. *)
Fixpoint rep (n : nat) (r : regex) : regex :=
  match n with
  | O => Eps
  | S k => Cat r (rep k r)
  end.

(** [r{0,n}]. *)
Fixpoint upto (n : nat) (r : regex) : regex :=
  match n with
  | O => Eps
  | S k => Alt Eps (Cat r (upto k r))
  end.

(** [r{lo,hi}]. *)
Definition rep_range (lo hi : nat) (r : regex) : regex :=
  Cat (rep lo r) (upto (hi - lo) r).

(** [r+]. *)
Definition plus (r : regex) : regex := Cat r (Star r).

Definition seq (rs : list regex) : regex := fold_right Cat Eps rs.

(** [\d] *)
Definition digit : regex := Cls Unicode.is_decimal.

Definition any : regex := Cls (fun _ => true).

Definition fullmatch (r : regex) (s : string) : bool := matches r s.

(** A pattern without words: [dead] is a syntactic test for it. *)
Fixpoint dead (r : regex) : bool :=
  match r with
  | Void => true
  | Cat r1 r2 => dead r1 || dead r2
  | Alt r1 r2 => dead r1 && dead r2
  | _ => false
  end.

(** The length of the shortest word of a pattern, [None] for a pattern
    [dead] sees has no word. *)
Fixpoint min_len (r : regex) : option nat :=
  match r with
  | Void => None
  | Eps => Some 0
  | Cls _ => Some 1
  | Cat r1 r2 =>
      match min_len r1, min_len r2 with
      | Some a, Some b => Some (a + b)
      | _, _ => None
      end
  | Alt r1 r2 =>
      match min_len r1, min_len r2 with
      | Some a, Some b => Some (Nat.min a b)
      | Some a, None => Some a
      | None, o => o
      end
  | Star _ => Some 0
  end.

(** [re.match]: some prefix of [s] is a word of [r]. *)
Definition match_prefix (r : regex) (s : string) : bool :=
  matches (Cat r (Star any)) s.

End Regex.

(** ** The date recogniser *)

Import Regex.

(** [r"\d{4}-\d{2}-\d{2}"] *)
Definition FORMATO_ISO : regex :=
  seq [rep 4 digit; lit "-"; rep 2 digit; lit "-"; rep 2 digit].

(** [r"\d{2}/\d{2}/\d{4}"] *)
Definition FORMATO_BARRAS : regex :=
  seq [rep 2 digit; lit "/"; rep 2 digit; lit "/"; rep 4 digit].

(** [r"\d{2}-\d{2}-\d{4}"] *)
Definition FORMATO_GUIONES : regex :=
  seq [rep 2 digit; lit "-"; rep 2 digit; lit "-"; rep 4 digit].

(** [r"\d{1,2} de [a-z]+ de \d{4}"] *)
Definition FORMATO_LARGO : regex :=
  seq [rep_range 1 2 digit; lit " de "; plus (Cls Text.is_az); lit " de ";
       rep 4 digit].

Definition FORMATOS_FECHA : list regex :=
  [FORMATO_ISO; FORMATO_BARRAS; FORMATO_GUIONES; FORMATO_LARGO].

Definition es_fecha (texto : string) : bool :=
  let texto := Text.lower texto in
  existsb (fun formato => fullmatch formato texto) FORMATOS_FECHA.

(** ** The Trie *)

Section TrieDef.

Local Open Scope list_scope.

Variable char : Type.
Variable char_eq_dec : forall a b : char, {a = b} + {a <> b}.

(** [TrieNode]: the end-of-word flag and the children, a dict from a
    character to a node, kept in insertion order. *)
#[warnings="-register-all"] Inductive TrieNode : Type :=
| Node : bool -> list (char * TrieNode) -> TrieNode.

Definition is_end_of_word (n : TrieNode) : bool :=
  match n with Node e _ => e end.

Definition children (n : TrieNode) : list (char * TrieNode) :=
  match n with Node _ ch => ch end.

(** [TrieNode()] *)
Definition new_node : TrieNode := Node false [].

(** [char in node.children] and [node.children[char]] for a key that is
    there. *)
Fixpoint lookup (c : char) (ch : list (char * TrieNode)) : option TrieNode :=
  match ch with
  | [] => None
  | (k, t) :: ch' => if char_eq_dec k c then Some t else lookup c ch'
  end.

(** [node.children[char]] on the defaultdict, followed by the work [f] done
    on that child: a missing key is first bound to a new node, at the end
    of the dict. *)
Fixpoint update (c : char) (f : TrieNode -> TrieNode)
    (ch : list (char * TrieNode)) : list (char * TrieNode) :=
  match ch with
  | [] => [(c, f new_node)]
  | (k, t) :: ch' =>
      if char_eq_dec k c then (k, f t) :: ch' else (k, t) :: update c f ch'
  end.

Fixpoint insert_node (w : list char) (node : TrieNode) : TrieNode :=
  match w with
  | [] => Node true (children node)
  | c :: w' =>
      Node (is_end_of_word node) (update c (insert_node w') (children node))
  end.

Fixpoint search_node (w : list char) (node : TrieNode) : bool :=
  match w with
  | [] => is_end_of_word node
  | c :: w' =>
      match lookup c (children node) with
      | None => false
      | Some child => search_node w' child
      end
  end.

Fixpoint starts_with_node (w : list char) (node : TrieNode) : bool :=
  match w with
  | [] => true
  | c :: w' =>
      match lookup c (children node) with
      | None => false
      | Some child => starts_with_node w' child
      end
  end.

(** [get_all_words(node, prefix, words)]: [words] is the list the calls
    share and append to. *)
Fixpoint get_all_words_node (node : TrieNode) (prefix : list char)
    (words : list (list char)) : list (list char) :=
  match node with
  | Node e ch =>
      let words := if e then words ++ [prefix] else words in
      (fix items (ch : list (char * TrieNode)) (words : list (list char))
         : list (list char) :=
         match ch with
         | [] => words
         | (c, child) :: ch' =>
             items ch' (get_all_words_node child (prefix ++ [c]) words)
         end) ch words
  end.

Record Trie : Type := mkTrie { root : TrieNode }.

(** [Trie()] *)
Definition new_trie : Trie := mkTrie new_node.

Definition insert (t : Trie) (w : list char) : Trie :=
  mkTrie (insert_node w (root t)).

Definition search (t : Trie) (w : list char) : bool := search_node w (root t).

Definition starts_with (t : Trie) (w : list char) : bool :=
  starts_with_node w (root t).

Definition get_all_words (t : Trie) : list (list char) :=
  get_all_words_node (root t) [] [].

(** The words inserted one after the other, the first of the list first. *)
Definition insert_all (t : Trie) (ws : list (list char)) : Trie :=
  fold_left insert ws t.

End TrieDef.

Arguments Node {char} _ _.
Arguments new_node {char}.
Arguments new_trie {char}.

(** ** The vocabulary loader *)

Definition data_type_keywords : list string :=
  ["int"; "integer"; "float"; "double"; "string"; "char"; "boolean";
   "bool"; "void"; "long"; "short"; "byte"; "decimal"; "date"; "time";
   "datetime"; "array"; "list"; "dict"; "dictionary"; "set"; "tuple";
   "object"; "class"].

(** [re.split(r'\s+|#', s)]: the pieces between the separators, a separator
    being a maximal run of white space or one ["#"]; a piece can be empty.
    [cur] is the piece being read and [en_blancos] tells that the character
    before belongs to a run of white space. *)
Fixpoint re_split_from (cur : string) (en_blancos : bool) (s : string)
  : list string :=
  match s with
  | [] => [cur]
  | c :: s' =>
      if Unicode.is_space c then
        if en_blancos then re_split_from cur true s'
        else cur :: re_split_from [] true s'
      else if N.eqb c "#"%char then cur :: re_split_from [] false s'
      else re_split_from (cur ++ [c]) false s'
  end.

Definition re_split (s : string) : list string :=
  re_split_from [] false s.

(** [word.strip(string.punctuation).strip()] *)
Definition limpiar (word : string) : string :=
  Text.strip Unicode.is_space (Text.strip Text.is_punct word).

(** The state of the loops of [generate_dataset_and_trie]:
    [unique_words_trie] and the set [processed_words], kept as the list of
    its members. *)
Definition Cargando : Type := (Trie char * list string)%type.

(** The body of [for word in words_in_line]. *)
Definition cargar_palabra (st : Cargando) (word : string) : Cargando :=
  let cleaned_word := limpiar word in
  if negb (Text.is_empty cleaned_word)
     && negb (Text.mem cleaned_word data_type_keywords)
     && negb (Text.mem cleaned_word (snd st))
  then (insert N.eq_dec (fst st) cleaned_word,
        cleaned_word :: snd st)
  else st.

(** The body of [for line in f]. *)
Definition cargar_linea (st : Cargando) (line : string) : Cargando :=
  let words_in_line := re_split (Text.lower line) in
  fold_left cargar_palabra words_in_line st.

(** [generate_dataset_and_trie(file_path)], on what [open] finds at the
    path: [Some lineas] is a file with these lines, [None] a file that is
    missing or cannot be read, for which the function returns [None]. *)
Definition generate_dataset_and_trie (archivo : option (list string))
  : option (Trie char) :=
  match archivo with
  | Some lineas => Some (fst (fold_left cargar_linea lineas (new_trie, [])))
  | None => None
  end.

(** ** Tokens and the lexer *)

Inductive TipoToken : Type :=
| ACCION | CUANTIFICADOR | CONECTOR | OPERADOR
| INDICADOR_ENTIDAD | INDICADOR_ATRIBUTO | PALABRA.

Definition tipo_eqb (a b : TipoToken) : bool :=
  match a, b with
  | ACCION, ACCION | CUANTIFICADOR, CUANTIFICADOR | CONECTOR, CONECTOR
  | OPERADOR, OPERADOR | INDICADOR_ENTIDAD, INDICADOR_ENTIDAD
  | INDICADOR_ATRIBUTO, INDICADOR_ATRIBUTO | PALABRA, PALABRA => true
  | _, _ => false
  end.

(** A token is the pair (kind, literal). *)
Definition Token : Type := (TipoToken * string)%type.

(** [unir_fecha] walks the tokens from [inicio] on; [resto] is the part of
    the list still to visit, [partes] the literals joined so far and [n]
    the number of them, which is [i - inicio] of the source. *)
Fixpoint unir_fecha_desde (resto : list Token) (partes : list string) (n : Z)
  : option string * Z :=
  match resto with
  | [] => (None, 0%Z)
  | t :: resto' =>
      let partes := (partes ++ [snd t])%list in
      let posible_fecha := Text.join " " partes in
      if es_fecha posible_fecha then (Some posible_fecha, (n + 1)%Z)
      else unir_fecha_desde resto' partes (n + 1)%Z
  end.

(** [unir_fecha(tokens, inicio)], for the [inicio >= 0] of its one call. *)
Definition unir_fecha (tokens : list Token) (inicio : Z) : option string * Z :=
  unir_fecha_desde (skipn (Z.to_nat inicio) tokens) [] 0%Z.

Definition acciones : list string :=
  ["muéstrame"; "muestrame"; "mostrar"; "muestra"; "dame"; "dámelos";
   "dámelas"; "enséñame"; "ensename"; "quiero"; "consultar"; "consulta";
   "ver"; "visualizar"; "verifica"; "explora"; "lista"; "listar";
   "recupera"; "recuperar"; "busca"; "buscar"; "obtén"; "obtener";
   "extrae"; "extraer"; "filtra"; "filtrar"; "accede"; "acceder";
   "selecciona"; "seleccionar"; "deseo"; "necesito"].

Definition cuantificadores : list string :=
  ["todos"; "todas"; "los"; "las"; "algunos"; "algunas"; "ninguno";
   "ninguna"; "cada"; "varios"; "cualquier"; "cualquiera"; "muchos";
   "muchas"; "pocos"; "pocas"; "uno"; "una"; "el"; "la"; "este"; "esta";
   "estos"; "estas"].

Definition conectores : list string :=
  ["que"; "donde"; "cuyo"; "cuyos"; "cual"; "cuales"; "si"; "cuando";
   "mientras"; "aunque"; "y"; "o"].

Definition operadores : list string :=
  ["="; ">"; "<"; ">="; "<="; "!="; "<>"].

Definition clasificar (palabra : string) : Token :=
  if Text.mem palabra acciones then (ACCION, palabra)
  else if Text.mem palabra cuantificadores then (CUANTIFICADOR, palabra)
  else if Text.mem palabra conectores then (CONECTOR, palabra)
  else if Text.mem palabra operadores then (OPERADOR, palabra)
  else if Text.mem palabra
            ["tabla"; "tablas"; "base"; "bases"; "entidad"; "entidades"]
       then (INDICADOR_ENTIDAD, palabra)
  else if Text.mem palabra
            ["columna"; "columnas"; "campo"; "campos"; "atributo";
             "atributos"]
       then (INDICADOR_ATRIBUTO, palabra)
  else (PALABRA, palabra).

Definition analisis_lexico (texto : string) : list Token :=
  let texto := Text.lower texto in
  let palabras := Text.split texto in
  let palabras :=
    map (Text.strip Text.is_punct)
      (filter (fun p => negb (Text.is_empty (Text.strip Text.is_punct p)))
         palabras) in
  map clasificar palabras.

(** ** The operator normaliser *)

Definition mapeo : list (string * string) :=
  [("mayor o igual que", ">=");
   ("menor o igual que", "<=");
   ("mayor que", ">");
   ("menor que", "<");
   ("menor a", "<");
   ("igual a", "=");
   ("igual", "=");
   ("no es", "!=");
   ("diferente de", "!=")].

Definition _reemplazar_operadores_compuestos (texto : string) : string :=
  let texto := Text.lower texto in
  fold_left
    (fun texto '(frase, reemplazo) => Text.sub_word frase reemplazo None texto)
    mapeo texto.

(** ** Results of code that can raise *)

Inductive Res (A : Type) : Type :=
| Ok : A -> Res A
| IndexError : Res A
| EOFError : Res A
| ReError : Res A
| Fuel : Res A.

Arguments IndexError {A}.
Arguments EOFError {A}.
Arguments ReError {A}.
Arguments Fuel {A}.

Definition bind {A B : Type} (m : Res A) (f : A -> Res B) : Res B :=
  match m with
  | Ok a => f a
  | IndexError => IndexError
  | EOFError => EOFError
  | ReError => ReError
  | Fuel => Fuel
  end.

Declare Scope res_scope.
Delimit Scope res_scope with res.
Notation "x <- m ;; k" := (bind m (fun x => k))
  (at level 61, m at next level, right associativity) : res_scope.
Local Open Scope res_scope.

(** [b and m], which evaluates [m] only when [b] holds. *)
Definition and_then (b : bool) (m : Res bool) : Res bool :=
  if b then m else Ok false.

(** ** The structured query *)

Record Condicion : Type := mkCondicion {
  atributo : string;
  operador : string;
  valor : string
}.

(** The dict [estructura]; [atributos_mostrar] is [None] while the key is
    absent. *)
Record Estructura : Type := mkEstructura {
  accion : option string;
  entidad : option string;
  condiciones : list Condicion;
  atributos_mostrar : option (list string)
}.

Definition estructura_inicial : Estructura :=
  mkEstructura None None [] None.

Definition con_accion (e : Estructura) (a : string) : Estructura :=
  mkEstructura (Some a) (entidad e) (condiciones e) (atributos_mostrar e).

Definition con_entidad (e : Estructura) (x : string) : Estructura :=
  mkEstructura (accion e) (Some x) (condiciones e) (atributos_mostrar e).

(** [estructura["condiciones"].append(c)] *)
Definition agregar_condicion (e : Estructura) (c : Condicion) : Estructura :=
  mkEstructura (accion e) (entidad e) (condiciones e ++ [c])%list
    (atributos_mostrar e).

(** [estructura.setdefault("atributos_mostrar", []).append(a)] *)
Definition agregar_atributo (e : Estructura) (a : string) : Estructura :=
  mkEstructura (accion e) (entidad e) (condiciones e)
    (Some (match atributos_mostrar e with
           | None => [a]
           | Some l => (l ++ [a])%list
           end)).

(** [if estructura["entidad"] is None: estructura["entidad"] = x] *)
Definition entidad_si_falta (e : Estructura) (x : string) : Estructura :=
  match entidad e with
  | None => con_entidad e x
  | Some _ => e
  end.

Definition is_none {A : Type} (o : option A) : bool :=
  match o with None => true | Some _ => false end.

(** The truth value Python gives to a value that is [None] or a [str]. *)
Definition truthy (o : option string) : bool :=
  match o with
  | Some s => negb (Text.is_empty s)
  | None => false
  end.

(** ** The parser *)

Section Parser.

Variable tokens : list Token.

Definition len : Z := Z.of_nat (List.length tokens).

(** [tokens[k]]. Python reads a negative index from the end of the list;
    here every index outside [0 .. len - 1] is an error, so that a run
    without [IndexError] never leaves the bounds. *)
Definition tok (k : Z) : Res Token :=
  if ((0 <=? k) && (k <? len))%Z
  then match nth_error tokens (Z.to_nat k) with
       | Some t => Ok t
       | None => IndexError
       end
  else IndexError.

Definition tipo_en (k : Z) (t : TipoToken) : Res bool :=
  x <- tok k ;; Ok (tipo_eqb (fst x) t).

Definition valor_en (k : Z) (v : string) : Res bool :=
  x <- tok k ;; Ok (Str.eqb (snd x) v).

(** The [while j < len(tokens) - 2] loop of the connector rule, from [j]
    on; it returns the [j] it stops at. *)
Fixpoint explorar (fuel : nat) (j : Z) (e : Estructura)
  : Res (Z * Estructura) :=
  if (j <? len - 2)%Z then
    match fuel with
    | O => Fuel
    | S fuel' =>
        p0 <- tipo_en j PALABRA ;;
        p1 <- and_then p0 (tipo_en (j + 1) PALABRA) ;;
        p2 <- and_then p1 (tipo_en (j + 2) PALABRA) ;;
        if p2 then
          t0 <- tok j ;;
          t1 <- tok (j + 1) ;;
          t2 <- tok (j + 2) ;;
          let atributo := snd t0 in
          let operador_compuesto := snd t1 ++ " " ++ snd t2 in
          let operador_normalizado :=
            _reemplazar_operadores_compuestos operador_compuesto in
          if Text.mem operador_normalizado operadores then
            if (j + 3 <? len)%Z then
              t3 <- tok (j + 3) ;;
              explorar fuel' (j + 4)
                (agregar_condicion e
                   (mkCondicion atributo operador_normalizado (snd t3)))
            else explorar fuel' (j + 1) e
          else explorar fuel' (j + 1) e
        else explorar fuel' (j + 1) e
    end
  else Ok (j, e).

(** How a pass through the body of the main loop ends: [Sigue i e] reaches
    the final [i += 1], [Continua i e] left through [continue]. *)
Inductive Flujo : Type :=
| Sigue : Z -> Estructura -> Flujo
| Continua : Z -> Estructura -> Flujo.

(** The [if / elif] chain of the loop body. *)
Definition reglas (i : Z) (tipo : TipoToken) (valor : string)
    (e : Estructura) : Res Flujo :=
  if tipo_eqb tipo ACCION && is_none (accion e) then
    Ok (Sigue i (con_accion e valor))
  else if tipo_eqb tipo INDICADOR_ENTIDAD then
    b <- and_then (i + 1 <? len)%Z (tipo_en (i + 1) PALABRA) ;;
    if b then
      t <- tok (i + 1) ;;
      Ok (Sigue (i + 1) (con_entidad e (snd t)))
    else Ok (Sigue i e)
  else if tipo_eqb tipo PALABRA && is_none (entidad e) then
    if Text.mem valor ["clientes"; "productos"; "ventas"] then
      Ok (Sigue i (con_entidad e valor))
    else if Text.mem valor ["nombre"; "edad"; "id"; "dept"; "precio"; "fecha"]
    then Ok (Sigue i (agregar_atributo e valor))
    else Ok (Sigue i e)
  else if tipo_eqb tipo CONECTOR && Text.mem valor ["donde"; "que"] then
    r <- explorar (List.length tokens) (i + 1) e ;;
    Ok (Continua (fst r) (snd r))
  else if Str.eqb valor "con" && (i + 4 <? len)%Z then
    t1 <- tok (i + 1) ;;
    t2 <- tok (i + 2) ;;
    t3 <- tok (i + 3) ;;
    t4 <- tok (i + 4) ;;
    let atributo := snd t1 in
    let posible_operador := snd t2 ++ " " ++ snd t3 in
    let operador := _reemplazar_operadores_compuestos posible_operador in
    let valor_c := snd t4 in
    if Text.mem operador operadores then
      Ok (Sigue (i + 4)
            (agregar_condicion e (mkCondicion atributo operador valor_c)))
    else Ok (Sigue i e)
  else
    de <- and_then (Str.eqb valor "de" && (i >? 0)%Z)
            (tipo_en (i - 1) PALABRA) ;;
    if de then
      f <- and_then (i + 1 <? len)%Z
             (t <- tok (i + 1) ;; Ok (es_fecha (snd t))) ;;
      if negb f then
        let e :=
          if is_none (entidad e)
          then (t <- tok (i - 1) ;; Ok (con_entidad e (snd t)))
          else Ok e in
        e <- e ;;
        b <- and_then (i + 1 <? len)%Z (tipo_en (i + 1) PALABRA) ;;
        if b then
          t <- tok (i + 1) ;;
          Ok (Sigue (i + 1)
                (agregar_condicion e
                   (mkCondicion "dept" "="
                      (Text.rstrip (N.eqb "."%char) (snd t)))))
        else Ok (Sigue i e)
      else Ok (Sigue i e)
    else
      ll <- and_then
              (Text.mem valor ["llamado"; "llamados"; "llamada"]
               && (i >? 0)%Z)
              (tipo_en (i - 1) PALABRA) ;;
      if ll then
        let e :=
          if is_none (entidad e)
          then (t <- tok (i - 1) ;; Ok (con_entidad e (snd t)))
          else Ok e in
        e <- e ;;
        if (i + 1 <? len)%Z then
          t <- tok (i + 1) ;;
          Ok (Sigue (i + 1)
                (agregar_condicion e (mkCondicion "nombre" "=" (snd t))))
        else Ok (Sigue i e)
      else
        se <- and_then
                ((Str.eqb valor "llama" || Str.eqb valor "llaman")
                 && (i >=? 2)%Z)
                (valor_en (i - 1) "se") ;;
        if se then
          let e :=
            if is_none (entidad e) && (i >=? 3)%Z
            then (t <- tok (i - 3) ;; Ok (con_entidad e (snd t)))
            else Ok e in
          e <- e ;;
          if (i + 1 <? len)%Z then
            t <- tok (i + 1) ;;
            Ok (Sigue (i + 1)
                  (agregar_condicion e (mkCondicion "nombre" "=" (snd t))))
          else Ok (Sigue i e)
        else Ok (Sigue i e).

(** One pass through the body of [while i < len(tokens)], entered with the
    cursor at [i]; the result is the cursor and the structure the next
    test of the loop sees. *)
Definition paso (i : Z) (e : Estructura) : Res (Z * Estructura) :=
  t <- tok i ;;
  let tipo := fst t in
  let valor := snd t in
  if es_fecha valor then
    Ok ((i + 1)%Z, agregar_condicion e (mkCondicion "fecha" "=" valor))
  else
    en <- and_then (Str.eqb valor "de" && (i >? 1)%Z)
            (valor_en (i - 1) "en") ;;
    let unida :=
      if en then
        let '(fecha, saltos) := unir_fecha tokens (i - 1) in
        if truthy fecha
        then Some ((i + saltos)%Z,
                   agregar_condicion e
                     (mkCondicion "fecha" "="
                        (match fecha with Some f => f | None => "" end)))
        else None
      else None in
    match unida with
    | Some r => Ok r
    | None =>
        r <- reglas i tipo valor e ;;
        match r with
        | Sigue i e => Ok ((i + 1)%Z, e)
        | Continua i e => Ok (i, e)
        end
    end.

Fixpoint bucle (fuel : nat) (i : Z) (e : Estructura) : Res Estructura :=
  if (i <? len)%Z then
    match fuel with
    | O => Fuel
    | S fuel' => r <- paso i e ;; bucle fuel' (fst r) (snd r)
    end
  else Ok e.

(** The cursor moves forward on every pass, so as many passes as there are
    tokens are enough. *)
Definition analisis_sintactico : Res Estructura :=
  bucle (List.length tokens) 0%Z estructura_inicial.

End Parser.

(** ** The natural-language rendering *)

Definition operador_map : list (string * string) :=
  [("=", "igual"); (">", "mayor"); ("<", "menor"); (">=", "mayor o igual");
   ("<=", "menor o igual"); ("!=", "diferente"); ("<>", "diferente")].

(** [d.get(k, default)] on a dict literal. *)
Fixpoint dict_get (d : list (string * string)) (k default : string)
  : string :=
  match d with
  | [] => default
  | (k', v) :: d' => if Str.eqb k' k then v else dict_get d' k default
  end.

Definition analisis_semantico_mejorado (estructura : Estructura) : string :=
  Text.join " y "
    (map (fun cond =>
            let atributo := atributo cond in
            let operador :=
              dict_get operador_map (operador cond) (operador cond) in
            let valor := valor cond in
            atributo ++ " " ++ operador ++ " " ++ valor)
       (condiciones estructura)).

Definition generar_lenguaje_natural_final (estructura : Estructura)
    (condiciones_ln : string) : string :=
  match entidad estructura with
  | Some ent =>
      if Text.is_empty ent
      then "-- No se puede generar consulta en LN: entidad desconocida."
      else
        let consulta := "selecciona * de " ++ ent in
        let consulta :=
          if Text.is_empty condiciones_ln then consulta
          else consulta ++ " donde " ++ condiciones_ln in
        consulta ++ "."
  | None => "-- No se puede generar consulta en LN: entidad desconocida."
  end.

(** ** The SQL generator *)

Section SQL.

(** [datetime.strptime(valor, "%d de %B de %Y").strftime("%Y-%m-%d")], of
    the Python library: [None] when it raises. The month names [%B] reads
    are those of the locale the program runs in. *)
Variable fecha_iso : string -> option string.

(** The body of [for cond in estructura["condiciones"]]: the text the pass
    appends to [condiciones]. *)
Definition condicion_sql (cond : Condicion) : string :=
  let atributo := atributo cond in
  let operador := operador cond in
  let valor := valor cond in
  if Str.eqb atributo "fecha" && match_prefix FORMATO_LARGO valor then
    let valor :=
      match fecha_iso valor with
      | Some v => v
      | None => valor
      end in
    atributo ++ " " ++ operador ++ " DATE('" ++ valor ++ "')"
  else if Text.isdigit (Text.replace "." "" (Some 1%nat) valor) then
    atributo ++ " " ++ operador ++ " " ++ valor
  else
    atributo ++ " " ++ operador ++ " '" ++ valor ++ "'".

Definition SIN_ENTIDAD : string :=
  "-- No se puede generar consulta SQL: entidad desconocida.".

Definition generar_sql (estructura : Estructura) : string :=
  match entidad estructura with
  | Some ent =>
      if Text.is_empty ent then SIN_ENTIDAD
      else
        let sql :=
          match atributos_mostrar estructura with
          | Some (a :: l) =>
              "SELECT " ++ Text.join ", " (a :: l) ++ " FROM " ++ ent
          | _ => "SELECT * FROM " ++ ent
          end in
        let condiciones := map condicion_sql (condiciones estructura) in
        match condiciones with
        | [] => sql
        | _ => sql ++ " WHERE " ++ Text.join " AND " condiciones
        end
  | None => SIN_ENTIDAD
  end.

(** [compilador_nl2sql_texto]: the SQL and the structure. The tokens, the
    natural-language rendering and the SQL are also printed on the way. *)
Definition compilador_nl2sql_texto (texto : string)
  : Res (string * Estructura) :=
  let tokens := analisis_lexico texto in
  estructura <- analisis_sintactico tokens ;;
  Ok (generar_sql estructura, estructura).

End SQL.

(** ** The corrector *)

(** U+005C *)
Definition BACKSLASH : char := 92%N.

(** ['\\' in s] *)
Definition con_barra (s : string) : bool := existsb (N.eqb BACKSLASH) s.

Section Corrector.

Variable fecha_iso : string -> option string.

(** [difflib.get_close_matches(word, possibilities, n=5, cutoff=0.6)], of
    the Python library. *)
Variable get_close_matches : string -> list string -> list string.

(** The reading [re.sub] makes of a replacement that holds a backslash, of
    the Python library: the function from the text matched to the text put
    in its place, or the exception raised for a replacement it refuses
    ([re.error] for an escape it does not know or a reference to a group
    the pattern does not have, [IndexError] for a group name it does not
    know). A replacement without a backslash is put in as it is. *)
Variable plantilla : string -> Res (string -> string).

(** [re.sub(r'\b' + re.escape(frase) + r'\b', repl, s, n)]. The
    replacement is read before the text is searched; what the pattern
    matches is [frase] itself. *)
Definition re_sub_word (frase repl : string) (n : nat) (s : string)
  : Res string :=
  if con_barra repl then
    f <- plantilla repl ;;
    Ok (Text.sub_word frase (f frase) (Some n) s)
  else Ok (Text.sub_word frase repl (Some n) s).

Inductive TipoRevision : Type :=
| RevEntidad | RevAtributoMostrar | RevAtributoCondicion.

(** A revision: its ["tipo"], ["original"] and ["indice"]. The keys
    ["campo_estructura"] and ["sub_campo"] follow from the kind. *)
Record Revision : Type := mkRevision {
  rev_tipo : TipoRevision;
  rev_original : string;
  rev_indice : nat
}.

Definition Diccionario : Type := Trie char.

(** [diccionario_valido_trie.search(palabra)] *)
Definition en_diccionario (d : Diccionario) (palabra : string) : bool :=
  search N.eq_dec d palabra.

Definition revisiones_entidad (d : Diccionario) (e : Estructura)
  : list Revision :=
  match entidad e with
  | Some ent =>
      if negb (Text.is_empty ent) && negb (en_diccionario d ent)
      then [mkRevision RevEntidad ent 0]
      else []
  | None => []
  end.

(** [for i, attr in enumerate(atributos_mostrar)], from index [i] on. *)
Fixpoint revisiones_mostrar (d : Diccionario) (i : nat) (attrs : list string)
  : list Revision :=
  match attrs with
  | [] => []
  | attr :: attrs' =>
      ((if negb (en_diccionario d attr)
        then [mkRevision RevAtributoMostrar attr i]
        else []) ++ revisiones_mostrar d (S i) attrs')%list
  end.

(** [for i, cond in enumerate(estructura.get("condiciones", []))], from
    index [i] on. *)
Fixpoint revisiones_condiciones (d : Diccionario) (i : nat)
    (conds : list Condicion) : list Revision :=
  match conds with
  | [] => []
  | cond :: conds' =>
      let atributo_cond := atributo cond in
      ((if negb (Text.is_empty atributo_cond)
           && negb (en_diccionario d atributo_cond)
        then [mkRevision RevAtributoCondicion atributo_cond i]
        else []) ++ revisiones_condiciones d (S i) conds')%list
  end.

(** The list [revisiones] at the end of the three checks. *)
Definition revisiones (d : Diccionario) (e : Estructura) : list Revision :=
  (revisiones_entidad d e
   ++ revisiones_mostrar d 0
        (match atributos_mostrar e with Some l => l | None => [] end)
   ++ revisiones_condiciones d 0 (condiciones e))%list.

(** [l[i] = x], for an index in range. *)
Fixpoint set_nth {A : Type} (i : nat) (x : A) (l : list A) : list A :=
  match l, i with
  | [], _ => []
  | _ :: l', O => x :: l'
  | y :: l', S k => y :: set_nth k x l'
  end.

(** The [while seleccion < 1 or seleccion > len(opciones)] loop. The lines
    typed at the prompt are [entradas]: [Some k] is a line [int] reads as
    [k], [None] one it rejects. The result is the selection and the lines
    left; reading past the last line is [EOFError]. *)
Fixpoint elegir (n_opciones : Z) (entradas : list (option Z))
  : Res (Z * list (option Z)) :=
  match entradas with
  | [] => EOFError
  | Some k :: entradas' =>
      if ((k <? 1) || (k >? n_opciones))%Z
      then elegir n_opciones entradas'
      else Ok (k, entradas')
  | None :: entradas' => elegir n_opciones entradas'
  end.

(** The update a revision makes once [palabra_elegida] is known. *)
Definition aplicar (rev : Revision) (palabra_elegida : string)
    (nueva_sql_query : string) (e : Estructura) : Res (string * Estructura) :=
  match rev_tipo rev with
  | RevEntidad =>
      let old_entity :=
        match entidad e with Some x => x | None => "None" end in
      Ok (Text.replace ("FROM " ++ old_entity) ("FROM " ++ palabra_elegida)
            None nueva_sql_query,
          con_entidad e palabra_elegida)
  | RevAtributoMostrar =>
      let attrs :=
        match atributos_mostrar e with Some l => l | None => [] end in
      match nth_error attrs (rev_indice rev) with
      | Some old_attr =>
          sql <- re_sub_word old_attr palabra_elegida 1 nueva_sql_query ;;
          Ok (sql,
              mkEstructura (accion e) (entidad e) (condiciones e)
                (Some (set_nth (rev_indice rev) palabra_elegida attrs)))
      | None => IndexError
      end
  | RevAtributoCondicion =>
      match nth_error (condiciones e) (rev_indice rev) with
      | Some cond =>
          let e :=
            mkEstructura (accion e) (entidad e)
              (set_nth (rev_indice rev)
                 (mkCondicion palabra_elegida (operador cond) (valor cond))
                 (condiciones e))
              (atributos_mostrar e) in
          Ok (generar_sql fecha_iso e, e)
      | None => IndexError
      end
  end.

(** [for rev in revisiones]. *)
Fixpoint revisar (revs : list Revision) (todas_palabras_validas : list string)
    (entradas : list (option Z)) (nueva_sql_query : string) (e : Estructura)
  : Res (string * Estructura) :=
  match revs with
  | [] => Ok (nueva_sql_query, e)
  | rev :: revs' =>
      let palabra_a_revisar := rev_original rev in
      let sugerencias :=
        get_close_matches palabra_a_revisar todas_palabras_validas in
      let opciones := palabra_a_revisar :: sugerencias in
      s <- elegir (Z.of_nat (List.length opciones)) entradas ;;
      let seleccion := fst s in
      let palabra_elegida :=
        nth (Z.to_nat (seleccion - 1)) opciones palabra_a_revisar in
      r <- aplicar rev palabra_elegida nueva_sql_query e ;;
      revisar revs' todas_palabras_validas (snd s) (fst r) (snd r)
  end.

(** [revisar_y_sugerir_traduccion], without its printing: the SQL it
    returns and the structure as it leaves it. [original_text] is only
    printed. *)
Definition revisar_y_sugerir_traduccion (sql_query : string)
    (estructura : Estructura) (diccionario_valido_trie : Diccionario)
    (original_text : string) (entradas : list (option Z))
  : Res (string * Estructura) :=
  let todas_palabras_validas :=
    get_all_words diccionario_valido_trie in
  let revisiones := revisiones diccionario_valido_trie estructura in
  match revisiones with
  | [] => Ok (sql_query, estructura)
  | _ =>
      revisar revisiones todas_palabras_validas entradas sql_query estructura
  end.

End Corrector.

(** ** Predicates of the statements *)

Section TriePredicates.

Local Open Scope list_scope.

Variable char : Type.
Variable char_eq_dec : forall a b : char, {a = b} + {a <> b}.

(** The node [node.children[c]] of the defaultdict. *)
Definition child_or_new (c : char) (ch : list (char * TrieNode char))
  : TrieNode char :=
  match lookup char_eq_dec c ch with
  | Some t => t
  | None => new_node
  end.

(** The [for char, child_node in node.children.items()] loop of
    [get_all_words] over the entries [ch]. *)
Fixpoint items_words (ch : list (char * TrieNode char)) (prefix : list char)
    (words : list (list char)) : list (list char) :=
  match ch with
  | [] => words
  | (c, child) :: ch' =>
      items_words ch' prefix (get_all_words_node child (prefix ++ [c]) words)
  end.

(** [has_word n s]: following the characters of [s] from [n] along some
    entries of the children ends on a node flagged as the end of a word. *)
Inductive has_word : TrieNode char -> list char -> Prop :=
| has_word_nil : forall n, is_end_of_word n = true -> has_word n []
| has_word_cons : forall n c child s,
    In (c, child) (children n) -> has_word child s ->
    has_word n (c :: s).

(** The children of every node are a dict: no key comes twice. *)
#[warnings="-register-all"] Inductive dict_keys : TrieNode char -> Prop :=
| dict_keys_node : forall e ch,
    NoDup (map fst ch) ->
    Forall (fun kc => dict_keys (snd kc)) ch ->
    dict_keys (Node e ch).

End TriePredicates.







(** The long-form date case of the SQL generator. *)
Definition caso_fecha_larga (cond : Condicion) : bool :=
  Str.eqb (atributo cond) "fecha"
  && match_prefix FORMATO_LARGO (valor cond).

(** A condition the parser may add for a token list: its operator is one
    of the symbols and its value is the literal of a token, with the dots
    at its end stripped or not. *)
Definition condicion_de (tokens : list Token) (c : Condicion) : Prop :=
  Text.mem (operador c) operadores = true /\
  exists t, In t tokens /\
            (valor c = snd t \/ valor c = Text.rstrip (N.eqb "."%char) (snd t)).

(** [evoluciona tokens e e']: [e'] is [e] after some of the updates the
    parser makes: recording the literal of an ACCION token as the action
    when there is none, recording the literal of a token as the entity,
    adding a known column to the attributes to show while there is no
    entity, and adding a condition. *)
Inductive evoluciona (tokens : list Token) : Estructura -> Estructura -> Prop :=
| ev_refl : forall e, evoluciona tokens e e
| ev_accion : forall e e' a,
    evoluciona tokens e e' -> accion e' = None -> In (ACCION, a) tokens ->
    evoluciona tokens e (con_accion e' a)
| ev_entidad : forall e e' t,
    evoluciona tokens e e' -> In t tokens ->
    evoluciona tokens e (con_entidad e' (snd t))
| ev_atributo : forall e e' a,
    evoluciona tokens e e' -> entidad e' = None ->
    Text.mem a ["nombre"; "edad"; "id"; "dept"; "precio"; "fecha"] = true ->
    evoluciona tokens e (agregar_atributo e' a)
| ev_condicion : forall e e' c,
    evoluciona tokens e e' -> condicion_de tokens c ->
    evoluciona tokens e (agregar_condicion e' c).

(** [s[n:]] *)
Fixpoint drop (n : nat) (s : string) : string :=
  match n, s with
  | S k, _ :: s' => drop k s'
  | _, _ => s
  end.

(** The place a revision points at holds the word the revision names. *)
Definition apunta (e : Estructura) (r : Revision) : Prop :=
  match rev_tipo r with
  | RevEntidad => entidad e = Some (rev_original r)
  | RevAtributoMostrar =>
      exists l, atributos_mostrar e = Some l /\
                nth_error l (rev_indice r) = Some (rev_original r)
  | RevAtributoCondicion =>
      exists cond, nth_error (condiciones e) (rev_indice r) = Some cond /\
                   atributo cond = rev_original r
  end.

(** A revision of an attribute to show names a word without a
    backslash. *)
Definition sin_barra (r : Revision) : Prop :=
  rev_tipo r = RevAtributoMostrar -> con_barra (rev_original r) = false.

(** A line typed at the prompt that makes the corrector ask again. *)
Definition entrada_invalida (n_opciones : Z) (x : option Z) : Prop :=
  match x with
  | Some k => (k < 1 \/ n_opciones < k)%Z
  | None => True
  end.

(** Two structures that differ in names at most: the same action, the
    same operators and values in the same order, as many attributes to
    show. *)
Definition misma_forma (e e' : Estructura) : Prop :=
  accion e' = accion e /\
  map operador (condiciones e') = map operador (condiciones e) /\
  map valor (condiciones e') = map valor (condiciones e) /\
  List.length (match atributos_mostrar e' with Some l => l | None => [] end)
  = List.length (match atributos_mostrar e with Some l => l | None => [] end).

(** [frase in s]: the text [frase] occurs in [s]. *)
Fixpoint contiene (frase s : string) : bool :=
  Str.prefix frase s
  || match s with
     | [] => false
     | _ :: s' => contiene frase s'
     end.

(** No class of the pattern [r] accepts the character [c]. *)
Fixpoint excluye (c : char) (r : regex) : bool :=
  match r with
  | Void | Eps => true
  | Cls p => negb (p c)
  | Cat r1 r2 | Alt r1 r2 => excluye c r1 && excluye c r2
  | Star r1 => excluye c r1
  end.

(** [str.lower] gives the character [c] another lower case than [c]
    itself. *)
Definition cambia (c : char) : bool :=
  (c =? 304)%N || existsb (fun r => (fst r =? c)%N) Unicode.LOWER.

Arguments cambia : simpl never.

(** A text in lower case: no character of it is changed by [str.lower]. *)
Definition minusculas (s : string) : bool :=
  Text.all_chars (fun c => negb (cambia c)) s.

(** A normalised word: not empty, left as it is by [str.lower], without
    white space, and with no punctuation sign at either end. *)
Definition no_p (p : char -> bool) (c : option char) : bool :=
  match c with
  | Some c => negb (p c)
  | None => true
  end.

Definition normalizada (w : string) : bool :=
  negb (Text.is_empty w)
  && Str.eqb (Text.lower w) w
  && Text.all_chars (fun c => negb (Unicode.is_space c)) w
  && no_p Text.is_punct (Str.get 0 w)
  && no_p Text.is_punct (Text.last_char w).

(** [termina r P]: the run [r] ends without an exception, with a result
    that satisfies [P]. *)
Definition termina {A : Type} (r : Res A) (P : A -> Prop) : Prop :=
  match r with
  | Ok a => P a
  | _ => False
  end.

(** [cumple r P]: when the run [r] ends without an exception, its result
    satisfies [P]. *)
Definition cumple {A : Type} (r : Res A) (P : A -> Prop) : Prop :=
  match r with
  | Ok a => P a
  | _ => True
  end.

Definition flujo_estructura (f : Flujo) : Estructura :=
  match f with Sigue _ e => e | Continua _ e => e end.

(** Where the [if / elif] chain may leave a cursor that entered at [i]: at
    [i] or after it on the way to the final [i += 1], strictly after it
    on [continue]. *)
Definition flujo_avanza (i : Z) (f : Flujo) : Prop :=
  match f with
  | Sigue j _ => (i <= j)%Z
  | Continua j _ => (i < j)%Z
  end.

(** The entity is not the empty text. *)
Definition entidad_no_vacia (e : Estructura) : Prop := entidad e <> Some "".

(** No token has an empty literal. *)
Definition literales_no_vacios (tokens : list Token) : Prop :=
  Forall (fun t => snd t <> "") tokens.

(** * Properties *)

(** ** The Trie *)

Section TrieFacts.

Local Open Scope list_scope.

Variable char : Type.
Variable char_eq_dec : forall a b : char, {a = b} + {a <> b}.

Local Abbreviation node := (TrieNode char).
Local Abbreviation lookupc := (lookup char_eq_dec).
Local Abbreviation updatec := (update char_eq_dec).
Local Abbreviation insertn := (insert_node char_eq_dec).
Local Abbreviation searchn := (search_node char_eq_dec).
Local Abbreviation word_eq_dec := (list_eq_dec char_eq_dec).

Lemma node_induction (P : node -> Prop) :
  (forall e ch, Forall (fun kc => P (snd kc)) ch -> P (Node e ch)) ->
  forall n, P n.
Proof.
  intros step. fix IH 1. intros [e ch]. apply step.
  induction ch as [|[k t] ch IHch]; constructor.
  - apply IH.
  - exact IHch.
Qed.

Local Abbreviation child_or_new := (child_or_new char_eq_dec).

Lemma lookup_update_same c f ch :
  lookupc c (updatec c f ch) = Some (f (child_or_new c ch)).
Proof.
  unfold child_or_new.
  induction ch as [|[k t] ch IH]; simpl.
  - destruct (char_eq_dec c c); [reflexivity | contradiction].
  - destruct (char_eq_dec k c) as [->|ne]; simpl.
    + destruct (char_eq_dec c c); [reflexivity | contradiction].
    + destruct (char_eq_dec k c); [contradiction | exact IH].
Qed.

Lemma lookup_update_other c c' f ch :
  c' <> c -> lookupc c' (updatec c f ch) = lookupc c' ch.
Proof.
  intros ne.
  induction ch as [|[k t] ch IH]; simpl.
  - destruct (char_eq_dec c c'); [congruence | reflexivity].
  - destruct (char_eq_dec k c) as [->|nk]; simpl.
    + destruct (char_eq_dec c c'); [congruence | reflexivity].
    + destruct (char_eq_dec k c'); [reflexivity | exact IH].
Qed.

Lemma search_new_node w : searchn w new_node = false.
Proof. destruct w; reflexivity. Qed.

Lemma search_child_or_new c w n :
  searchn w (child_or_new c (children n)) = searchn (c :: w) n.
Proof.
  unfold child_or_new. simpl.
  destruct (lookupc c (children n)); [reflexivity | apply search_new_node].
Qed.

(** What [search] sees after an [insert]: the word inserted, and every
    other word as before. *)
Lemma search_insert_node w : forall w' n,
  searchn w' (insertn w n) =
  if word_eq_dec w w' then true else searchn w' n.
Proof.
  induction w as [|c w IH]; intros w' n.
  - destruct w' as [|c' w']; simpl.
    + reflexivity.
    + destruct (word_eq_dec [] (c' :: w')); [discriminate | reflexivity].
  - destruct w' as [|c' w'].
    + simpl. destruct (word_eq_dec (c :: w) []); [discriminate | reflexivity].
    + cbn [search_node insert_node children].
      destruct (char_eq_dec c' c) as [->|ne].
      * rewrite lookup_update_same, IH, search_child_or_new.
        destruct (word_eq_dec (c :: w) (c :: w'));
          destruct (word_eq_dec w w'); try reflexivity; congruence.
      * rewrite lookup_update_other by exact ne.
        destruct (word_eq_dec (c :: w) (c' :: w')); [congruence | reflexivity].
Qed.

Lemma search_insert_same t w :
  search char_eq_dec (insert char_eq_dec t w) w = true.
Proof.
  unfold search, insert. simpl. rewrite search_insert_node.
  destruct (word_eq_dec w w); [reflexivity | congruence].
Qed.

Lemma search_insert_keeps t w w' :
  search char_eq_dec t w = true ->
  search char_eq_dec (insert char_eq_dec t w') w = true.
Proof.
  unfold search, insert. simpl. intros H. rewrite search_insert_node.
  destruct (word_eq_dec w' w); [reflexivity | exact H].
Qed.

Lemma search_insert_all_keeps ws : forall t w,
  search char_eq_dec t w = true ->
  search char_eq_dec (insert_all char_eq_dec t ws) w = true.
Proof.
  induction ws as [|w' ws IH]; intros t w H; simpl.
  - exact H.
  - apply IH, search_insert_keeps, H.
Qed.

Lemma get_all_words_node_eq e (ch : list (char * node)) p ws :
  get_all_words_node (Node e ch) p ws =
  items_words ch p (if e then ws ++ [p] else ws).
Proof.
  assert (items : forall ws',
    (fix items (ch : list (char * node)) (words : list (list char)) :=
       match ch with
       | [] => words
       | (c, child) :: ch' =>
           items ch' (get_all_words_node child (p ++ [c]) words)
       end) ch ws' = items_words ch p ws').
  { induction ch as [|[c child] ch IH]; intros ws'; simpl.
    - reflexivity.
    - apply IH. }
  simpl. apply items.
Qed.

Lemma words_acc : forall (n : node) p ws,
  get_all_words_node n p ws = ws ++ get_all_words_node n p [].
Proof.
  induction n as [e ch IHch] using node_induction. intros p ws.
  rewrite !get_all_words_node_eq.
  assert (items : forall ws, items_words ch p ws = ws ++ items_words ch p []).
  { clear ws. induction ch as [|[c child] ch IH]; intros ws; simpl.
    - now rewrite app_nil_r.
    - inversion IHch as [|? ? Hc Hch]; subst. simpl in Hc.
      rewrite (IH Hch (get_all_words_node child (p ++ [c]) ws)).
      rewrite (IH Hch (get_all_words_node child (p ++ [c]) [])).
      rewrite (Hc (p ++ [c]) ws). now rewrite app_assoc. }
  rewrite (items (if e then ws ++ [p] else ws)).
  rewrite (items (if e then [] ++ [p] else [])).
  destruct e; simpl; [now rewrite <- app_assoc | reflexivity].
Qed.

Lemma items_words_acc (ch : list (char * node)) p : forall ws,
  items_words ch p ws = ws ++ items_words ch p [].
Proof.
  induction ch as [|[c child] ch IH]; intros ws; simpl.
  - now rewrite app_nil_r.
  - rewrite IH, (IH (get_all_words_node child (p ++ [c]) [])), words_acc.
    now rewrite app_assoc.
Qed.

Lemma items_words_cons c (child : node) ch p :
  items_words ((c, child) :: ch) p [] =
  get_all_words_node child (p ++ [c]) [] ++ items_words ch p [].
Proof. simpl. apply items_words_acc. Qed.

Lemma get_all_words_node_split e (ch : list (char * node)) p :
  get_all_words_node (Node e ch) p [] =
  (if e then [p] else []) ++ items_words ch p [].
Proof.
  rewrite get_all_words_node_eq, items_words_acc. now destruct e.
Qed.

Lemma in_items_words (ch : list (char * node)) p w :
  In w (items_words ch p []) <->
  exists c child, In (c, child) ch /\
                  In w (get_all_words_node child (p ++ [c]) []).
Proof.
  induction ch as [|[c child] ch IH].
  - simpl. split; [contradiction | intros (? & ? & [] & _)].
  - rewrite items_words_cons, in_app_iff, IH. split.
    + intros [H | (c' & child' & Hin & H)].
      * exists c, child. split; [now left | exact H].
      * exists c', child'. split; [now right | exact H].
    + intros (c' & child' & [Heq | Hin] & H).
      * inversion Heq; subst. now left.
      * right. now exists c', child'.
Qed.

(** The enumeration lists the words that lead to a flagged node. *)
Lemma in_get_all_words_node : forall (n : node) p w,
  In w (get_all_words_node n p []) <->
  exists s, w = p ++ s /\ has_word n s.
Proof.
  induction n as [e ch IHch] using node_induction. intros p w.
  rewrite Forall_forall in IHch.
  rewrite get_all_words_node_split, in_app_iff, in_items_words. split.
  - intros [H | (c & child & Hin & H)].
    + destruct e; [|contradiction]. destruct H as [<-|[]].
      exists []. split; [now rewrite app_nil_r | now constructor].
    + apply (IHch (c, child) Hin) in H. destruct H as (s & -> & Hs).
      exists (c :: s). split; [now rewrite <- app_assoc|].
      now apply has_word_cons with (child := child).
  - intros (s & -> & Hs). inversion Hs as [n He | n c child s' Hin Hs']; subst.
    + left. simpl in He. subst e. left. now rewrite app_nil_r.
    + right. exists c, child. split; [exact Hin|].
      apply (IHch (c, child) Hin). exists s'.
      split; [now rewrite <- app_assoc | exact Hs'].
Qed.

Lemma lookup_in c (t : node) ch : lookupc c ch = Some t -> In (c, t) ch.
Proof.
  induction ch as [|[k t'] ch IH]; simpl; [discriminate|].
  destruct (char_eq_dec k c) as [->|ne].
  - intros [= ->]. now left.
  - intros H. right. now apply IH.
Qed.

Lemma in_lookup c (t : node) ch :
  NoDup (map fst ch) -> In (c, t) ch -> lookupc c ch = Some t.
Proof.
  induction ch as [|[k t'] ch IH]; simpl; [contradiction|].
  intros Hnd [Heq | Hin]; inversion Hnd as [|? ? Hk Hnd']; subst.
  - inversion Heq; subst.
    destruct (char_eq_dec c c); [reflexivity | contradiction].
  - destruct (char_eq_dec k c) as [->|ne].
    + exfalso. apply Hk. apply (in_map fst) in Hin. exact Hin.
    + now apply IH.
Qed.

(** When the children are dicts, [search] follows the one path there is. *)
Lemma has_word_search s : forall n : node,
  dict_keys n -> (has_word n s <-> searchn s n = true).
Proof.
  induction s as [|c s IH]; intros n Hn.
  - simpl. split; [intros H; now inversion H | now constructor].
  - inversion Hn as [e ch Hnd Hch]; subst. rewrite Forall_forall in Hch.
    simpl. split.
    + intros H. inversion H as [|? ? child ? Hin Hs]; subst. simpl in Hin.
      rewrite (in_lookup _ _ _ Hnd Hin). apply IH; [|exact Hs].
      exact (Hch (c, child) Hin).
    + destruct (lookupc c ch) as [child|] eqn:E; [|discriminate].
      intros H. apply lookup_in in E.
      apply has_word_cons with (child := child); [exact E|].
      apply IH; [exact (Hch (c, child) E) | exact H].
Qed.

Lemma in_update_keys c f (ch : list (char * node)) x :
  In x (map fst (updatec c f ch)) -> x = c \/ In x (map fst ch).
Proof.
  induction ch as [|[k t] ch IH]; simpl.
  - intros [<-|[]]. now left.
  - destruct (char_eq_dec k c) as [->|ne]; simpl.
    + intros [<-|H]; [now left | right; now right].
    + intros [<-|H]; [right; now left|].
      destruct (IH H) as [->|H']; [now left | right; now right].
Qed.

Lemma update_keys c f (ch : list (char * node)) :
  NoDup (map fst ch) -> NoDup (map fst (updatec c f ch)).
Proof.
  induction ch as [|[k t] ch IH]; simpl; intros Hnd.
  - constructor; [intros [] | constructor].
  - inversion Hnd as [|? ? Hk Hnd']; subst.
    destruct (char_eq_dec k c) as [->|ne]; simpl.
    + now constructor.
    + constructor; [|now apply IH].
      intros H. apply in_update_keys in H. destruct H as [->|H]; tauto.
Qed.

Lemma update_forall (P : node -> Prop) c f (ch : list (char * node)) :
  (forall t, P t -> P (f t)) -> P new_node ->
  Forall (fun kc => P (snd kc)) ch ->
  Forall (fun kc => P (snd kc)) (updatec c f ch).
Proof.
  intros Hf Hnew. induction ch as [|[k t] ch IH]; simpl; intros H.
  - constructor; [apply Hf, Hnew | constructor].
  - inversion H as [|? ? Ht Hch]; subst.
    destruct (char_eq_dec k c); constructor; simpl in *; auto.
Qed.

Lemma dict_keys_new_node : dict_keys (@new_node char).
Proof. constructor; constructor. Qed.

Lemma dict_keys_insert_node w : forall n : node,
  dict_keys n -> dict_keys (insertn w n).
Proof.
  induction w as [|c w IH]; intros n Hn;
    inversion Hn as [e ch Hnd Hch]; subst; simpl.
  - now constructor.
  - constructor.
    + now apply update_keys.
    + apply update_forall; [exact IH | apply dict_keys_new_node | exact Hch].
Qed.

Lemma dict_keys_insert_all ws : forall t : Trie char,
  dict_keys (root t) -> dict_keys (root (insert_all char_eq_dec t ws)).
Proof.
  induction ws as [|w ws IH]; intros t Ht; simpl; [exact Ht|].
  apply IH. simpl. now apply dict_keys_insert_node.
Qed.

(** The enumeration of a trie whose children are dicts has no word twice. *)
Lemma NoDup_get_all_words_node : forall n : node,
  dict_keys n -> forall p, NoDup (get_all_words_node n p []).
Proof.
  induction n as [e ch IHch] using node_induction. intros Hn p.
  inversion Hn as [? ? Hnd Hch]; subst.
  rewrite get_all_words_node_split.
  assert (longer : forall w, In w (items_words ch p []) ->
                             length p < length w).
  { intros w Hw. apply in_items_words in Hw.
    destruct Hw as (c & child & _ & Hw).
    apply in_get_all_words_node in Hw. destruct Hw as (s & -> & _).
    rewrite !length_app. simpl. lia. }
  assert (nodup : NoDup (items_words ch p [])).
  { clear longer Hn. induction ch as [|[c child] ch IH].
    - constructor.
    - inversion IHch as [|? ? Hc IHch']; subst.
      inversion Hch as [|? ? Hdc Hch']; subst.
      inversion Hnd as [|? ? Hk Hnd']; subst. simpl in Hc, Hdc, Hk.
      rewrite items_words_cons. apply NoDup_app.
      + now apply Hc.
      + now apply IH.
      + intros w Hw Hw'. apply in_get_all_words_node in Hw.
        destruct Hw as (s & -> & _).
        apply in_items_words in Hw'.
        destruct Hw' as (c' & child' & Hin & Hw').
        apply in_get_all_words_node in Hw'. destruct Hw' as (s' & Heq & _).
        rewrite <- !app_assoc in Heq. apply app_inv_head in Heq.
        inversion Heq; subst. apply Hk.
        apply (in_map fst) in Hin. exact Hin. }
  destruct e; simpl; [|exact nodup].
  constructor; [|exact nodup].
  intros H. apply longer in H. lia.
Qed.

Lemma search_insert_all ws : forall (t : Trie char) w,
  search char_eq_dec (insert_all char_eq_dec t ws) w = true <->
  search char_eq_dec t w = true \/ In w ws.
Proof.
  induction ws as [|w' ws IH]; intros t w; simpl.
  - tauto.
  - rewrite IH. unfold search, insert. simpl. rewrite search_insert_node.
    destruct (word_eq_dec w' w) as [->|ne]; [tauto|].
    split; [tauto|]. intros [H|[H|H]]; [tauto | congruence | tauto].
Qed.

(** Enumerating what was inserted into a new trie. *)
Lemma get_all_words_insert_all ws :
  NoDup (get_all_words (insert_all char_eq_dec new_trie ws)) /\
  forall w, In w (get_all_words (insert_all char_eq_dec new_trie ws)) <->
            In w ws.
Proof.
  assert (Hd : dict_keys (root (insert_all char_eq_dec new_trie ws))).
  { apply dict_keys_insert_all. apply dict_keys_new_node. }
  split.
  - now apply NoDup_get_all_words_node.
  - intros w. unfold get_all_words. rewrite in_get_all_words_node.
    split.
    + intros (s & Hs & Hw). simpl in Hs. subst s.
      apply (has_word_search w Hd) in Hw.
      apply (search_insert_all ws new_trie w) in Hw.
      destruct Hw as [Hw|Hw]; [|exact Hw].
      unfold search in Hw. simpl in Hw. now rewrite search_new_node in Hw.
    + intros Hw. exists w. split; [reflexivity|].
      apply (has_word_search w Hd).
      apply (search_insert_all ws new_trie w). now right.
Qed.

(** C8. For every list [ws] of distinct words, inserting them into a new
    Trie in any order ([ws'] is any arrangement of [ws]) and enumerating
    gives a list that has no word twice and holds exactly the words of
    [ws]. *)
Theorem get_all_words_exactly_inserted (ws ws' : list (list char)) :
  NoDup ws -> Permutation ws ws' ->
  NoDup (get_all_words (insert_all char_eq_dec new_trie ws')) /\
  Permutation (get_all_words (insert_all char_eq_dec new_trie ws')) ws.
Proof.
  intros Hnd Hperm.
  destruct (get_all_words_insert_all ws') as [Hnd' Hin].
  split; [exact Hnd'|].
  apply NoDup_Permutation; [exact Hnd' | exact Hnd|].
  intros w. rewrite Hin. split; intros H.
  - apply Permutation_in with (l := ws'); [now apply Permutation_sym | exact H].
  - apply Permutation_in with (l := ws); assumption.
Qed.

(** C9. For every Trie [t] and word [w], [search] finds [w] right after
    [insert], and still finds it after any further list [ws] of words has
    been inserted. *)
Theorem search_after_insert (t : Trie char) (w : list char)
    (ws : list (list char)) :
  search char_eq_dec (insert char_eq_dec t w) w = true /\
  search char_eq_dec
    (insert_all char_eq_dec (insert char_eq_dec t w) ws) w = true.
Proof.
  split.
  - apply search_insert_same.
  - apply search_insert_all_keeps, search_insert_same.
Qed.

End TrieFacts.

Lemma get_all_words_exactly_inserted_witness :
  NoDup
    (get_all_words
       (insert_all N.eq_dec new_trie
          ["edad"; "ventas"; "venta"])) /\
  Permutation
    (get_all_words
       (insert_all N.eq_dec new_trie
          ["edad"; "ventas"; "venta"]))
    ["ventas"; "venta"; "edad"].
Proof.
  apply (@get_all_words_exactly_inserted char N.eq_dec).
  - repeat constructor; simpl; intuition discriminate.
  - apply perm_trans with
      ["ventas"; "edad"; "venta"].
    + apply perm_skip. apply perm_swap.
    + apply perm_swap.
Defined.

(** ** Text *)

Lemma append_nil_r (s : string) : s ++ [] = s.
Proof. induction s; simpl; congruence. Qed.

Lemma append_assoc (a b c : string) : (a ++ b) ++ c = a ++ b ++ c.
Proof. induction a as [|x a IH]; simpl; [reflexivity | now rewrite IH]. Qed.

Lemma str_eqb_eq (a b : string) : Str.eqb a b = true <-> a = b.
Proof.
  revert b. induction a as [|c a IH]; intros [|d b]; simpl;
    try (split; [discriminate | discriminate]); [now split|].
  rewrite andb_true_iff, N.eqb_eq, IH. split.
  - now intros [-> ->].
  - intros H. injection H as -> ->. now split.
Qed.

Lemma str_eqb_refl (a : string) : Str.eqb a a = true.
Proof. now apply str_eqb_eq. Qed.

Lemma str_eqb_neq (a b : string) : Str.eqb a b = false <-> a <> b.
Proof.
  rewrite <- str_eqb_eq. destruct (Str.eqb a b); split; congruence.
Qed.

Lemma str_dec (a b : string) : {a = b} + {a <> b}.
Proof. exact (list_eq_dec N.eq_dec a b). Defined.

Lemma all_chars_imp (q q' : char -> bool) s :
  (forall c, q c = true -> q' c = true) ->
  Text.all_chars q s = true -> Text.all_chars q' s = true.
Proof.
  intros Hq. induction s as [|c s IH]; simpl; [reflexivity|].
  intros H. apply andb_true_iff in H. destruct H as [Hc Hs].
  now rewrite (Hq _ Hc), IH.
Qed.

(** ** Lower case *)

Module UnicodeFacts.

Import Unicode.

Lemma assoc_in c t x : assoc c t = Some x -> In (c, x) t.
Proof.
  induction t as [|[k v] t IH]; simpl; [discriminate|].
  destruct (N.eqb_spec k c) as [->|_].
  - intros H. injection H as ->. now left.
  - intros H. right. now apply IH.
Qed.

Lemma assoc_none c t :
  assoc c t = None -> existsb (fun r => (fst r =? c)%N) t = false.
Proof.
  induction t as [|[k v] t IH]; simpl; [reflexivity|].
  destruct (N.eqb_spec k c) as [->|_]; [discriminate|]. exact IH.
Qed.

Lemma assoc_some c t :
  existsb (fun r => (fst r =? c)%N) t = false -> assoc c t = None.
Proof.
  induction t as [|[k v] t IH]; simpl; [reflexivity|].
  destruct (N.eqb_spec k c) as [->|_]; [discriminate|]. exact IH.
Qed.

(** No image of the table is itself changed by [str.lower]. *)
Lemma LOWER_images :
  forallb (fun r => negb (cambia (snd r))) LOWER = true.
Proof. vm_compute. reflexivity. Qed.

Lemma lower_char_minusculas c : minusculas (lower_char c) = true.
Proof.
  unfold lower_char. destruct (N.eqb_spec c 304) as [->|Hc].
  - vm_compute. reflexivity.
  - destruct (assoc c LOWER) as [l|] eqn:E.
    + apply assoc_in in E.
      pose proof (proj1 (forallb_forall _ _) LOWER_images _ E) as H.
      unfold minusculas. simpl in *. now rewrite H.
    + apply assoc_none in E. unfold minusculas. simpl. unfold cambia.
      apply N.eqb_neq in Hc. now rewrite Hc, E.
Qed.

Lemma no_cambia c :
  cambia c = false -> lower_char c = [c] /\ c <> 931%N.
Proof.
  unfold cambia. intros H. apply orb_false_iff in H. destruct H as [H1 H2].
  split.
  - unfold lower_char. rewrite H1. now rewrite (assoc_some _ _ H2).
  - intros ->. vm_compute in H2. discriminate.
Qed.

Lemma minusculas_app a b :
  minusculas (a ++ b) = minusculas a && minusculas b.
Proof.
  unfold minusculas. induction a as [|c a IH]; simpl; [reflexivity|].
  now rewrite IH, andb_assoc.
Qed.

(** The text [str.lower] gives is in lower case. *)
Lemma lower_from_minusculas s : forall antes,
  minusculas (lower_from antes s) = true.
Proof.
  induction s as [|c s IH]; intros antes; simpl; [reflexivity|].
  rewrite minusculas_app, IH, andb_true_r.
  destruct (c =? 931)%N; [|apply lower_char_minusculas].
  destruct (final_sigma antes s); vm_compute; reflexivity.
Qed.

(** [str.lower] leaves a text in lower case as it is. *)
Lemma lower_from_id s : forall antes,
  minusculas s = true -> lower_from antes s = s.
Proof.
  induction s as [|c s IH]; intros antes H; simpl; [reflexivity|].
  unfold minusculas in H. simpl in H. apply andb_true_iff in H.
  destruct H as [Hc Hs]. apply negb_true_iff in Hc.
  destruct (no_cambia _ Hc) as [-> Hn]. apply N.eqb_neq in Hn. rewrite Hn.
  simpl. now rewrite IH.
Qed.

Lemma lower_minusculas s : minusculas (Text.lower s) = true.
Proof. apply lower_from_minusculas. Qed.

Lemma lower_id s : minusculas s = true -> Text.lower s = s.
Proof. apply lower_from_id. Qed.

(** The head of a text in lower case stays at the head. *)
Lemma lower_cons c s :
  cambia c = false -> Text.lower (c :: s) = c :: lower_from [c] s.
Proof.
  intros H. destruct (no_cambia _ H) as [E Hn]. apply N.eqb_neq in Hn.
  unfold Text.lower. simpl. now rewrite Hn, E.
Qed.

(** The tables at work outside ASCII: capitals with an accent, the final
    sigma, the no-break space (U+00A0) as a separator, digits that are not
    [0] to [9], a date in Arabic-Indic digits. *)
Lemma fuera_de_ascii :
  Text.lower "AÑO" = "año" /\
  Text.lower "MUÉSTRAME" = "muéstrame" /\
  Text.lower "ΟΔΟΣ" = "οδος" /\
  Text.split ("a" ++ [160%N] ++ "b") = ["a"; "b"] /\
  Text.isdigit "²" = true /\
  Text.isdigit "٣٠" = true /\
  es_fecha "٢٠٢٥-٠٧-٢١" = true.
Proof. repeat split; vm_compute; reflexivity. Qed.

End UnicodeFacts.

(** ** Regular expressions: the matcher decides the language *)

Module RegexFacts.

Lemma lang_cat_inv r1 r2 s :
  lang (Cat r1 r2) s ->
  exists s1 s2, s = s1 ++ s2 /\ lang r1 s1 /\ lang r2 s2.
Proof.
  intros H. inversion H; subst. eexists _, _. repeat split; eassumption.
Qed.

Lemma append_nil_inv (s1 s2 : string) :
  s1 ++ s2 = [] -> s1 = [] /\ s2 = [].
Proof. destruct s1; simpl; [now split | discriminate]. Qed.

Lemma nullable_lang r : nullable r = true <-> lang r [].
Proof.
  induction r as [| |p|r1 IH1 r2 IH2|r1 IH1 r2 IH2|r IH]; simpl.
  - split; [discriminate | intros H; inversion H].
  - split; [constructor | reflexivity].
  - split; [discriminate | intros H; inversion H].
  - rewrite andb_true_iff, IH1, IH2. split.
    + intros [H1 H2]. exact (lang_cat H1 H2).
    + intros H. apply lang_cat_inv in H.
      destruct H as (s1 & s2 & E & H1 & H2). symmetry in E.
      apply append_nil_inv in E. destruct E; subst. now split.
  - rewrite orb_true_iff, IH1, IH2. split.
    + intros [H|H]; [now apply lang_alt_l | now apply lang_alt_r].
    + intros H. inversion H; subst; [now left | now right].
  - split; [constructor | reflexivity].
Qed.

(** A word of [Star r] that starts with [c] starts with a word of [r] that
    starts with [c]. *)
Lemma lang_star_head r c s :
  lang (Star r) (c :: s) ->
  exists s1 s2, s = s1 ++ s2 /\ lang r (c :: s1) /\ lang (Star r) s2.
Proof.
  intros H. remember (Star r) as r' eqn:Er. remember (c :: s) as w eqn:Ew.
  induction H as [| | | | | |r0 s1 s2 H1 _ H2 IH2]; try discriminate.
  injection Er as ->. destruct s1 as [|c1 s1].
  - simpl in Ew. now apply IH2.
  - simpl in Ew. injection Ew as -> <-. now exists s1, s2.
Qed.

Lemma deriv_lang r : forall c s, lang (deriv c r) s <-> lang r (c :: s).
Proof.
  induction r as [| |p|r1 IH1 r2 IH2|r1 IH1 r2 IH2|r IH]; intros c s; simpl.
  - split; intros H; inversion H.
  - split; intros H; inversion H.
  - destruct (p c) eqn:E; split; intros H; inversion H; subst.
    + now constructor.
    + constructor.
    + congruence.
  - assert (cat : lang (Cat (deriv c r1) r2) s <->
                  exists s1 s2, s = s1 ++ s2 /\ lang r1 (c :: s1)
                                /\ lang r2 s2).
    { split.
      - intros H. apply lang_cat_inv in H.
        destruct H as (s1 & s2 & -> & H1 & H2).
        exists s1, s2. rewrite <- IH1. now repeat split.
      - intros (s1 & s2 & -> & H1 & H2). apply lang_cat; [|exact H2].
        now apply IH1. }
    assert (whole : lang (Cat r1 r2) (c :: s) <->
                    (exists s1 s2, s = s1 ++ s2 /\ lang r1 (c :: s1)
                                   /\ lang r2 s2)
                    \/ (lang r1 [] /\ lang r2 (c :: s))).
    { split.
      - intros H. apply lang_cat_inv in H.
        destruct H as (s1 & s2 & E & H1 & H2).
        destruct s1 as [|c1 s1]; simpl in E.
        + right. subst s2. now split.
        + injection E as -> ->. left. now exists s1, s2.
      - intros [(s1 & s2 & -> & H1 & H2) | [H1 H2]].
        + exact (lang_cat H1 H2).
        + exact (lang_cat H1 H2). }
    rewrite whole. destruct (nullable r1) eqn:N.
    + split.
      * intros H. inversion H; subst.
        -- left. now apply cat.
        -- right. split; [now apply nullable_lang | now apply IH2].
      * intros [H | [_ H]].
        -- apply lang_alt_l. now apply cat.
        -- apply lang_alt_r. now apply IH2.
    + rewrite cat. split; [now left|].
      intros [H | [H _]]; [exact H|].
      apply nullable_lang in H. congruence.
  - split; intros H; inversion H; subst.
    + apply lang_alt_l. now apply IH1.
    + apply lang_alt_r. now apply IH2.
    + apply lang_alt_l. now apply IH1.
    + apply lang_alt_r. now apply IH2.
  - split.
    + intros H. apply lang_cat_inv in H.
      destruct H as (s1 & s2 & -> & H1 & H2).
      apply IH in H1. exact (lang_star_cons H1 H2).
    + intros H. apply lang_star_head in H.
      destruct H as (s1 & s2 & -> & H1 & H2).
      apply lang_cat; [now apply IH | exact H2].
Qed.

(** [matches] decides membership in the language of the pattern. *)
Lemma matches_lang s : forall r, matches r s = true <-> lang r s.
Proof.
  induction s as [|c s IH]; intros r; simpl.
  - apply nullable_lang.
  - rewrite IH. apply deriv_lang.
Qed.

Lemma dead_no_word r : dead r = true -> forall s, ~ lang r s.
Proof.
  induction r as [| |p|r1 IH1 r2 IH2|r1 IH1 r2 IH2|r IH]; simpl;
    try discriminate; intros D s H.
  - inversion H.
  - inversion H; subst. apply orb_true_iff in D. destruct D as [D|D].
    + eapply IH1; eauto.
    + eapply IH2; eauto.
  - apply andb_true_iff in D. destruct D as [D1 D2].
    inversion H; subst; [eapply IH1 | eapply IH2]; eauto.
Qed.

Lemma dead_matches r s : dead r = true -> matches r s = false.
Proof.
  intros D. destruct (matches r s) eqn:E; [|reflexivity].
  apply matches_lang in E. now apply dead_no_word in E.
Qed.

End RegexFacts.

(** ** The parser: the cursor, the bounds and termination *)

Lemma unir_fecha_desde_saltos resto : forall partes n,
  (0 <= n)%Z ->
  forall fecha saltos,
    unir_fecha_desde resto partes n = (fecha, saltos) ->
    truthy fecha = true -> (n < saltos)%Z.
Proof.
  induction resto as [|t resto IH]; intros partes n Hn fecha saltos; simpl.
  - intros [= <- <-]. discriminate.
  - destruct (es_fecha (Text.join " " (partes ++ [snd t]))).
    + intros [= <- <-] _. lia.
    + intros H Ht. specialize (IH _ (n + 1)%Z ltac:(lia) _ _ H Ht). lia.
Qed.

Ltac bool_facts :=
  repeat match goal with
  | H : (_ && _) = true |- _ => apply andb_prop in H; destruct H
  | H : (_ <? _)%Z = true |- _ => apply Z.ltb_lt in H
  | H : (_ <? _)%Z = false |- _ => apply Z.ltb_ge in H
  | H : (_ >? _)%Z = true |- _ => apply Z.gtb_lt in H
  | H : (_ >=? _)%Z = true |- _ => apply Z.geb_le in H
  end.

Section ParserFacts.

Variable tokens : list Token.

Local Abbreviation len_t := (len tokens).
Local Abbreviation tok_t := (tok tokens).

Lemma tok_ok k : (0 <= k < len_t)%Z -> exists t, tok_t k = Ok t.
Proof.
  intros Hk. unfold tok.
  destruct (Z.leb_spec 0 k); [|lia].
  destruct (Z.ltb_spec k len_t); [|lia]. simpl.
  destruct (nth_error tokens (Z.to_nat k)) as [t|] eqn:E.
  - now exists t.
  - apply nth_error_None in E. unfold len in *. lia.
Qed.

(** One step of a run: a token access whose index is in range is read, a
    test is split in two cases. *)
Ltac step t :=
  lazymatch t with
  | bind (Ok _) _ => cbn [bind fst snd]
  | bind ?m _ => step m
  | tok _ ?k =>
      let x := fresh "t" in
      let H := fresh "Ht" in
      destruct (@tok_ok k) as [x H]; [lia | rewrite H; cbn [bind fst snd]]
  | (if ?b then _ else _) =>
      let E := fresh "E" in
      destruct b eqn:E; bool_facts; cbn [bind fst snd]
  end.

Ltac run :=
  unfold tipo_en, valor_en, and_then; cbn [bind fst snd];
  repeat lazymatch goal with
         | |- termina ?t _ => step t
         end.

Lemma termina_weaken (A : Type) (r : Res A) (P Q : A -> Prop) :
  (forall a, P a -> Q a) -> termina r P -> termina r Q.
Proof. destruct r; simpl; auto. Qed.

Lemma termina_ok (A : Type) (r : Res A) (P : A -> Prop) :
  termina r P -> exists a, r = Ok a /\ P a.
Proof. destruct r as [a| | | |]; simpl; try contradiction. now exists a. Qed.

(** The scan of the connector rule reads inside the list and ends at or
    after the position it starts from. *)
Lemma explorar_ok fuel : forall j e,
  (0 <= j)%Z -> (len_t - j <= Z.of_nat fuel)%Z ->
  termina (explorar tokens fuel j e) (fun r => (j <= fst r)%Z).
Proof.
  induction fuel as [|fuel IH]; intros j e Hj Hfuel.
  - simpl. destruct (Z.ltb_spec j (len_t - 2)); [lia|]. simpl. lia.
  - cbn [explorar]. destruct (Z.ltb_spec j (len_t - 2)) as [Hlt|Hge].
    + run;
        match goal with
        | |- termina (explorar tokens fuel ?k ?x) _ =>
            apply termina_weaken with (P := fun r => (k <= fst r)%Z);
            [intros; lia | apply IH; lia]
        end.
    + simpl. lia.
Qed.

(** The [if / elif] chain reads inside the list; it leaves the cursor where
    it is or moves it forward, and the connector rule moves it forward. *)
Lemma reglas_ok i tipo valor e :
  (0 <= i < len_t)%Z ->
  termina (reglas tokens i tipo valor e) (flujo_avanza i).
Proof.
  intros Hi. unfold reglas. run; try (simpl; lia).
  assert (Hexp : termina (explorar tokens (List.length tokens) (i + 1) e)
                    (fun r => (i + 1 <= fst r)%Z))
    by (apply explorar_ok; unfold len; lia).
  apply termina_ok in Hexp. destruct Hexp as ([j e'] & -> & Hj).
  simpl in *. lia.
Qed.

(** Every pass through the body of the main loop reads inside the list and
    ends with the cursor strictly after where it started. *)
Lemma paso_ok i e :
  (0 <= i < len_t)%Z ->
  termina (paso tokens i e) (fun r => (i < fst r)%Z).
Proof.
  intros Hi. unfold paso. run; try (simpl; lia); cbv zeta.
  all: try match goal with
       | |- context [Str.eqb ?a ?b] => destruct (Str.eqb a b)
       end.
  all: try match goal with
       | |- context [unir_fecha tokens ?k] =>
           destruct (unir_fecha tokens k) as [fecha saltos] eqn:Eu;
           destruct (truthy fecha) eqn:Et;
           [ unfold unir_fecha in Eu;
             apply unir_fecha_desde_saltos in Eu; [|lia|exact Et];
             simpl; lia | ]
       end.
  all: destruct (@termina_ok _ _ _ (@reglas_ok i (fst t) (snd t) e Hi))
         as ([j e'|j e'] & -> & Hj); simpl in *; lia.
Qed.

Lemma bucle_ok fuel : forall i e,
  (0 <= i)%Z -> (len_t - i <= Z.of_nat fuel)%Z ->
  exists e', bucle tokens fuel i e = Ok e'.
Proof.
  induction fuel as [|fuel IH]; intros i e Hi Hfuel; cbn [bucle].
  - destruct (Z.ltb_spec i len_t); [lia|]. now exists e.
  - destruct (Z.ltb_spec i len_t) as [Hlt|Hge]; [|now exists e].
    destruct (@termina_ok _ _ _ (@paso_ok i e (conj Hi Hlt)))
      as ([j e'] & -> & Hj).
    simpl in *. apply IH; lia.
Qed.

(** *** The entity the parser records *)

Lemma tok_in k t : tok_t k = Ok t -> In t tokens.
Proof.
  unfold tok.
  destruct ((0 <=? k) && (k <? len_t))%Z; [|discriminate].
  destruct (nth_error tokens (Z.to_nat k)) as [t'|] eqn:E; [|discriminate].
  intros [= <-]. exact (nth_error_In _ _ E).
Qed.

Ltac step_c t :=
  lazymatch t with
  | bind (Ok _) _ => cbn [bind fst snd]
  | bind ?m _ => step_c m
  | tok _ ?k =>
      let x := fresh "t" in
      let H := fresh "Ht" in
      destruct (tok tokens k) as [x| | | |] eqn:H;
      cbn [bind fst snd cumple]; [apply tok_in in H | exact I ..]
  | (if ?b then _ else _) =>
      let E := fresh "E" in
      destruct b eqn:E; cbn [bind fst snd]
  end.

Ltac run_c :=
  unfold tipo_en, valor_en, and_then; cbn [bind fst snd];
  repeat lazymatch goal with
         | |- cumple ?t _ => step_c t
         end.

(** The scan of the connector rule leaves the entity as it is. *)
Lemma explorar_entidad fuel : forall j e,
  cumple (explorar tokens fuel j e) (fun r => entidad (snd r) = entidad e).
Proof.
  induction fuel as [|fuel IH]; intros j e; cbn [explorar].
  - destruct (j <? len_t - 2)%Z; simpl; [exact I | reflexivity].
  - destruct (j <? len_t - 2)%Z; [|reflexivity].
    run_c;
      match goal with
      | |- cumple (explorar tokens fuel ?k ?x) _ => exact (IH k x)
      end.
Qed.

Hypothesis tokens_ok : literales_no_vacios tokens.

Lemma literal_no_vacio t : In t tokens -> Some (snd t) <> Some "".
Proof.
  intros Hin Heq. injection Heq as Heq.
  unfold literales_no_vacios in tokens_ok. rewrite Forall_forall in tokens_ok.
  exact (tokens_ok _ Hin Heq).
Qed.

Lemma reglas_entidad i tipo valor e :
  valor <> "" -> entidad_no_vacia e ->
  cumple (reglas tokens i tipo valor e)
    (fun f => entidad_no_vacia (flujo_estructura f)).
Proof.
  unfold entidad_no_vacia. intros Hv He. unfold reglas.
  run_c; try (simpl; first [exact He | now apply literal_no_vacio
                           | congruence]).
  pose proof (explorar_entidad (List.length tokens) (i + 1) e) as Hexp.
  destruct (explorar tokens (List.length tokens) (i + 1) e)
    as [[j e']| | | |]; simpl in *; try exact I.
  now rewrite Hexp.
Qed.

Lemma paso_entidad i e :
  entidad_no_vacia e ->
  cumple (paso tokens i e) (fun r => entidad_no_vacia (snd r)).
Proof.
  intros He. unfold paso. run_c; try exact He; cbv zeta.
  all: try match goal with
       | |- context [Str.eqb ?a ?b] => destruct (Str.eqb a b)
       end.
  all: try match goal with
       | |- context [unir_fecha tokens ?k] =>
           destruct (unir_fecha tokens k) as [fecha saltos];
           destruct (truthy fecha); [exact He|]
       end.
  all: assert (Hv : snd t <> "")
         by (intros Hv; now apply (@literal_no_vacio t); [|rewrite Hv]);
       pose proof (@reglas_entidad i (fst t) (snd t) e Hv He) as Hreg;
       destruct (reglas tokens i (fst t) (snd t) e) as [[j e'|j e']| | | |];
       simpl in *; first [exact I | exact Hreg].
Qed.

Lemma bucle_entidad fuel : forall i e,
  entidad_no_vacia e ->
  cumple (bucle tokens fuel i e) entidad_no_vacia.
Proof.
  induction fuel as [|fuel IH]; intros i e He; cbn [bucle].
  - destruct (i <? len_t)%Z; simpl; [exact I | exact He].
  - destruct (i <? len_t)%Z; [|exact He].
    pose proof (@paso_entidad i e He) as Hpaso.
    destruct (paso tokens i e) as [[j e']| | | |]; simpl in *; try exact I.
    now apply IH.
Qed.

End ParserFacts.

(** C7. For every token list: each pass through the body of the main loop
    that starts inside the list reads no token outside the list and ends
    with the cursor strictly after where it started; the scan of the
    connector rule, which hands its end position to the cursor, ends after
    the connector; and the parser returns a structure. *)
Theorem analisis_sintactico_ok (tokens : list Token) :
  (forall i e, (0 <= i < len tokens)%Z ->
     exists i' e', paso tokens i e = Ok (i', e') /\ (i < i')%Z) /\
  (forall i e, (0 <= i < len tokens)%Z ->
     exists j e', explorar tokens (List.length tokens) (i + 1) e = Ok (j, e')
                  /\ (i < j)%Z) /\
  exists e, analisis_sintactico tokens = Ok e.
Proof.
  split; [|split].
  - intros i e Hi.
    destruct (@termina_ok _ _ _ (@paso_ok tokens i e Hi)) as ([i' e'] & -> & H).
    now exists i', e'.
  - intros i e Hi.
    assert (H : termina (explorar tokens (List.length tokens) (i + 1) e)
                  (fun r => (i + 1 <= fst r)%Z))
      by (apply explorar_ok; unfold len; lia).
    apply termina_ok in H. destruct H as ([j e'] & -> & H).
    exists j, e'. split; [reflexivity | simpl in H; lia].
  - apply bucle_ok; unfold len; lia.
Qed.

Lemma snd_clasificar palabra : snd (clasificar palabra) = palabra.
Proof.
  unfold clasificar.
  repeat match goal with
         | |- context [if ?b then _ else _] => destruct b
         end; reflexivity.
Qed.

(** The lexer gives no token with an empty literal. *)
Lemma analisis_lexico_no_vacios texto :
  literales_no_vacios (analisis_lexico texto).
Proof.
  unfold literales_no_vacios, analisis_lexico. cbv zeta.
  rewrite Forall_forall. intros t Hin.
  apply in_map_iff in Hin. destruct Hin as (p & <- & Hin).
  apply in_map_iff in Hin. destruct Hin as (q & <- & Hin).
  apply filter_In in Hin. destruct Hin as [_ Hq].
  rewrite snd_clasificar. intros Heq. rewrite Heq in Hq. discriminate.
Qed.

(** The entity the pipeline hands to the SQL generator is never the empty
    text: for the structures the parser builds, unset is [None]. *)
Lemma analisis_entidad_no_vacia texto e :
  analisis_sintactico (analisis_lexico texto) = Ok e ->
  entidad e <> Some "".
Proof.
  intros H.
  pose proof (@bucle_entidad (analisis_lexico texto)
                (analisis_lexico_no_vacios texto)
                (List.length (analisis_lexico texto)) 0%Z
                estructura_inicial) as Hb.
  unfold analisis_sintactico in H. rewrite H in Hb.
  apply Hb. discriminate.
Qed.

Lemma analisis_sintactico_ok_witness :
  exists i' e',
    paso [(PALABRA, "clientes"); (CONECTOR, "donde"); (PALABRA, "edad");
          (PALABRA, "menor"); (PALABRA, "a"); (PALABRA, "30")]
      1 estructura_inicial = Ok (i', e') /\ (1 < i')%Z.
Proof.
  apply (proj1 (analisis_sintactico_ok _) 1%Z estructura_inicial).
  unfold len. simpl. lia.
Defined.

(** ** The date recogniser *)

Lemma es_fecha_lang texto :
  es_fecha texto = true <->
  exists formato, In formato FORMATOS_FECHA /\ lang formato (Text.lower texto).
Proof.
  unfold es_fecha. rewrite existsb_exists. split.
  - intros (f & Hin & H). exists f. split; [exact Hin|].
    now apply RegexFacts.matches_lang.
  - intros (f & Hin & H). exists f. split; [exact Hin|].
    now apply RegexFacts.matches_lang.
Qed.

(** No date starts with a character in lower case that is not a decimal
    digit. *)
Lemma es_fecha_head c s :
  cambia c = false -> Unicode.is_decimal c = false ->
  es_fecha (c :: s) = false.
Proof.
  intros Hc H. unfold es_fecha, FORMATOS_FECHA.
  rewrite UnicodeFacts.lower_cons by exact Hc. cbn [existsb].
  unfold fullmatch. cbn [matches].
  rewrite !RegexFacts.dead_matches; [reflexivity | | | |];
    cbn; rewrite H; reflexivity.
Qed.

(** C4. [es_fecha] accepts a text exactly when the whole of it, in lower
    case, is a word of one of the four patterns; it accepts "2025-07-21",
    "21/07/2025", "21-07-2025" and "21 de julio de 2025" and rejects
    "2025/07/21". *)
Theorem es_fecha_four_shapes :
  (forall texto,
     es_fecha texto = true <->
     exists formato,
       In formato FORMATOS_FECHA /\ lang formato (Text.lower texto)) /\
  es_fecha "2025-07-21" = true /\
  es_fecha "21/07/2025" = true /\
  es_fecha "21-07-2025" = true /\
  es_fecha "21 de julio de 2025" = true /\
  es_fecha "2025/07/21" = false.
Proof.
  split; [exact es_fecha_lang|].
  repeat split; vm_compute; reflexivity.
Qed.

(** The window of the rule for a date after "en": a join that starts with
    the literal "en" is never a date, whatever follows. *)
Lemma unir_fecha_desde_en resto : forall partes n s,
  unir_fecha_desde resto (("en" ++ s) :: partes) n = (None, 0%Z).
Proof.
  induction resto as [|t resto IH]; intros partes n s; simpl.
  - reflexivity.
  - unfold Text.join. simpl.
    match goal with
    | |- context [match ?l with [] => _ | _ :: _ => _ end] => destruct l
    end;
      (rewrite es_fecha_head by (vm_compute; reflexivity)); apply (IH _ _ s).
Qed.

Lemma unir_fecha_en tokens inicio t :
  nth_error tokens (Z.to_nat inicio) = Some t -> snd t = "en" ->
  unir_fecha tokens inicio = (None, 0%Z).
Proof.
  intros Hnth Hen. unfold unir_fecha.
  destruct (nth_error_split _ _ Hnth) as (l1 & l2 & -> & Hlen).
  rewrite <- Hlen, skipn_app, skipn_all, Nat.sub_diag. simpl.
  rewrite Hen. simpl.
  apply (unir_fecha_desde_en l2 [] 1%Z []).
Qed.

(** ** The pipeline on the questions of the claims *)

(** C1. On "muéstrame los clientes donde la edad es mayor a 30" the
    pipeline gives the entity "clientes" but no condition, and the SQL
    "SELECT * FROM clientes": "mayor a" is not a phrase of the operator
    mapping (its sibling "menor a" is), so no window of the connector scan
    normalises to an operator. *)
Theorem edad_mayor_a_30 (fecha_iso : string -> option string) :
  compilador_nl2sql_texto fecha_iso
    "muéstrame los clientes donde la edad es mayor a 30"
  = Ok ("SELECT * FROM clientes",
        mkEstructura (Some "muéstrame") (Some "clientes") [] None)
  /\ _reemplazar_operadores_compuestos "mayor a" = "mayor a"
  /\ _reemplazar_operadores_compuestos "menor a" = "<".
Proof. repeat split; vm_compute; reflexivity. Qed.

(** With "menor a", which the mapping has, the window that normalises is
    (es, menor, a): the condition is on "es". *)
Lemma edad_menor_a_30 (fecha_iso : string -> option string) :
  compilador_nl2sql_texto fecha_iso
    "muéstrame los clientes donde la edad es menor a 30"
  = Ok ("SELECT * FROM clientes WHERE es < 30",
        mkEstructura (Some "muéstrame") (Some "clientes")
          [mkCondicion "es" "<" "30"] None).
Proof. vm_compute. reflexivity. Qed.

(** C2. On the tokens of "muéstrame las ventas en 21 de julio de 2025" the
    parser adds no "fecha" condition: the cursor is never on a "de" that
    follows "en", the window that starts at "en" is not a date however far
    it is extended, and the two "de" give "dept" conditions. The window
    that starts at "21" would be the date. *)
Theorem fecha_tras_en :
  let tokens :=
    analisis_lexico "muéstrame las ventas en 21 de julio de 2025" in
  tokens = [(ACCION, "muéstrame"); (CUANTIFICADOR, "las");
            (PALABRA, "ventas"); (PALABRA, "en"); (PALABRA, "21");
            (PALABRA, "de"); (PALABRA, "julio"); (PALABRA, "de");
            (PALABRA, "2025")]
  /\ analisis_sintactico tokens
     = Ok (mkEstructura (Some "muéstrame") (Some "ventas")
             [mkCondicion "dept" "=" "julio"; mkCondicion "dept" "=" "2025"]
             None)
  /\ unir_fecha tokens 3 = (None, 0%Z)
  /\ unir_fecha tokens 4 = (Some "21 de julio de 2025", 5%Z).
Proof. repeat split; vm_compute; reflexivity. Qed.

(** When "de" does follow "en", the pass is the one of the [if / elif]
    chain: the window starts at "en" and finds no date. *)
Lemma paso_de_tras_en tokens i e tipo t :
  (1 < i)%Z ->
  tok tokens i = Ok (tipo, "de") ->
  tok tokens (i - 1) = Ok (t, "en") ->
  paso tokens i e =
  bind (reglas tokens i tipo "de" e)
    (fun r => match r with
              | Sigue i e => Ok ((i + 1)%Z, e)
              | Continua i e => Ok (i, e)
              end).
Proof.
  intros Hi Hde Hen. unfold paso, valor_en, and_then.
  rewrite Hde. cbn [bind fst snd].
  change (es_fecha "de") with false. cbv iota.
  change (Str.eqb "de" "de") with true.
  destruct (Z.gtb_spec i 1) as [_|]; [|lia]. cbn [andb].
  rewrite Hen. cbn [bind fst snd].
  change (Str.eqb "en" "en") with true. cbv iota zeta.
  rewrite (@unir_fecha_en tokens (i - 1) (t, "en"));
    [reflexivity| |reflexivity].
  unfold tok in Hen.
  destruct ((0 <=? i - 1) && (i - 1 <? len tokens))%Z; [|discriminate].
  destruct (nth_error tokens (Z.to_nat (i - 1))) as [t0|] eqn:E;
    [|discriminate].
  simpl in Hen. injection Hen as ->. exact E.
Qed.

(** C3. Each phrase of the mapping normalises to its symbol; "mayor o
    igual que" gives ">=" and not ">". *)
Theorem operadores_compuestos :
  _reemplazar_operadores_compuestos "mayor o igual que" = ">=" /\
  _reemplazar_operadores_compuestos "menor o igual que" = "<=" /\
  _reemplazar_operadores_compuestos "mayor que" = ">" /\
  _reemplazar_operadores_compuestos "menor que" = "<" /\
  _reemplazar_operadores_compuestos "menor a" = "<" /\
  _reemplazar_operadores_compuestos "igual a" = "=" /\
  _reemplazar_operadores_compuestos "igual" = "=" /\
  _reemplazar_operadores_compuestos "no es" = "!=" /\
  _reemplazar_operadores_compuestos "diferente de" = "!=" /\
  _reemplazar_operadores_compuestos "mayor o igual que" <> ">".
Proof.
  repeat split; try (vm_compute; reflexivity). vm_compute. discriminate.
Qed.

(** ** The SQL generator *)

Section SQLFacts.

Variable fecha_iso : string -> option string.

Local Abbreviation generar := (generar_sql fecha_iso).
Local Abbreviation cond_sql := (condicion_sql fecha_iso).

(** C5. For every structured query: when the entity is unset ([None], or
    the empty text, which the test [not estructura["entidad"]] reads as
    unset too) the result is the sentinel; when the entity is set the
    result is a SELECT statement on that entity and is not the sentinel.
    The function is total: it never raises. *)
Theorem generar_sql_entidad (e : Estructura) :
  (entidad e = None \/ entidad e = Some "" -> generar e = SIN_ENTIDAD) /\
  (forall ent, entidad e = Some ent -> ent <> "" ->
     (exists campos resto,
        generar e = "SELECT " ++ campos ++ " FROM " ++ ent ++ resto) /\
     generar e <> SIN_ENTIDAD).
Proof.
  unfold generar_sql. split.
  - intros [-> | ->]; reflexivity.
  - intros ent -> Hne.
    destruct ent as [|c ent]; [congruence|]. cbn [Text.is_empty].
    set (conds := map cond_sql (condiciones e)).
    assert (sel : exists campos,
      match atributos_mostrar e with
      | Some (a :: l) =>
          "SELECT " ++ Text.join ", " (a :: l) ++ " FROM " ++ c :: ent
      | _ => "SELECT * FROM " ++ c :: ent
      end = "SELECT " ++ campos ++ " FROM " ++ c :: ent).
    { destruct (atributos_mostrar e) as [[|a l]|].
      - now exists "*".
      - now exists (Text.join ", " (a :: l)).
      - now exists "*". }
    destruct sel as [campos ->]. split.
    + exists campos. destruct conds as [|x conds].
      * exists "". now rewrite append_nil_r.
      * exists (" WHERE " ++ Text.join " AND " (x :: conds)).
        now rewrite !append_assoc.
    + destruct conds; discriminate.
Qed.


Local Abbreviation sin_punto := (Text.replace "." "" (Some 1%nat)).


(** The test of the source, for any class of digits that leaves the dot
    out. *)
Section Digitos.

Variable digito : char -> bool.
Hypothesis punto_no_digito : digito "."%char = false.

Local Abbreviation digito_o_punto :=
  (fun c => digito c || N.eqb c "."%char).
Local Abbreviation no_digito := (fun c => negb (digito c)).





End Digitos.





End SQLFacts.

Lemma generar_sql_entidad_witness :
  generar_sql (fun _ => None) (mkEstructura None None [] None) = SIN_ENTIDAD
  /\ generar_sql (fun _ => None)
       (mkEstructura None (Some "ventas") [] None) <> SIN_ENTIDAD.
Proof.
  split.
  - apply (proj1 (@generar_sql_entidad (fun _ => None)
                    (mkEstructura None None [] None))).
    left. reflexivity.
  - apply (proj2 (@generar_sql_entidad (fun _ => None)
                    (mkEstructura None (Some "ventas") [] None))
             "ventas" eq_refl).
    discriminate.
Defined.



(** ** The corrector *)

Section CorrectorFacts.

Variable fecha_iso : string -> option string.
Variable get_close_matches : string -> list string -> list string.
Variable plantilla : string -> Res (string -> string).
Variable d : Diccionario.

Lemma revisiones_mostrar_nil attrs : forall i,
  Forall (fun a => en_diccionario d a = true) attrs ->
  revisiones_mostrar d i attrs = [].
Proof.
  induction attrs as [|a attrs IH]; intros i H; simpl; [reflexivity|].
  inversion H as [|? ? Ha Hattrs]; subst. rewrite Ha. simpl. now apply IH.
Qed.

Lemma revisiones_condiciones_nil conds : forall i,
  Forall (fun c => en_diccionario d (atributo c) = true) conds ->
  revisiones_condiciones d i conds = [].
Proof.
  induction conds as [|c conds IH]; intros i H; simpl; [reflexivity|].
  inversion H as [|? ? Hc Hconds]; subst. rewrite Hc, andb_false_r.
  simpl. now apply IH.
Qed.

(** C10. When the entity, every attribute to show and the attribute of
    every condition are found in the Trie, the corrector records no
    revision and returns the SQL text it was given, with the structured
    query as it was, whatever is typed at the prompt. *)
Theorem revisar_sin_revisiones (sql_query : string) (e : Estructura)
    (original_text : string) (entradas : list (option Z)) (ent : string) :
  entidad e = Some ent ->
  en_diccionario d ent = true ->
  Forall (fun a => en_diccionario d a = true)
    (match atributos_mostrar e with Some l => l | None => [] end) ->
  Forall (fun c => en_diccionario d (atributo c) = true) (condiciones e) ->
  revisiones d e = [] /\
  revisar_y_sugerir_traduccion fecha_iso get_close_matches plantilla
    sql_query e d original_text entradas = Ok (sql_query, e).
Proof.
  intros Hent Hd Hattrs Hconds.
  assert (Hrev : revisiones d e = []).
  { unfold revisiones, revisiones_entidad.
    rewrite Hent, Hd, andb_false_r.
    now rewrite revisiones_mostrar_nil, revisiones_condiciones_nil. }
  split; [exact Hrev|].
  unfold revisar_y_sugerir_traduccion. cbv zeta. now rewrite Hrev.
Qed.

End CorrectorFacts.

Lemma revisar_sin_revisiones_witness :
  revisiones
    (insert_all N.eq_dec new_trie
       ["ventas"; "nombre"; "edad"])
    (mkEstructura (Some "dame") (Some "ventas")
       [mkCondicion "edad" ">" "30"] (Some ["nombre"])) = [] /\
  revisar_y_sugerir_traduccion (fun _ => None) (fun _ l => l)
    (fun _ => ReError) "SELECT nombre FROM ventas WHERE edad > 30"
    (mkEstructura (Some "dame") (Some "ventas")
       [mkCondicion "edad" ">" "30"] (Some ["nombre"]))
    (insert_all N.eq_dec new_trie
       ["ventas"; "nombre"; "edad"])
    "dame el nombre de ventas con edad mayor que 30" []
  = Ok ("SELECT nombre FROM ventas WHERE edad > 30",
        mkEstructura (Some "dame") (Some "ventas")
          [mkCondicion "edad" ">" "30"] (Some ["nombre"])).
Proof.
  apply (@revisar_sin_revisiones (fun _ => None) (fun _ l => l)
           (fun _ => ReError) _ _ _ _ _ "ventas").
  - reflexivity.
  - vm_compute. reflexivity.
  - repeat constructor.
  - repeat constructor.
Defined.

(** * Further properties of the code *)

(** ** The Trie: exact match, prefixes, repeated inserts *)

Section TrieMore.

Local Open Scope list_scope.

Variable char : Type.
Variable char_eq_dec : forall a b : char, {a = b} + {a <> b}.

Local Abbreviation node := (TrieNode char).
Local Abbreviation lookupc := (lookup char_eq_dec).
Local Abbreviation updatec := (update char_eq_dec).
Local Abbreviation insertn := (insert_node char_eq_dec).
Local Abbreviation searchn := (search_node char_eq_dec).
Local Abbreviation startsn := (starts_with_node char_eq_dec).
Local Abbreviation insertar := (insert char_eq_dec).
Local Abbreviation insertar_todas := (insert_all char_eq_dec).

(** X1. A Trie built from a new one finds exactly the words that were
    inserted: a prefix of an inserted word, or a longer word, is found only
    when it was inserted itself. *)
Theorem search_exactly_inserted (ws : list (list char)) (w : list char) :
  search char_eq_dec (insertar_todas new_trie ws) w = true <-> In w ws.
Proof.
  rewrite search_insert_all. unfold search. simpl.
  rewrite search_new_node. split; [intros [H|H] | intros H].
  - discriminate.
  - exact H.
  - now right.
Qed.

Lemma starts_with_new_node p :
  startsn p new_node = true <-> p = [].
Proof.
  destruct p as [|c p]; simpl; split; try reflexivity; discriminate.
Qed.

Lemma starts_with_insert_node w : forall p (n : node),
  startsn p (insertn w n) = true <->
  startsn p n = true \/ exists s, w = p ++ s.
Proof.
  induction w as [|c w IH]; intros p n.
  - destruct p as [|c' p]; simpl.
    + split; [now left | reflexivity].
    + split; [now left|]. intros [H | [s Hs]]; [exact H | discriminate].
  - destruct p as [|c' p].
    + simpl. split; [now left | reflexivity].
    + cbn [starts_with_node insert_node children].
      destruct (char_eq_dec c' c) as [->|ne].
      * rewrite lookup_update_same. rewrite IH. unfold child_or_new.
        destruct (lookupc c (children n)) as [t|].
        -- split; (intros [H | [s Hs]]; [now left | right; exists s]).
           ++ simpl. now rewrite Hs.
           ++ simpl in Hs. now injection Hs.
        -- rewrite starts_with_new_node. split.
           ++ intros [-> | [s Hs]]; right; [now exists w|].
              exists s. simpl. now rewrite Hs.
           ++ intros [H | [s Hs]]; [discriminate|].
              right. exists s. simpl in Hs. now injection Hs.
      * rewrite lookup_update_other by exact ne.
        split; [now left|]. intros [H | [s Hs]]; [exact H|].
        simpl in Hs. injection Hs as Hc _. congruence.
Qed.

Lemma starts_with_insert_all ws : forall (t : Trie char) p,
  starts_with char_eq_dec (insertar_todas t ws) p = true <->
  starts_with char_eq_dec t p = true \/
  exists w s, In w ws /\ w = p ++ s.
Proof.
  induction ws as [|w ws IH]; intros t p; simpl.
  - split; [now left|]. intros [H | (w & s & [] & _)]. exact H.
  - rewrite IH. unfold starts_with at 1 2. unfold insert. simpl.
    rewrite starts_with_insert_node. split.
    + intros [[H | [s Hs]] | (w' & s & Hin & Hs)].
      * now left.
      * right. exists w, s. split; [now left | exact Hs].
      * right. exists w', s. split; [now right | exact Hs].
    + intros [H | (w' & s & [<- | Hin] & Hs)].
      * left. now left.
      * left. right. now exists s.
      * right. now exists w', s.
Qed.

(** X2. On a Trie built from a new one, [starts_with] holds for the empty
    prefix (also when nothing was inserted) and otherwise exactly for the
    prefixes of the inserted words. *)
Theorem starts_with_inserted_prefixes (ws : list (list char))
    (p : list char) :
  starts_with char_eq_dec (insertar_todas new_trie ws) p = true <->
  p = [] \/ exists w s, In w ws /\ w = p ++ s.
Proof.
  rewrite starts_with_insert_all. unfold starts_with at 1. simpl.
  now rewrite starts_with_new_node.
Qed.

(** X3. In every Trie, a word that [search] finds has all its prefixes
    accepted by [starts_with]. *)
Theorem search_starts_with (t : Trie char) (p s : list char) :
  search char_eq_dec t (p ++ s) = true ->
  starts_with char_eq_dec t p = true.
Proof.
  unfold search, starts_with. generalize (root t). clear t.
  induction p as [|c p IH]; intros n H; simpl in *.
  - reflexivity.
  - destruct (lookupc c (children n)) as [child|]; [|discriminate].
    now apply IH.
Qed.

Lemma update_twice c f g (ch : list (char * node)) :
  updatec c g (updatec c f ch) = updatec c (fun t => g (f t)) ch.
Proof.
  induction ch as [|[k t] ch IH]; simpl.
  - destruct (char_eq_dec c c); [reflexivity | contradiction].
  - destruct (char_eq_dec k c) as [->|ne]; simpl.
    + destruct (char_eq_dec c c); [reflexivity | contradiction].
    + destruct (char_eq_dec k c); [contradiction|]. now rewrite IH.
Qed.

Lemma update_ext c f g (ch : list (char * node)) :
  (forall t, f t = g t) -> updatec c f ch = updatec c g ch.
Proof.
  intros H. induction ch as [|[k t] ch IH]; simpl.
  - now rewrite H.
  - destruct (char_eq_dec k c); [now rewrite H | now rewrite IH].
Qed.

Lemma insert_node_twice w : forall n : node,
  insertn w (insertn w n) = insertn w n.
Proof.
  induction w as [|c w IH]; intros [e ch]; simpl.
  - reflexivity.
  - f_equal. rewrite update_twice. apply update_ext. exact IH.
Qed.

(** X4. [insert] is idempotent: inserting a word a second time leaves the
    Trie as it is. *)
Theorem insert_twice (t : Trie char) (w : list char) :
  insertar (insertar t w) w = insertar t w.
Proof. unfold insert. simpl. now rewrite insert_node_twice. Qed.

(** X5. On a Trie whose children are dicts (every Trie of the program),
    [get_all_words] lists a word exactly when [search] finds it. *)
Theorem get_all_words_search (t : Trie char) (w : list char) :
  dict_keys (root t) ->
  (In w (get_all_words t) <-> search char_eq_dec t w = true).
Proof.
  intros Hd. unfold get_all_words, search.
  rewrite in_get_all_words_node. rewrite <- (has_word_search char_eq_dec w Hd).
  split.
  - intros (s & Hs & H). simpl in Hs. now subst s.
  - intros H. now exists w.
Qed.

End TrieMore.

Lemma search_starts_with_witness :
  starts_with N.eq_dec
    (insert N.eq_dec new_trie "ventas")
    "ven" = true.
Proof.
  apply (@search_starts_with char N.eq_dec
           (insert N.eq_dec new_trie "ventas")
           "ven" "tas").
  reflexivity.
Defined.

Lemma get_all_words_search_witness :
  In "id"
    (get_all_words
       (insert N.eq_dec (insert N.eq_dec new_trie "id")
          "edad")) <->
  search N.eq_dec
    (insert N.eq_dec (insert N.eq_dec new_trie "id")
       "edad")
    "id" = true.
Proof.
  apply (@get_all_words_search char N.eq_dec).
  apply (dict_keys_insert_all N.eq_dec
           ["id"; "edad"]
           new_trie).
  apply dict_keys_new_node.
Defined.

(** ** Text: what splitting and stripping keep *)

Module TextFacts.

Import Text.

Lemma all_chars_append q a b :
  all_chars q (a ++ b) = all_chars q a && all_chars q b.
Proof.
  induction a as [|c a IH]; simpl; [reflexivity|].
  now rewrite IH, andb_assoc.
Qed.

Lemma all_chars_lstrip q p s :
  all_chars q s = true -> all_chars q (lstrip p s) = true.
Proof.
  induction s as [|c s IH]; simpl; [reflexivity|].
  intros H. destruct (p c); [|exact H].
  apply andb_prop in H. now apply IH.
Qed.

Lemma all_chars_rstrip q p s :
  all_chars q s = true -> all_chars q (rstrip p s) = true.
Proof.
  induction s as [|c s IH]; simpl; [reflexivity|].
  intros H. apply andb_prop in H. destruct H as [Hc Hs].
  destruct (is_empty (rstrip p s) && p c); [reflexivity|].
  simpl. now rewrite Hc, IH.
Qed.

Lemma all_chars_strip q p s :
  all_chars q s = true -> all_chars q (strip p s) = true.
Proof. intros H. now apply all_chars_rstrip, all_chars_lstrip. Qed.

(** The pieces of [split] are made of the characters of the text that are
    not white space. *)
Lemma split_from_chars q s : forall cur w,
  all_chars (fun c => Unicode.is_space c || q c) s = true ->
  all_chars (fun c => negb (Unicode.is_space c) && q c) cur = true ->
  In w (split_from cur s) ->
  all_chars (fun c => negb (Unicode.is_space c) && q c) w = true.
Proof.
  induction s as [|c s IH]; intros cur w Hs Hcur; simpl.
  - destruct (is_empty cur); [contradiction|].
    intros [<-|[]]. exact Hcur.
  - simpl in Hs. apply andb_prop in Hs. destruct Hs as [Hc Hs].
    destruct (Unicode.is_space c) eqn:E.
    + destruct (is_empty cur).
      * now apply IH.
      * intros [<-|H]; [exact Hcur | now apply (IH [])].
    + apply IH; [exact Hs|]. rewrite all_chars_append, Hcur. simpl.
      simpl in Hc. now rewrite E, Hc.
Qed.

Lemma split_from_not_empty s : forall cur w,
  In w (split_from cur s) -> w <> [].
Proof.
  induction s as [|c s IH]; intros cur w; simpl.
  - destruct cur; simpl; [contradiction|]. intros [<-|[]]. discriminate.
  - destruct (Unicode.is_space c).
    + destruct cur; simpl.
      * apply IH.
      * intros [<-|H]; [discriminate | now apply IH in H].
    + apply IH.
Qed.

Lemma lstrip_head p s : no_p p (Str.get 0 (lstrip p s)) = true.
Proof.
  induction s as [|c s IH]; simpl; [reflexivity|].
  destruct (p c) eqn:E; [exact IH|]. simpl. now rewrite E.
Qed.

Lemma rstrip_head p s :
  no_p p (Str.get 0 s) = true ->
  no_p p (Str.get 0 (rstrip p s)) = true.
Proof.
  destruct s as [|c s]; simpl; [reflexivity|].
  intros H. apply negb_true_iff in H. rewrite H, andb_false_r. simpl.
  now rewrite H.
Qed.

Lemma rstrip_last p s : no_p p (last_char (rstrip p s)) = true.
Proof.
  induction s as [|c s IH]; simpl; [reflexivity|].
  destruct (rstrip p s) as [|c' r] eqn:E; simpl.
  - destruct (p c) eqn:Ec; simpl; [reflexivity | now rewrite Ec].
  - exact IH.
Qed.

Lemma strip_ends p s :
  no_p p (Str.get 0 (strip p s)) = true /\
  no_p p (last_char (strip p s)) = true.
Proof.
  unfold strip. split; [apply rstrip_head, lstrip_head | apply rstrip_last].
Qed.

Lemma lstrip_id p s : no_p p (Str.get 0 s) = true -> lstrip p s = s.
Proof.
  destruct s as [|c s]; simpl; [reflexivity|].
  intros H. apply negb_true_iff in H. now rewrite H.
Qed.

Lemma rstrip_id p s : no_p p (last_char s) = true -> rstrip p s = s.
Proof.
  induction s as [|c s IH]; [reflexivity|]. cbn [rstrip last_char].
  destruct s as [|c' s'].
  - simpl. intros H. apply negb_true_iff in H. now rewrite H.
  - intros H. rewrite (IH H). reflexivity.
Qed.

Lemma strip_id p s :
  no_p p (Str.get 0 s) = true -> no_p p (last_char s) = true ->
  strip p s = s.
Proof.
  intros H1 H2. unfold strip. rewrite (lstrip_id _ _ H1). now apply rstrip_id.
Qed.

Lemma all_chars_head q s :
  all_chars q s = true ->
  match Str.get 0 s with Some c => q c = true | None => True end.
Proof.
  destruct s as [|c s]; simpl; [trivial|].
  intros H. now apply andb_prop in H.
Qed.

Lemma all_chars_last q s :
  all_chars q s = true ->
  match last_char s with Some c => q c = true | None => True end.
Proof.
  induction s as [|c s IH]; [simpl; trivial|]. cbn [all_chars last_char].
  intros H. apply andb_prop in H. destruct H as [Hc Hs].
  destruct s as [|c' s']; [exact Hc | now apply IH].
Qed.

(** Stripping a set of characters from a text that has none of them. *)
Lemma strip_absent p s :
  all_chars (fun c => negb (p c)) s = true -> strip p s = s.
Proof.
  intros H. apply strip_id.
  - pose proof (all_chars_head _ _ H). now destruct (Str.get 0 s).
  - pose proof (all_chars_last _ _ H). now destruct (last_char s).
Qed.

Lemma mem_In s l : mem s l = true <-> In s l.
Proof.
  unfold mem. rewrite existsb_exists. split.
  - intros (x & Hin & Hx). apply str_eqb_eq in Hx. now subst.
  - intros H. exists s. split; [exact H | apply str_eqb_refl].
Qed.

Lemma is_empty_true s : is_empty s = true <-> s = [].
Proof. destruct s; simpl; split; congruence. Qed.

End TextFacts.

(** ** The vocabulary loader *)

Lemma fold_left_keeps (A B : Type) (f : A -> B -> A) (P : A -> Prop) l :
  (forall a b, P a -> P (f a b)) -> forall a, P a -> P (fold_left f l a).
Proof.
  intros Hf. induction l as [|b l IH]; intros a Ha; simpl; [exact Ha|].
  apply IH, Hf, Ha.
Qed.

Lemma en_diccionario_insert (t : Trie char) c w :
  en_diccionario (insert N.eq_dec t c) w = true <->
  c = w \/ en_diccionario t w = true.
Proof.
  unfold en_diccionario, search, insert. simpl. rewrite search_insert_node.
  destruct (list_eq_dec N.eq_dec c w) as [E|E].
  - split; [now left | reflexivity].
  - split; [now right|]. intros [->|H]; [congruence | exact H].
Qed.

(** A word the loader keeps: not empty and not a type keyword. *)
Lemma cargar_palabra_in st word w :
  In w (snd (cargar_palabra st word)) <->
  In w (snd st) \/
  (limpiar word = w /\ w <> "" /\ Text.mem w data_type_keywords = false).
Proof.
  unfold cargar_palabra. cbv zeta.
  destruct (negb (Text.is_empty (limpiar word))
            && negb (Text.mem (limpiar word) data_type_keywords)
            && negb (Text.mem (limpiar word) (snd st))) eqn:E.
  - apply andb_prop in E. destruct E as [E Ep].
    apply andb_prop in E. destruct E as [Ee Ek].
    apply negb_true_iff in Ee, Ek. simpl. split.
    + intros [H|H]; [|now left]. right. subst w.
      repeat split; [|exact Ek]. intros H. rewrite H in Ee. discriminate.
    + intros [H | (H & _)]; [now right | now left].
  - split; [now left|]. intros [H | (H1 & H2 & H3)]; [exact H|]. subst w.
    apply TextFacts.mem_In.
    destruct (Text.mem (limpiar word) (snd st)); [reflexivity|].
    rewrite H3 in E. destruct (limpiar word); [congruence | discriminate].
Qed.

Lemma cargar_palabras_in words : forall st w,
  In w (snd (fold_left cargar_palabra words st)) <->
  In w (snd st) \/
  (w <> "" /\ Text.mem w data_type_keywords = false /\
   exists word, In word words /\ limpiar word = w).
Proof.
  induction words as [|x words IH]; intros st w; simpl.
  - split; [now left|]. intros [H | (_ & _ & word & [] & _)]. exact H.
  - rewrite IH, cargar_palabra_in. split.
    + intros [[H | (H1 & H2 & H3)] | (H1 & H2 & word & Hin & H3)].
      * now left.
      * right. repeat split; try assumption. exists x. split; [now left|].
        exact H1.
      * right. repeat split; try assumption. exists word.
        split; [now right | exact H3].
    + intros [H | (H1 & H2 & word & [<- | Hin] & H3)].
      * left. now left.
      * left. right. now repeat split.
      * right. repeat split; try assumption. now exists word.
Qed.

Lemma cargar_lineas_in lineas : forall st w,
  In w (snd (fold_left cargar_linea lineas st)) <->
  In w (snd st) \/
  (w <> "" /\ Text.mem w data_type_keywords = false /\
   exists linea word,
     In linea lineas /\ In word (re_split (Text.lower linea)) /\
     limpiar word = w).
Proof.
  induction lineas as [|x lineas IH]; intros st w; simpl.
  - split; [now left|]. intros [H | (_ & _ & l & word & [] & _)]. exact H.
  - rewrite IH. unfold cargar_linea. cbv zeta.
    rewrite cargar_palabras_in. split.
    + intros [[H | (H1 & H2 & word & Hin & H3)]
             | (H1 & H2 & l & word & Hl & Hin & H3)].
      * now left.
      * right. repeat split; try assumption. exists x, word.
        repeat split; try assumption. now left.
      * right. repeat split; try assumption. exists l, word.
        repeat split; try assumption. now right.
    + intros [H | (H1 & H2 & l & word & [<- | Hl] & Hin & H3)].
      * left. now left.
      * left. right. repeat split; try assumption. now exists word.
      * right. repeat split; try assumption. now exists l, word.
Qed.

(** The Trie and the set of processed words hold the same words. *)
Lemma cargar_palabra_agree (st : Cargando) word :
  (forall w, en_diccionario (fst st) w = true <-> In w (snd st)) ->
  forall w, en_diccionario (fst (cargar_palabra st word)) w = true <->
            In w (snd (cargar_palabra st word)).
Proof.
  intros H w. unfold cargar_palabra. cbv zeta.
  destruct (negb (Text.is_empty (limpiar word))
            && negb (Text.mem (limpiar word) data_type_keywords)
            && negb (Text.mem (limpiar word) (snd st))); [|apply H].
  simpl. rewrite en_diccionario_insert, H. tauto.
Qed.

Lemma cargar_lineas_agree lineas (st : Cargando) :
  (forall w, en_diccionario (fst st) w = true <-> In w (snd st)) ->
  forall w, en_diccionario (fst (fold_left cargar_linea lineas st)) w = true
            <-> In w (snd (fold_left cargar_linea lineas st)).
Proof.
  apply (fold_left_keeps cargar_linea
           (fun st : Cargando =>
              forall w, en_diccionario (fst st) w = true <-> In w (snd st))).
  intros a b Ha. unfold cargar_linea. cbv zeta.
  apply (fold_left_keeps cargar_palabra
           (fun st : Cargando =>
              forall w, en_diccionario (fst st) w = true <-> In w (snd st)));
    [|exact Ha].
  intros a' b'. apply cargar_palabra_agree.
Qed.

Lemma cargar_lineas_dict_keys lineas (st : Cargando) :
  dict_keys (root (fst st)) ->
  dict_keys (root (fst (fold_left cargar_linea lineas st))).
Proof.
  apply (fold_left_keeps cargar_linea
           (fun st : Cargando => dict_keys (root (fst st)))).
  intros a b Ha. unfold cargar_linea. cbv zeta.
  apply (fold_left_keeps cargar_palabra
           (fun st : Cargando => dict_keys (root (fst st)))); [|exact Ha].
  intros a' b' Ha'. unfold cargar_palabra. cbv zeta.
  destruct (negb (Text.is_empty (limpiar b'))
            && negb (Text.mem (limpiar b') data_type_keywords)
            && negb (Text.mem (limpiar b') (snd a'))); [|exact Ha'].
  simpl. now apply dict_keys_insert_node.
Qed.

Lemma en_diccionario_new w : en_diccionario new_trie w = false.
Proof. unfold en_diccionario, search. simpl. apply search_new_node. Qed.

Lemma vocabulario_en_diccionario lineas w :
  en_diccionario (fst (fold_left cargar_linea lineas (new_trie, []))) w = true
  <->
  (w <> "" /\ Text.mem w data_type_keywords = false /\
   exists linea word,
     In linea lineas /\ In word (re_split (Text.lower linea)) /\
     limpiar word = w).
Proof.
  rewrite cargar_lineas_agree.
  - rewrite cargar_lineas_in. simpl. tauto.
  - intros w'. simpl. rewrite en_diccionario_new. split; [discriminate | tauto].
Qed.

(** X6. From a file that can be read the loader returns a Trie, and
    [search] finds in it exactly the words that are a piece of some line
    (split at white space and at "#", in lower case), stripped of
    punctuation, when they are not empty and not a type keyword. *)
Theorem generate_dataset_and_trie_contents (lineas : list string) :
  exists t,
    generate_dataset_and_trie (Some lineas) = Some t /\
    forall w,
      en_diccionario t w = true <->
      (w <> "" /\ Text.mem w data_type_keywords = false /\
       exists linea word,
         In linea lineas /\ In word (re_split (Text.lower linea)) /\
         limpiar word = w).
Proof.
  eexists. split; [reflexivity|]. apply vocabulario_en_diccionario.
Qed.

(** The pieces of [re.split(r'\s+|#', s)] are made of the characters of the
    text that are neither white space nor "#". *)
Lemma re_split_from_chars q s : forall cur b w,
  Text.all_chars (fun c => Unicode.is_space c || N.eqb c "#"%char || q c) s
  = true ->
  Text.all_chars
    (fun c => negb (Unicode.is_space c) && negb (N.eqb c "#"%char) && q c) cur
  = true ->
  In w (re_split_from cur b s) ->
  Text.all_chars
    (fun c => negb (Unicode.is_space c) && negb (N.eqb c "#"%char) && q c) w
  = true.
Proof.
  induction s as [|c s IH]; intros cur b w Hs Hcur; simpl.
  - intros [<-|[]]. exact Hcur.
  - simpl in Hs. apply andb_prop in Hs. destruct Hs as [Hc Hs].
    destruct (Unicode.is_space c) eqn:E.
    + destruct b.
      * now apply IH.
      * intros [<-|H]; [exact Hcur | now apply (IH [] true)].
    + destruct (N.eqb c "#"%char) eqn:E'.
      * intros [<-|H]; [exact Hcur | now apply (IH [] false)].
      * apply IH; [exact Hs|]. rewrite TextFacts.all_chars_append, Hcur.
        simpl. simpl in Hc. now rewrite E, E', Hc.
Qed.

(** A piece of a lower-case line, once cleaned and if anything is left of
    it, is a normalised word without "#". *)
Lemma limpiar_normalizada linea word :
  In word (re_split (Text.lower linea)) ->
  limpiar word <> "" ->
  normalizada (limpiar word) = true /\
  Text.all_chars (fun c => negb (N.eqb c "#"%char)) (limpiar word) = true.
Proof.
  intros Hin Hne.
  assert (Hw : Text.all_chars
                 (fun c => negb (Unicode.is_space c) && negb (N.eqb c "#"%char)
                           && negb (cambia c)) word = true).
  { apply (re_split_from_chars (fun c => negb (cambia c))
             (Text.lower linea) [] false); [|reflexivity|exact Hin].
    apply all_chars_imp
      with (q := fun c => negb (cambia c));
      [|apply UnicodeFacts.lower_minusculas].
    intros c ->. apply orb_true_r. }
  assert (Hs : Text.all_chars
                 (fun c => negb (Unicode.is_space c) && negb (N.eqb c "#"%char)
                           && negb (cambia c))
                 (Text.strip Text.is_punct word) = true)
    by now apply TextFacts.all_chars_strip.
  assert (Hl : limpiar word = Text.strip Text.is_punct word).
  { unfold limpiar. apply TextFacts.strip_absent.
    revert Hs. apply all_chars_imp.
    intros c H. apply andb_prop in H. destruct H as [H _].
    now apply andb_prop in H. }
  rewrite Hl in *. split.
  - unfold normalizada.
    destruct (TextFacts.strip_ends Text.is_punct word) as [-> ->].
    rewrite !andb_true_r. apply andb_true_intro. split.
    + apply andb_true_intro. split.
      * destruct (Text.strip Text.is_punct word); [congruence | reflexivity].
      * apply str_eqb_eq, UnicodeFacts.lower_id. unfold minusculas.
        revert Hs. apply all_chars_imp.
        intros c H. now apply andb_prop in H.
    + revert Hs. apply all_chars_imp.
      intros c H. apply andb_prop in H. destruct H as [H _].
      now apply andb_prop in H.
  - revert Hs. apply all_chars_imp.
    intros c H. apply andb_prop in H. destruct H as [H _].
    now apply andb_prop in H.
Qed.

(** X7. Every word of the Trie the loader returns is normalised (not
    empty, left as it is by [str.lower], without white space, no
    punctuation sign at either end) and holds no "#"; [get_all_words]
    lists none of them twice. *)
Theorem generate_dataset_and_trie_normalised (lineas : list string) :
  exists t,
    generate_dataset_and_trie (Some lineas) = Some t /\
    NoDup (get_all_words t) /\
    forall w,
      en_diccionario t w = true ->
      normalizada w = true /\
      Text.all_chars (fun c => negb (N.eqb c "#"%char)) w = true.
Proof.
  eexists. split; [reflexivity|]. split.
  - apply NoDup_get_all_words_node.
    apply (cargar_lineas_dict_keys lineas (new_trie, [])).
    apply dict_keys_new_node.
  - intros w H. apply vocabulario_en_diccionario in H.
    destruct H as (Hne & _ & linea & word & _ & Hin & <-).
    now apply (limpiar_normalizada linea).
Qed.

(** ** The lexer *)

Lemma normalizada_parts w :
  normalizada w = true ->
  w <> "" /\
  minusculas w = true /\
  Text.all_chars (fun c => negb (Unicode.is_space c)) w = true /\
  no_p Text.is_punct (Str.get 0 w) = true /\
  no_p Text.is_punct (Text.last_char w) = true.
Proof.
  unfold normalizada. intros H.
  apply andb_prop in H. destruct H as [H H5].
  apply andb_prop in H. destruct H as [H H4].
  apply andb_prop in H. destruct H as [H H3].
  apply andb_prop in H. destruct H as [H1 H2].
  repeat split; try assumption.
  - intros ->. discriminate.
  - apply str_eqb_eq in H2. rewrite <- H2.
    apply UnicodeFacts.lower_minusculas.
Qed.

(** The words the lexer classifies: the pieces of the lower-case text,
    stripped of punctuation, that are not empty. *)
Lemma palabras_normalizadas texto w :
  In w (map (Text.strip Text.is_punct)
          (filter
             (fun p => negb (Text.is_empty (Text.strip Text.is_punct p)))
             (Text.split (Text.lower texto)))) ->
  normalizada w = true.
Proof.
  intros H. apply in_map_iff in H. destruct H as (p & <- & H).
  apply filter_In in H. destruct H as [Hin Hne].
  assert (Hp : Text.all_chars
                 (fun c => negb (Unicode.is_space c) && negb (cambia c))
                 p = true).
  { apply (TextFacts.split_from_chars (fun c => negb (cambia c))
             (Text.lower texto) []); [|reflexivity|exact Hin].
    apply all_chars_imp
      with (q := fun c => negb (cambia c));
      [|apply UnicodeFacts.lower_minusculas].
    intros c ->. apply orb_true_r. }
  apply (TextFacts.all_chars_strip _ Text.is_punct) in Hp.
  unfold normalizada.
  destruct (TextFacts.strip_ends Text.is_punct p) as [-> ->].
  rewrite Hne, !andb_true_r. cbn [andb]. apply andb_true_intro. split.
  - apply str_eqb_eq, UnicodeFacts.lower_id. unfold minusculas.
    revert Hp. apply all_chars_imp.
    intros c H. now apply andb_prop in H.
  - revert Hp. apply all_chars_imp.
    intros c H. now apply andb_prop in H.
Qed.

(** X8. The literal of every token the lexer gives is a normalised word:
    not empty, left as it is by [str.lower], without white space and with
    no punctuation sign at either end. *)
Theorem analisis_lexico_normalizadas (texto : string) :
  Forall (fun t => normalizada (snd t) = true) (analisis_lexico texto).
Proof.
  unfold analisis_lexico. cbv zeta. rewrite Forall_forall. intros t Hin.
  apply in_map_iff in Hin. destruct Hin as (w & <- & Hin).
  rewrite snd_clasificar. now apply (palabras_normalizadas texto).
Qed.

Lemma normalizada_no_operador w :
  normalizada w = true -> Text.mem w operadores = false.
Proof.
  intros H. destruct (Text.mem w operadores) eqn:E; [|reflexivity].
  apply TextFacts.mem_In in E. simpl in E.
  repeat (destruct E as [<-|E]; [vm_compute in H; discriminate H|]).
  contradiction.
Qed.

Lemma clasificar_operador w :
  tipo_eqb (fst (clasificar w)) OPERADOR = true ->
  Text.mem w operadores = true.
Proof.
  unfold clasificar.
  repeat match goal with
         | |- context [if ?b then _ else _] => destruct b eqn:?
         end; simpl; congruence.
Qed.

(** X9. The lexer never gives a token of kind OPERADOR: the operator
    symbols are made of punctuation signs only, and the punctuation at the
    ends of a word is stripped before the word is classified. *)
Theorem analisis_lexico_sin_operador (texto : string) :
  Forall (fun t => tipo_eqb (fst t) OPERADOR = false) (analisis_lexico texto).
Proof.
  unfold analisis_lexico. cbv zeta. rewrite Forall_forall. intros t Hin.
  apply in_map_iff in Hin. destruct Hin as (w & <- & Hin).
  apply palabras_normalizadas, normalizada_no_operador in Hin.
  destruct (tipo_eqb (fst (clasificar w)) OPERADOR) eqn:E; [|reflexivity].
  apply clasificar_operador in E. congruence.
Qed.

Lemma split_from_app w : forall cur rest,
  Text.all_chars (fun c => negb (Unicode.is_space c)) w = true ->
  Text.split_from cur (w ++ rest) = Text.split_from (cur ++ w) rest.
Proof.
  induction w as [|c w IH]; intros cur rest H; simpl.
  - now rewrite append_nil_r.
  - simpl in H. apply andb_prop in H. destruct H as [Hc Hw].
    apply negb_true_iff in Hc. rewrite Hc, (IH _ _ Hw).
    now rewrite append_assoc.
Qed.

Lemma split_join ws :
  Forall (fun w => normalizada w = true) ws ->
  Text.split (Text.join " " ws) = ws.
Proof.
  unfold Text.split, Text.join.
  induction ws as [|x ws IH]; intros H; [reflexivity|].
  inversion H as [|? ? Hx Hws]; subst.
  destruct (normalizada_parts _ Hx) as (Hne & _ & Hsp & _).
  specialize (IH Hws). destruct ws as [|y ws].
  - simpl. rewrite <- (append_nil_r x) at 1.
    rewrite (split_from_app _ _ _ Hsp). simpl.
    destruct x; [congruence | reflexivity].
  - cbn [Str.concat]. rewrite (split_from_app _ _ _ Hsp). simpl.
    destruct x; [congruence|]. simpl. f_equal. exact IH.
Qed.

Lemma lower_join ws :
  Forall (fun w => normalizada w = true) ws ->
  Text.lower (Text.join " " ws) = Text.join " " ws.
Proof.
  intros H. apply UnicodeFacts.lower_id. unfold Text.join.
  induction ws as [|x ws IH]; [reflexivity|].
  inversion H as [|? ? Hx Hws]; subst.
  destruct (normalizada_parts _ Hx) as (_ & Hup & _).
  specialize (IH Hws). destruct ws as [|y ws]; [exact Hup|].
  change (Str.concat " " (x :: y :: ws))
    with (x ++ " " ++ Str.concat " " (y :: ws)).
  rewrite !UnicodeFacts.minusculas_app, Hup, IH. vm_compute. reflexivity.
Qed.

Lemma strip_normalizadas ws :
  Forall (fun w => normalizada w = true) ws ->
  map (Text.strip Text.is_punct)
    (filter (fun p => negb (Text.is_empty (Text.strip Text.is_punct p))) ws)
  = ws.
Proof.
  induction ws as [|x ws IH]; intros H; [reflexivity|].
  inversion H as [|? ? Hx Hws]; subst.
  destruct (normalizada_parts _ Hx) as (Hne & _ & _ & H0 & Hl).
  simpl. rewrite (TextFacts.strip_id _ _ H0 Hl).
  destruct x; [congruence|]. simpl.
  rewrite (TextFacts.strip_id _ _ H0 Hl). now rewrite (IH Hws).
Qed.

(** Lexing normalised words joined by single spaces classifies each of
    them. *)
Lemma analisis_lexico_join ws :
  Forall (fun w => normalizada w = true) ws ->
  analisis_lexico (Text.join " " ws) = map clasificar ws.
Proof.
  intros H. unfold analisis_lexico. cbv zeta.
  now rewrite (lower_join H), (split_join H), (strip_normalizadas H).
Qed.

(** X10. Lexing is idempotent: the literals of the tokens, joined by single
    spaces and lexed again, give the same tokens. *)
Theorem analisis_lexico_idempotente (texto : string) :
  analisis_lexico (Text.join " " (map snd (analisis_lexico texto)))
  = analisis_lexico texto.
Proof.
  rewrite analisis_lexico_join.
  - unfold analisis_lexico. cbv zeta. rewrite !map_map.
    apply map_ext. intros w. now rewrite snd_clasificar.
  - rewrite Forall_forall. intros w Hin.
    apply in_map_iff in Hin. destruct Hin as (t & <- & Hin).
    unfold analisis_lexico in Hin. cbv zeta in Hin.
    apply in_map_iff in Hin. destruct Hin as (p & <- & Hin).
    rewrite snd_clasificar. now apply (palabras_normalizadas texto).
Qed.

(** ** Dates: the window of [unir_fecha] and the size of a date *)

Lemma length_app_string (a b : string) :
  length (a ++ b) = length a + length b.
Proof. induction a as [|c a IH]; simpl; [reflexivity | now rewrite IH]. Qed.

(** A word of a pattern holds no character the pattern excludes. *)
Lemma excluye_lang c r s : excluye c r = true -> lang r s -> ~ In c s.
Proof.
  intros He Hl. induction Hl as [|p d Hp|r1 r2 s1 s2 _ IH1 _ IH2
                                |r1 r2 s _ IH|r1 r2 s _ IH
                                |r|r s1 s2 _ IH1 _ IH2]; simpl in He.
  - intros [].
  - intros [<-|[]]. rewrite Hp in He. discriminate.
  - apply andb_prop in He. destruct He as [H1 H2]. intros H.
    apply in_app_or in H. destruct H; [now apply IH1 | now apply IH2].
  - apply andb_prop in He. now apply IH.
  - apply andb_prop in He. now apply IH.
  - intros [].
  - intros H. apply in_app_or in H.
    destruct H; [now apply IH1 | now apply IH2].
Qed.

(** [str.lower] keeps the length of a text, but for the characters U+0130
    of it, which it writes in two characters, the second one U+0307. *)
Lemma length_lower_from s : forall antes,
  ~ In 775%N (Unicode.lower_from antes s) ->
  length (Unicode.lower_from antes s) = length s.
Proof.
  induction s as [|c s IH]; intros antes H; [reflexivity|].
  cbn [Unicode.lower_from] in *. rewrite length_app_string.
  rewrite IH by (intros Hin; apply H, in_or_app; now right).
  cbn [length]. f_equal.
  destruct (c =? 931)%N; [reflexivity|].
  unfold Unicode.lower_char in *. destruct (N.eqb_spec c 304) as [->|_].
  - exfalso. apply H, in_or_app. left. right. now left.
  - now destruct (Unicode.assoc c Unicode.LOWER).
Qed.

Lemma min_len_lang r s :
  lang r s -> exists n, min_len r = Some n /\ n <= length s.
Proof.
  induction 1 as [|p c Hp|r1 r2 s1 s2 _ IH1 _ IH2|r1 r2 s _ IH|r1 r2 s _ IH
                 |r|r s1 s2 _ _ _ _]; simpl.
  - exists 0. now split.
  - exists 1. now split.
  - destruct IH1 as (a & -> & Ha). destruct IH2 as (b & -> & Hb).
    exists (a + b). split; [reflexivity|]. rewrite length_app_string. lia.
  - destruct IH as (a & -> & Ha). destruct (min_len r2) as [b|].
    + exists (Nat.min a b). split; [reflexivity | lia].
    + exists a. now split.
  - destruct IH as (b & -> & Hb). destruct (min_len r1) as [a|].
    + exists (Nat.min a b). split; [reflexivity | lia].
    + exists b. now split.
  - exists 0. split; [reflexivity | lia].
  - exists 0. split; [reflexivity | lia].
Qed.

(** X11. A text [es_fecha] accepts has at least ten characters: no shorter
    text, such as a date with a one-digit month or a two-digit year, is a
    date. *)
Theorem es_fecha_length (texto : string) :
  es_fecha texto = true -> 10 <= length texto.
Proof.
  intros H. apply es_fecha_lang in H. destruct H as (f & Hin & Hl).
  assert (He : excluye 775%N f = true)
    by (simpl in Hin; destruct Hin as [<-|[<-|[<-|[<-|[]]]]];
        vm_compute; reflexivity).
  pose proof (excluye_lang _ He Hl) as Hno.
  apply min_len_lang in Hl. destruct Hl as (n & Hn & Hle).
  unfold Text.lower in *. rewrite (length_lower_from _ _ Hno) in Hle.
  simpl in Hin. destruct Hin as [<-|[<-|[<-|[<-|[]]]]];
    vm_compute in Hn; injection Hn as <-; lia.
Qed.

Lemma es_fecha_length_witness : 10 <= length "21/07/2025".
Proof. apply (es_fecha_length "21/07/2025"). vm_compute. reflexivity. Defined.

Lemma unir_fecha_desde_spec resto : forall partes n,
  match unir_fecha_desde resto partes n with
  | (Some f, r) =>
      exists j,
        1 <= j <= List.length resto /\ r = (n + Z.of_nat j)%Z /\
        f = Text.join " " (partes ++ firstn j (map snd resto)) /\
        es_fecha f = true /\
        forall m, 1 <= m < j ->
          es_fecha (Text.join " " (partes ++ firstn m (map snd resto)))
          = false
  | (None, r) =>
      r = 0%Z /\
      forall m, 1 <= m <= List.length resto ->
        es_fecha (Text.join " " (partes ++ firstn m (map snd resto))) = false
  end.
Proof.
  induction resto as [|t resto IH]; intros partes n;
    cbn [unir_fecha_desde map List.length].
  - split; [reflexivity|]. intros m Hm. lia.
  - destruct (es_fecha (Text.join " " (partes ++ [snd t]))) eqn:E.
    + exists 1. repeat split; try lia. exact E.
    + specialize (IH (partes ++ [snd t])%list (n + 1)%Z).
      assert (shift : forall m,
                ((partes ++ [snd t]) ++ firstn m (map snd resto)
                 = partes ++ firstn (S m) (snd t :: map snd resto))%list)
        by (intros m; cbn [firstn]; now rewrite <- app_assoc).
      destruct (unir_fecha_desde resto (partes ++ [snd t]) (n + 1))
        as [[f|] r].
      * destruct IH as (j & Hj & -> & -> & Hf & Hm).
        exists (S j). rewrite <- shift. repeat split; try lia.
        -- exact Hf.
        -- intros m Hm'. destruct m as [|m]; [lia|].
           rewrite <- shift. destruct m as [|m].
           ++ cbn [firstn]. now rewrite app_nil_r.
           ++ apply Hm. lia.
      * destruct IH as [-> Hm]. split; [reflexivity|].
        intros m Hm'. destruct m as [|m]; [lia|].
        rewrite <- shift. destruct m as [|m].
        -- cbn [firstn]. now rewrite app_nil_r.
        -- apply Hm. lia.
Qed.

(** X12. For an [inicio] that is not negative, [unir_fecha] returns the
    shortest window of literals from [inicio] on that, joined by spaces,
    is a date, with the number of tokens in it (at least one, at most what
    is left of the list); when no window is a date it returns [None] and
    0. *)
Theorem unir_fecha_spec (tokens : list Token) (inicio : Z) :
  (0 <= inicio)%Z ->
  match unir_fecha tokens inicio with
  | (Some f, saltos) =>
      exists j,
        saltos = Z.of_nat j /\
        1 <= j <= List.length (skipn (Z.to_nat inicio) tokens) /\
        f = Text.join " "
              (firstn j (map snd (skipn (Z.to_nat inicio) tokens))) /\
        es_fecha f = true /\
        forall m, 1 <= m < j ->
          es_fecha
            (Text.join " "
               (firstn m (map snd (skipn (Z.to_nat inicio) tokens))))
          = false
  | (None, saltos) =>
      saltos = 0%Z /\
      forall m, 1 <= m <= List.length (skipn (Z.to_nat inicio) tokens) ->
        es_fecha
          (Text.join " "
             (firstn m (map snd (skipn (Z.to_nat inicio) tokens))))
        = false
  end.
Proof.
  intros _. unfold unir_fecha.
  pose proof (unir_fecha_desde_spec (skipn (Z.to_nat inicio) tokens) [] 0%Z)
    as H.
  destruct (unir_fecha_desde (skipn (Z.to_nat inicio) tokens) [] 0)
    as [[f|] r]; simpl in H.
  - destruct H as (j & Hj & -> & -> & Hf & Hm). exists j.
    repeat split; try lia; assumption.
  - exact H.
Qed.

Lemma unir_fecha_spec_witness :
  exists j,
    1%Z = Z.of_nat j /\
    1 <= j <= 2 /\
    "2025-07-21" = Text.join " " (firstn j ["2025-07-21"; "ya"]) /\
    es_fecha "2025-07-21" = true /\
    forall m, 1 <= m < j ->
      es_fecha (Text.join " " (firstn m ["2025-07-21"; "ya"])) = false.
Proof.
  apply (@unir_fecha_spec
           [(PALABRA, "desde"); (PALABRA, "2025-07-21"); (PALABRA, "ya")]
           1%Z).
  lia.
Defined.

(** ** The operator normaliser: texts without a phrase of the mapping *)

Lemma sub_word_from_absent frase repl s : forall count prev,
  contiene frase s = false ->
  Text.sub_word_from frase repl count prev 0 s = s.
Proof.
  induction s as [|c s IH]; intros count prev H;
    cbn [contiene] in H; apply orb_false_iff in H; destruct H as [Hp Hs];
    cbn [Text.sub_word_from]; unfold Text.word_match; rewrite Hp;
    cbn [andb]; rewrite !andb_false_r; [reflexivity|].
  now rewrite IH.
Qed.

Lemma reemplazos_absent (l : list (string * string)) s :
  existsb (fun fr => contiene fr s) (map fst l) = false ->
  fold_left
    (fun texto '(frase, reemplazo) =>
       Text.sub_word frase reemplazo None texto) l s = s.
Proof.
  induction l as [|[frase repl] l IH]; intros H; simpl; [reflexivity|].
  simpl in H. apply orb_false_iff in H. destruct H as [Hf Hl].
  unfold Text.sub_word at 2. rewrite (sub_word_from_absent _ _ _ _ _ Hf).
  now apply IH.
Qed.

(** X13. A text in which, once in lower case, none of the nine phrases of
    the mapping occurs is returned in lower case and otherwise as it is. *)
Theorem reemplazar_sin_frases (texto : string) :
  existsb (fun frase => contiene frase (Text.lower texto)) (map fst mapeo)
  = false ->
  _reemplazar_operadores_compuestos texto = Text.lower texto.
Proof.
  intros H. unfold _reemplazar_operadores_compuestos. cbv zeta.
  now apply reemplazos_absent.
Qed.

Lemma reemplazar_sin_frases_witness :
  _reemplazar_operadores_compuestos "Mayor A" = "mayor a".
Proof.
  apply (reemplazar_sin_frases "Mayor A"). vm_compute. reflexivity.
Defined.

(** ** The parser: the updates it makes to the structure *)

Lemma evoluciona_trans tokens e1 e2 e3 :
  evoluciona tokens e1 e2 -> evoluciona tokens e2 e3 ->
  evoluciona tokens e1 e3.
Proof.
  intros H12 H23. induction H23.
  - exact H12.
  - now apply ev_accion; [apply IHevoluciona | |].
  - now apply ev_entidad; [apply IHevoluciona |].
  - now apply ev_atributo; [apply IHevoluciona | |].
  - now apply ev_condicion; [apply IHevoluciona |].
Qed.

Lemma cumple_weaken (A : Type) (r : Res A) (P Q : A -> Prop) :
  (forall a, P a -> Q a) -> cumple r P -> cumple r Q.
Proof. destruct r; simpl; auto. Qed.

Lemma tok_nth tokens k t :
  tok tokens k = Ok t -> nth_error tokens (Z.to_nat k) = Some t.
Proof.
  unfold tok.
  destruct ((0 <=? k) && (k <? len tokens))%Z; [|discriminate].
  destruct (nth_error tokens (Z.to_nat k)) as [t'|]; [|discriminate].
  now intros [= ->].
Qed.

Lemma tipo_eqb_eq a b : tipo_eqb a b = true -> a = b.
Proof. destruct a, b; simpl; congruence. Qed.

Lemma is_none_true (A : Type) (o : option A) : is_none o = true -> o = None.
Proof. destruct o; simpl; congruence. Qed.

Section ParserUpdates.

Variable tokens : list Token.

Local Abbreviation evol := (evoluciona tokens).

(** A token access of a run is split in its outcomes; the token read is
    kept with the access that gave it. *)
Ltac paso_c t :=
  lazymatch t with
  | bind (Ok _) _ => cbn [bind fst snd]
  | bind ?m _ => paso_c m
  | tok _ ?k =>
      let x := fresh "t" in
      let H := fresh "Ht" in
      let Hin := fresh "Hin" in
      destruct (tok tokens k) as [x| | | |] eqn:H;
      cbn [bind fst snd cumple];
      [pose proof (tok_in _ _ H) as Hin | exact I ..]
  | (if ?b then _ else _) =>
      let E := fresh "E" in
      destruct b eqn:E; cbn [bind fst snd]
  end.

Ltac correr :=
  unfold tipo_en, valor_en, and_then; cbn [bind fst snd];
  repeat lazymatch goal with
         | |- cumple ?t _ => paso_c t
         end.

Ltac cond_ok :=
  unfold condicion_de; cbn [operador valor]; split;
  [ first [assumption | reflexivity]
  | match goal with
    | H : In ?t tokens |- _ =>
        exists t; split;
        [exact H | first [left; reflexivity | right; reflexivity]]
    end ].

Ltac evol_ok :=
  cbn [cumple flujo_estructura snd];
  repeat first
    [ apply ev_refl
    | apply ev_condicion; [|cond_ok]
    | match goal with
      | H : In ?t tokens |- evoluciona _ _ (con_entidad _ (snd ?t)) =>
          apply ev_entidad; [|exact H]
      end ].

Lemma explorar_evoluciona fuel : forall j e,
  cumple (explorar tokens fuel j e) (fun r => evol e (snd r)).
Proof.
  induction fuel as [|fuel IH]; intros j e; cbn [explorar].
  - destruct (j <? len tokens - 2)%Z; simpl; [exact I | apply ev_refl].
  - destruct (j <? len tokens - 2)%Z; [|apply ev_refl].
    correr;
      match goal with
      | |- cumple (explorar tokens fuel ?k ?x) _ =>
          apply (@cumple_weaken _ _ (fun r => evol x (snd r)));
          [ intros r Hr; apply evoluciona_trans with (e2 := x);
            [evol_ok | exact Hr]
          | exact (IH k x) ]
      end.
Qed.

Lemma reglas_evoluciona i tipo valor e :
  In (tipo, valor) tokens ->
  cumple (reglas tokens i tipo valor e)
    (fun f => evol e (flujo_estructura f)).
Proof.
  intros Hin. unfold reglas. correr; try evol_ok.
  - apply andb_prop in E. destruct E as [Et En].
    apply tipo_eqb_eq in Et. apply is_none_true in En. subst tipo.
    now apply ev_accion; [apply ev_refl | |].
  - exact (@ev_entidad tokens e e (tipo, valor) (ev_refl tokens e) Hin).
  - apply andb_prop in E1. destruct E1 as [_ En]. apply is_none_true in En.
    now apply ev_atributo; [apply ev_refl | |].
  - pose proof (explorar_evoluciona (List.length tokens) (i + 1) e) as Hexp.
    destruct (explorar tokens (List.length tokens) (i + 1) e)
      as [[j e']| | | |]; simpl in *; first [exact I | exact Hexp].
Qed.

Lemma paso_evoluciona i e :
  cumple (paso tokens i e) (fun r => evol e (snd r)).
Proof.
  unfold paso. correr; try evol_ok; cbv zeta.
  all: try match goal with
       | |- context [Str.eqb (snd ?x) "en"] =>
           let Hen := fresh "Hen" in
           destruct (Str.eqb (snd x) "en") eqn:Hen
       end.
  all: try match goal with
       | Hk : tok tokens ?k = Ok ?x, Hen : Str.eqb (snd ?x) "en" = true
         |- _ =>
           apply str_eqb_eq in Hen;
           rewrite (unir_fecha_en tokens k (tok_nth _ _ Hk) Hen);
           cbn [truthy]
       end.
  all: match goal with
       | Hi : In ?x tokens
         |- cumple (bind (reglas tokens ?k (fst ?x) (snd ?x) ?e0) _) _ =>
           assert (Hreg : cumple (reglas tokens k (fst x) (snd x) e0)
                            (fun f => evol e0 (flujo_estructura f)))
             by (apply reglas_evoluciona; now destruct x);
           destruct (reglas tokens k (fst x) (snd x) e0) as [[j e'|j e']| | | |];
           simpl in *; first [exact I | exact Hreg]
       end.
Qed.

Lemma bucle_evoluciona fuel : forall i e,
  cumple (bucle tokens fuel i e) (evol e).
Proof.
  induction fuel as [|fuel IH]; intros i e; cbn [bucle].
  - destruct (i <? len tokens)%Z; simpl; [exact I | apply ev_refl].
  - destruct (i <? len tokens)%Z; [|apply ev_refl].
    pose proof (paso_evoluciona i e) as Hpaso.
    destruct (paso tokens i e) as [[j e']| | | |]; simpl in *; try exact I.
    apply (@cumple_weaken _ _ (evol e')); [|apply IH].
    intros e'' H. now apply evoluciona_trans with (e2 := e').
Qed.

(** The parser returns a structure, and it is the empty one after updates
    of the four kinds. *)
Lemma analisis_evoluciona :
  exists e, analisis_sintactico tokens = Ok e /\ evol estructura_inicial e.
Proof.
  destruct (@bucle_ok tokens (List.length tokens) 0%Z estructura_inicial)
    as [e He]; [lia | unfold len; lia |].
  exists e. split; [exact He|].
  pose proof (bucle_evoluciona (List.length tokens) 0%Z estructura_inicial)
    as H.
  unfold analisis_sintactico in *. now rewrite He in H.
Qed.

End ParserUpdates.

Lemma evoluciona_condiciones tokens e e' :
  evoluciona tokens e e' ->
  exists l, condiciones e' = (condiciones e ++ l)%list /\
            Forall (condicion_de tokens) l.
Proof.
  induction 1 as [e|e e' a _ IH|e e' t _ IH|e e' a _ IH|e e' c _ IH Hc].
  - exists []. split; [now rewrite app_nil_r | constructor].
  - exact IH.
  - exact IH.
  - exact IH.
  - destruct IH as (l & Hl & Hf). exists (l ++ [c])%list. split.
    + simpl. now rewrite Hl, app_assoc.
    + apply Forall_app. split; [exact Hf | now constructor].
Qed.

Lemma evoluciona_accion tokens e e' a :
  evoluciona tokens e e' -> accion e = Some a -> accion e' = Some a.
Proof.
  induction 1 as [e|e e' b _ IH Hn|e e' t _ IH|e e' b _ IH|e e' c _ IH];
    intros Ha; try (simpl; now apply IH).
  - exact Ha.
  - rewrite (IH Ha) in Hn. discriminate.
Qed.

(** X14. The parser returns a structure in which every condition has one
    of the seven operator symbols as its operator and the literal of a
    token of the list, with or without the dots at its end, as its
    value. *)
Theorem analisis_sintactico_condiciones (tokens : list Token) :
  exists e,
    analisis_sintactico tokens = Ok e /\
    Forall (condicion_de tokens) (condiciones e).
Proof.
  destruct (analisis_evoluciona tokens) as (e & He & Hev).
  exists e. split; [exact He|].
  apply evoluciona_condiciones in Hev. destruct Hev as (l & -> & Hl).
  exact Hl.
Qed.

(** X15. A pass through the body of the main loop keeps what is recorded:
    an action that is set stays the same, and the conditions recorded so
    far stay, in their order, at the head of the list. *)
Theorem paso_conserva (tokens : list Token) (i j : Z) (e e' : Estructura) :
  paso tokens i e = Ok (j, e') ->
  (forall a, accion e = Some a -> accion e' = Some a) /\
  exists l, condiciones e' = (condiciones e ++ l)%list.
Proof.
  intros H. pose proof (paso_evoluciona tokens i e) as Hev.
  rewrite H in Hev. simpl in Hev. split.
  - intros a Ha. exact (@evoluciona_accion tokens e e' a Hev Ha).
  - apply evoluciona_condiciones in Hev. destruct Hev as (l & Hl & _).
    now exists l.
Qed.

Lemma paso_conserva_witness :
  (forall a,
     accion (mkEstructura (Some "dame") (Some "ventas")
               [mkCondicion "edad" ">" "30"] None) = Some a ->
     accion (mkEstructura (Some "dame") (Some "ventas")
               [mkCondicion "edad" ">" "30"; mkCondicion "nombre" "=" "ana"]
               None) = Some a) /\
  exists l,
    condiciones (mkEstructura (Some "dame") (Some "ventas")
                   [mkCondicion "edad" ">" "30";
                    mkCondicion "nombre" "=" "ana"] None)
    = (condiciones (mkEstructura (Some "dame") (Some "ventas")
                      [mkCondicion "edad" ">" "30"] None) ++ l)%list.
Proof.
  apply (@paso_conserva
           [(PALABRA, "ventas"); (PALABRA, "llamada"); (PALABRA, "ana")]
           1%Z 3%Z).
  reflexivity.
Defined.

Lemma evoluciona_campos tokens e :
  evoluciona tokens estructura_inicial e ->
  (forall a, accion e = Some a -> In (ACCION, a) tokens) /\
  (forall x, entidad e = Some x -> exists t, In t tokens /\ snd t = x) /\
  (forall l, atributos_mostrar e = Some l ->
     l <> [] /\
     Forall (fun a =>
               Text.mem a ["nombre"; "edad"; "id"; "dept"; "precio"; "fecha"]
               = true) l).
Proof.
  remember estructura_inicial as e0 eqn:E0.
  induction 1 as [e|e e' a _ IH Hn Hin|e e' t _ IH Hin
                 |e e' a _ IH Hn Hm|e e' c _ IH]; subst.
  - repeat split; simpl; intros; discriminate.
  - destruct (IH eq_refl) as (Ha & Hx & Hl). repeat split; simpl.
    + now intros b [= <-].
    + exact Hx.
    + now apply Hl.
    + now apply Hl.
  - destruct (IH eq_refl) as (Ha & Hx & Hl). repeat split; simpl.
    + exact Ha.
    + intros x [= <-]. now exists t.
    + now apply Hl.
    + now apply Hl.
  - destruct (IH eq_refl) as (Ha & Hx & Hl). split; [exact Ha|].
    split; [exact Hx|]. simpl. intros l [= <-].
    destruct (atributos_mostrar e') as [l'|].
    + destruct (Hl l' eq_refl) as [Hne Hf]. split.
      * now destruct l'.
      * apply Forall_app. split; [exact Hf | now constructor].
    + split; [discriminate | now constructor].
  - exact (IH eq_refl).
Qed.

(** X16. In the structure the parser returns, the action, when there is
    one, is the literal of an ACCION token of the list; the entity, when
    there is one, is the literal of a token of the list; and the attributes
    to show, when the key is there, are a non-empty list of known column
    names. *)
Theorem analisis_sintactico_campos (tokens : list Token) :
  exists e,
    analisis_sintactico tokens = Ok e /\
    (forall a, accion e = Some a -> In (ACCION, a) tokens) /\
    (forall x, entidad e = Some x -> exists t, In t tokens /\ snd t = x) /\
    (forall l, atributos_mostrar e = Some l ->
       l <> [] /\
       Forall (fun a =>
                 Text.mem a
                   ["nombre"; "edad"; "id"; "dept"; "precio"; "fecha"]
                 = true) l).
Proof.
  destruct (analisis_evoluciona tokens) as (e & He & Hev).
  exists e. split; [exact He|]. now apply evoluciona_campos.
Qed.

Lemma lang_lit s w : lang (lit s) w -> w = s.
Proof.
  revert w. induction s as [|c s IH]; intros w H; simpl in H.
  - now inversion H.
  - apply RegexFacts.lang_cat_inv in H.
    destruct H as (s1 & s2 & -> & H1 & H2).
    apply IH in H2. subst s2. unfold chr in H1. inversion H1; subst.
    match goal with
    | Hc : N.eqb _ _ = true |- _ => apply N.eqb_eq in Hc; now subst
    end.
Qed.

(** The long form of a date has a space in it. *)
Lemma formato_largo_espacio v :
  match_prefix FORMATO_LARGO v = true ->
  Text.all_chars (fun c => negb (Unicode.is_space c)) v = false.
Proof.
  unfold match_prefix. intros H. apply RegexFacts.matches_lang in H.
  apply RegexFacts.lang_cat_inv in H.
  destruct H as (s1 & s2 & -> & H1 & _).
  unfold FORMATO_LARGO, seq in H1. cbn [fold_right] in H1.
  apply RegexFacts.lang_cat_inv in H1.
  destruct H1 as (a & b & -> & _ & H1).
  apply RegexFacts.lang_cat_inv in H1.
  destruct H1 as (d & r & -> & Hd & _).
  apply lang_lit in Hd. subst d.
  rewrite !TextFacts.all_chars_append. simpl.
  now rewrite andb_false_r.
Qed.

Lemma condicion_de_sin_fecha_larga tokens c :
  Forall (fun t => normalizada (snd t) = true) tokens ->
  condicion_de tokens c -> caso_fecha_larga c = false.
Proof.
  intros Hn (_ & t & Hin & Hv). rewrite Forall_forall in Hn.
  destruct (normalizada_parts _ (Hn t Hin)) as (_ & _ & Hsp & _).
  assert (Hvsp : Text.all_chars (fun c => negb (Unicode.is_space c)) (valor c)
                 = true).
  { destruct Hv as [-> | ->];
      [exact Hsp | now apply TextFacts.all_chars_rstrip]. }
  unfold caso_fecha_larga.
  destruct (match_prefix FORMATO_LARGO (valor c)) eqn:E;
    [|apply andb_false_r].
  apply formato_largo_espacio in E. congruence.
Qed.

(** X17. Whatever the text, no condition of the structure the pipeline
    builds is the long-form "fecha" case of the SQL generator: the values
    are single words, the long form of a date has spaces, and the rule that
    would join the words never finds a date. The [DATE('...')] rendering is
    never used on the output of the parser. *)
Theorem compilador_sin_fecha_larga (fecha_iso : string -> option string)
    (texto : string) :
  exists sql e,
    compilador_nl2sql_texto fecha_iso texto = Ok (sql, e) /\
    Forall (fun c => caso_fecha_larga c = false) (condiciones e).
Proof.
  destruct (analisis_evoluciona (analisis_lexico texto)) as (e & He & Hev).
  exists (generar_sql fecha_iso e), e. split.
  - unfold compilador_nl2sql_texto. cbv zeta. now rewrite He.
  - apply evoluciona_condiciones in Hev. destruct Hev as (l & Hl & Hf).
    simpl in Hl. subst l.
    revert Hf. apply Forall_impl. intros c.
    apply condicion_de_sin_fecha_larga.
    rewrite Forall_forall. intros t Hin.
    unfold analisis_lexico in Hin. cbv zeta in Hin.
    apply in_map_iff in Hin. destruct Hin as (w & <- & Hin).
    rewrite snd_clasificar. now apply (palabras_normalizadas texto).
Qed.

(** X18. When the cursor is on a "de" that follows "en" (the test of the
    rule that joins the words of a date), the pass is the one of the
    [if / elif] chain alone: the window starts at "en", so no join is a
    date, and the rule adds nothing. *)
Theorem union_de_fecha_sin_efecto (tokens : list Token) (i : Z)
    (e : Estructura) (tipo t : TipoToken) :
  (1 < i)%Z ->
  tok tokens i = Ok (tipo, "de") ->
  tok tokens (i - 1) = Ok (t, "en") ->
  paso tokens i e =
  bind (reglas tokens i tipo "de" e)
    (fun r => match r with
              | Sigue i e => Ok ((i + 1)%Z, e)
              | Continua i e => Ok (i, e)
              end).
Proof.
  intros Hi Hde Hen. unfold paso, valor_en, and_then.
  rewrite Hde. cbn [bind fst snd].
  change (es_fecha "de") with false. cbv iota.
  change (Str.eqb "de" "de") with true.
  destruct (Z.gtb_spec i 1) as [_|]; [|lia]. cbn [andb].
  rewrite Hen. cbn [bind fst snd].
  change (Str.eqb "en" "en") with true. cbv iota zeta.
  now rewrite (unir_fecha_en tokens (i - 1) (tok_nth _ _ Hen) eq_refl).
Qed.

Lemma union_de_fecha_sin_efecto_witness :
  paso [(PALABRA, "ventas"); (PALABRA, "en"); (PALABRA, "de");
        (PALABRA, "21"); (PALABRA, "de"); (PALABRA, "julio")]
    2 estructura_inicial =
  bind (reglas [(PALABRA, "ventas"); (PALABRA, "en"); (PALABRA, "de");
                (PALABRA, "21"); (PALABRA, "de"); (PALABRA, "julio")]
          2 PALABRA "de" estructura_inicial)
    (fun r => match r with
              | Sigue i e => Ok ((i + 1)%Z, e)
              | Continua i e => Ok (i, e)
              end).
Proof.
  apply (@union_de_fecha_sin_efecto _ 2%Z estructura_inicial PALABRA PALABRA).
  - lia.
  - reflexivity.
  - reflexivity.
Defined.

(** X22. For the structure the parser builds from the tokens of any text,
    the truth test the generators make on the entity is the test for
    [None]: the entity is never the empty text. *)
Theorem analisis_entidad_truthy (texto : string) :
  exists e,
    analisis_sintactico (analisis_lexico texto) = Ok e /\
    truthy (entidad e) = negb (is_none (entidad e)).
Proof.
  destruct (@bucle_ok (analisis_lexico texto)
              (List.length (analisis_lexico texto)) 0%Z estructura_inicial)
    as [e He]; [lia | unfold len; lia |].
  exists e. split; [exact He|].
  pose proof (@bucle_entidad (analisis_lexico texto)
                (analisis_lexico_no_vacios texto)
                (List.length (analisis_lexico texto)) 0%Z
                estructura_inicial) as Hb.
  rewrite He in Hb. simpl in Hb. unfold entidad_no_vacia in Hb.
  destruct (entidad e) as [[|c x]|]; try reflexivity.
  exfalso. apply Hb; [discriminate | reflexivity].
Qed.

(** ** The two renderings *)

Section RenderFacts.

Variable fecha_iso : string -> option string.

(** X19. The two renderers give up together: the natural-language
    sentence is its sentinel exactly when the SQL is its sentinel, whatever
    the text of the conditions. *)
Theorem centinelas_juntos (e : Estructura) (condiciones_ln : string) :
  generar_lenguaje_natural_final e condiciones_ln
  = "-- No se puede generar consulta en LN: entidad desconocida."
  <-> generar_sql fecha_iso e = SIN_ENTIDAD.
Proof.
  unfold generar_lenguaje_natural_final, generar_sql.
  destruct (entidad e) as [[|c ent]|]; cbn [Text.is_empty].
  - split; reflexivity.
  - split; intros H; exfalso.
    + destruct (Text.is_empty condiciones_ln); discriminate.
    + destruct (atributos_mostrar e) as [[|a l]|];
        destruct (map (condicion_sql fecha_iso) (condiciones e));
        discriminate.
  - split; reflexivity.
Qed.

Lemma is_empty_append a c b :
  Text.is_empty (a ++ c :: b) = false.
Proof. destruct a; reflexivity. Qed.

Lemma is_empty_concat sep x l :
  Text.is_empty x = false -> Text.is_empty (Str.concat sep (x :: l)) = false.
Proof.
  intros H. destruct l as [|y l]; simpl; [exact H|].
  destruct x; [discriminate | reflexivity].
Qed.

Lemma analisis_semantico_empty e :
  Text.is_empty (analisis_semantico_mejorado e)
  = match condiciones e with [] => true | _ => false end.
Proof.
  unfold analisis_semantico_mejorado, Text.join.
  destruct (condiciones e) as [|c l]; [reflexivity|].
  cbn [map]. apply is_empty_concat. cbv zeta. apply is_empty_append.
Qed.

(** X20. For a structure with an entity, the natural-language sentence is
    "selecciona * de <entidad>." when there is no condition and
    "selecciona * de <entidad> donde <condiciones>." when there is one or
    more, the conditions joined by " y ". *)
Theorem consulta_ln (e : Estructura) (ent : string) :
  entidad e = Some ent -> ent <> "" ->
  generar_lenguaje_natural_final e (analisis_semantico_mejorado e)
  = match condiciones e with
    | [] => "selecciona * de " ++ ent ++ "."
    | _ => "selecciona * de " ++ ent ++ " donde "
           ++ analisis_semantico_mejorado e ++ "."
    end.
Proof.
  intros He Hne. unfold generar_lenguaje_natural_final. rewrite He.
  destruct ent as [|c ent]; [congruence|]. cbn [Text.is_empty].
  rewrite analisis_semantico_empty. cbv zeta.
  destruct (condiciones e); simpl; [reflexivity|].
  now rewrite !append_assoc.
Qed.

Lemma lang_star_any s : lang (Star any) s.
Proof.
  induction s as [|c s IH]; [constructor|].
  change (c :: s) with ([c] ++ s).
  apply lang_star_cons; [now constructor | exact IH].
Qed.

Lemma fullmatch_match_prefix r v resto :
  fullmatch r v = true -> match_prefix r (v ++ resto) = true.
Proof.
  unfold fullmatch, match_prefix. intros H.
  apply RegexFacts.matches_lang in H. apply RegexFacts.matches_lang.
  apply lang_cat; [exact H | apply lang_star_any].
Qed.

(** X21. The long-date test of the SQL generator looks at the head of the
    value only: a "fecha" value that starts with a long-form date is put
    inside [DATE('...')] whole, with whatever text follows the date (or as
    the date reparsed, when the reparsing accepts it). *)
Theorem condicion_sql_fecha_larga (op v resto : string) :
  fullmatch FORMATO_LARGO v = true ->
  condicion_sql fecha_iso (mkCondicion "fecha" op (v ++ resto))
  = "fecha " ++ op ++ " DATE('"
    ++ match fecha_iso (v ++ resto) with
       | Some iso => iso
       | None => v ++ resto
       end ++ "')".
Proof.
  intros H. unfold condicion_sql. cbn [atributo operador valor].
  now rewrite (fullmatch_match_prefix _ _ resto H).
Qed.

End RenderFacts.

Lemma consulta_ln_witness :
  generar_lenguaje_natural_final
    (mkEstructura None (Some "ventas") [mkCondicion "edad" ">=" "30"] None)
    (analisis_semantico_mejorado
       (mkEstructura None (Some "ventas") [mkCondicion "edad" ">=" "30"]
          None))
  = "selecciona * de ventas donde edad mayor o igual 30.".
Proof.
  apply (@consulta_ln
           (mkEstructura None (Some "ventas") [mkCondicion "edad" ">=" "30"]
              None) "ventas").
  - reflexivity.
  - discriminate.
Defined.

Lemma condicion_sql_fecha_larga_witness :
  condicion_sql (fun _ => None)
    (mkCondicion "fecha" "=" "21 de julio de 2025 por la tarde")
  = "fecha = DATE('21 de julio de 2025 por la tarde')".
Proof.
  apply (@condicion_sql_fecha_larga (fun _ => None) "="
           "21 de julio de 2025" " por la tarde").
  reflexivity.
Defined.

(** ** The corrector: what is revised and what a revision may change *)

Section CorrectorMore.

Variable fecha_iso : string -> option string.
Variable get_close_matches : string -> list string -> list string.
Variable plantilla : string -> Res (string -> string).
Variable d : Diccionario.

Lemma revisiones_mostrar_spec attrs : forall i r,
  In r (revisiones_mostrar d i attrs) ->
  rev_tipo r = RevAtributoMostrar /\
  en_diccionario d (rev_original r) = false /\
  exists k, rev_indice r = i + k /\
            nth_error attrs k = Some (rev_original r).
Proof.
  induction attrs as [|a attrs IH]; intros i r; simpl; [contradiction|].
  rewrite in_app_iff. intros [H|H].
  - destruct (en_diccionario d a) eqn:E; simpl in H; [contradiction|].
    destruct H as [<-|[]]. simpl. repeat split; [exact E|].
    exists 0. split; [lia | reflexivity].
  - apply IH in H. destruct H as (Ht & Hd & k & Hk & Hn).
    repeat split; try assumption. exists (S k). split; [lia | exact Hn].
Qed.

Lemma revisiones_condiciones_spec conds : forall i r,
  In r (revisiones_condiciones d i conds) ->
  rev_tipo r = RevAtributoCondicion /\
  en_diccionario d (rev_original r) = false /\
  exists k cond, rev_indice r = i + k /\ nth_error conds k = Some cond /\
                 atributo cond = rev_original r.
Proof.
  induction conds as [|c conds IH]; intros i r; simpl; [contradiction|].
  rewrite in_app_iff. intros [H|H].
  - destruct (negb (Text.is_empty (atributo c))
              && negb (en_diccionario d (atributo c))) eqn:E;
      simpl in H; [|contradiction].
    destruct H as [<-|[]]. simpl. apply andb_prop in E. destruct E as [_ E].
    apply negb_true_iff in E. repeat split; [exact E|].
    exists 0, c. split; [lia | now split].
  - apply IH in H. destruct H as (Ht & Hd & k & cond & Hk & Hn & Ha).
    repeat split; try assumption. exists (S k), cond.
    split; [lia | now split].
Qed.

Lemma revisiones_apuntan (e : Estructura) :
  Forall (fun r => en_diccionario d (rev_original r) = false /\ apunta e r)
    (revisiones d e).
Proof.
  rewrite Forall_forall. intros r. unfold revisiones.
  rewrite !in_app_iff. intros [H|[H|H]].
  - unfold revisiones_entidad in H. destruct (entidad e) as [ent|] eqn:E;
      [|contradiction].
    destruct (negb (Text.is_empty ent) && negb (en_diccionario d ent)) eqn:E';
      [|contradiction].
    destruct H as [<-|[]]. apply andb_prop in E'. destruct E' as [_ E'].
    apply negb_true_iff in E'. split; [exact E'|]. unfold apunta. simpl.
    exact E.
  - apply revisiones_mostrar_spec in H.
    destruct H as (Ht & Hd & k & Hk & Hn). split; [exact Hd|].
    unfold apunta. rewrite Ht. simpl in Hk. rewrite Hk.
    destruct (atributos_mostrar e) as [l|].
    + now exists l.
    + now destruct k.
  - apply revisiones_condiciones_spec in H.
    destruct H as (Ht & Hd & k & cond & Hk & Hn & Ha). split; [exact Hd|].
    unfold apunta. rewrite Ht. simpl in Hk. rewrite Hk. now exists cond.
Qed.

(** X23. Every revision the corrector records names a word that [search]
    does not find in the Trie, and points at the place of the structure
    that holds that word: the entity, the attribute to show at its index,
    or the attribute of the condition at its index. *)
Theorem revisiones_fundadas (e : Estructura) :
  Forall (fun r => en_diccionario d (rev_original r) = false /\ apunta e r)
    (revisiones d e).
Proof. exact (revisiones_apuntan e). Qed.

Lemma revisiones_mostrar_nil_iff attrs : forall i,
  revisiones_mostrar d i attrs = [] <->
  Forall (fun a => en_diccionario d a = true) attrs.
Proof.
  induction attrs as [|a attrs IH]; intros i; simpl.
  - split; [constructor | reflexivity].
  - split.
    + intros H. apply app_eq_nil in H. destruct H as [Ha H].
      constructor; [|now apply (IH (S i))].
      now destruct (en_diccionario d a).
    + intros H. inversion H as [|? ? Ha Hattrs]; subst. rewrite Ha. simpl.
      now apply IH.
Qed.

Lemma revisiones_condiciones_nil_iff conds : forall i,
  revisiones_condiciones d i conds = [] <->
  Forall (fun c => atributo c = "" \/ en_diccionario d (atributo c) = true)
    conds.
Proof.
  induction conds as [|c conds IH]; intros i; simpl.
  - split; [constructor | reflexivity].
  - split.
    + intros H. apply app_eq_nil in H. destruct H as [Hc H].
      constructor; [|now apply (IH (S i))].
      destruct (atributo c) as [|a s]; [now left|]. simpl in Hc.
      destruct (en_diccionario d (a :: s)); [now right | discriminate].
    + intros H. inversion H as [|? ? Hc Hconds]; subst.
      rewrite (proj2 (IH (S i)) Hconds), app_nil_r.
      destruct Hc as [-> | ->]; [reflexivity | now rewrite andb_false_r].
Qed.

(** X24. The corrector records no revision exactly when the entity, if it
    is set and not empty, every attribute to show, and the attribute of
    every condition, unless it is empty, are found in the Trie. An empty
    condition attribute is never revised. *)
Theorem revisiones_nil_iff (e : Estructura) :
  revisiones d e = [] <->
  (forall ent, entidad e = Some ent ->
     ent = "" \/ en_diccionario d ent = true) /\
  Forall (fun a => en_diccionario d a = true)
    (match atributos_mostrar e with Some l => l | None => [] end) /\
  Forall (fun c => atributo c = "" \/ en_diccionario d (atributo c) = true)
    (condiciones e).
Proof.
  unfold revisiones. split.
  - intros H. apply app_eq_nil in H. destruct H as [He H].
    apply app_eq_nil in H. destruct H as [Ha Hc].
    split; [|split].
    + intros ent Hent. unfold revisiones_entidad in He. rewrite Hent in He.
      destruct ent as [|a ent]; [now left|]. simpl in He.
      destruct (en_diccionario d (a :: ent)); [now right | discriminate].
    + now apply (revisiones_mostrar_nil_iff _ 0).
    + now apply (revisiones_condiciones_nil_iff _ 0).
  - intros (He & Ha & Hc).
    rewrite (proj2 (revisiones_mostrar_nil_iff _ 0) Ha).
    rewrite (proj2 (revisiones_condiciones_nil_iff _ 0) Hc).
    rewrite !app_nil_r. unfold revisiones_entidad.
    destruct (entidad e) as [ent|]; [|reflexivity].
    destruct (He ent eq_refl) as [-> | ->];
      [reflexivity | now rewrite andb_false_r].
Qed.

(** X25. The prompt is repeated until a line is a number from 1 to the
    number of options: [elegir] returns the first such number, with the
    lines after it, and every line before it is one that is rejected; when
    no line is accepted, reading ends in [EOFError]. *)
Theorem elegir_spec (n_opciones : Z) (entradas : list (option Z)) :
  match elegir n_opciones entradas with
  | Ok (k, resto) =>
      (1 <= k <= n_opciones)%Z /\
      exists antes,
        entradas = (antes ++ Some k :: resto)%list /\
        Forall (entrada_invalida n_opciones) antes
  | EOFError => Forall (entrada_invalida n_opciones) entradas
  | _ => False
  end.
Proof.
  induction entradas as [|x entradas IH]; simpl; [constructor|].
  destruct x as [k|].
  - destruct (Z.ltb_spec k 1) as [H1|H1]; simpl.
    + destruct (elegir n_opciones entradas) as [[k' resto]| | | |];
        try contradiction.
      * destruct IH as (Hk & antes & -> & Hf). split; [exact Hk|].
        exists (Some k :: antes). split; [reflexivity|].
        constructor; [now left | exact Hf].
      * constructor; [now left | exact IH].
    + destruct (Z.gtb_spec k n_opciones) as [H2|H2].
      * destruct (elegir n_opciones entradas) as [[k' resto]| | | |];
          try contradiction.
        -- destruct IH as (Hk & antes & -> & Hf). split; [exact Hk|].
           exists (Some k :: antes). split; [reflexivity|].
           constructor; [now right | exact Hf].
        -- constructor; [now right | exact IH].
      * split; [lia|]. exists []. split; [reflexivity | constructor].
  - destruct (elegir n_opciones entradas) as [[k' resto]| | | |];
      try contradiction.
    + destruct IH as (Hk & antes & -> & Hf). split; [exact Hk|].
      exists (None :: antes). split; [reflexivity|].
      constructor; [exact I | exact Hf].
    + constructor; [exact I | exact IH].
Qed.

End CorrectorMore.

Lemma prefix_drop a : forall b,
  Str.prefix a b = true -> b = a ++ drop (length a) b.
Proof.
  induction a as [|c a IH]; intros b H; simpl.
  - now destruct b.
  - destruct b as [|c' b]; simpl in H; [discriminate|].
    apply andb_prop in H. destruct H as [Hc H]. apply N.eqb_eq in Hc.
    subst c'. f_equal. now apply IH.
Qed.

Lemma drop_0 s : drop 0 s = s.
Proof. now destruct s. Qed.

(** Replacing a text by itself changes nothing. *)
Lemma replace_from_same old s : forall count skip,
  Text.replace_from old old count skip s = drop skip s.
Proof.
  induction s as [|c s IH]; intros count skip.
  - now destruct skip.
  - cbn [Text.replace_from]. destruct skip as [|k]; [|apply IH].
    destruct (negb (Text.is_empty old) && Text.allows count
              && Str.prefix old (c :: s)) eqn:E.
    + apply andb_prop in E. destruct E as [E Hp].
      apply andb_prop in E. destruct E as [Hne _].
      destruct old as [|c' old']; [discriminate|].
      rewrite IH. apply prefix_drop in Hp. simpl in Hp.
      injection Hp as -> Hs. simpl. rewrite Nat.sub_0_r. now rewrite <- Hs.
    + rewrite IH, drop_0. reflexivity.
Qed.

Lemma sub_word_from_same frase s : forall count prev skip,
  Text.sub_word_from frase frase count prev skip s = drop skip s.
Proof.
  induction s as [|c s IH]; intros count prev skip.
  - cbn [Text.sub_word_from].
    destruct frase as [|c' frase'].
    + now destruct (_ && _), skip.
    + cbn [Text.is_empty]. rewrite andb_false_r. now destruct skip.
  - cbn [Text.sub_word_from]. destruct skip as [|k]; [|apply IH].
    destruct (Text.allows count && Text.word_match frase prev (c :: s))
      eqn:E.
    + apply andb_prop in E. destruct E as [_ E]. unfold Text.word_match in E.
      apply andb_prop in E. destruct E as [E _].
      apply andb_prop in E. destruct E as [Hp _].
      destruct frase as [|c' frase']; cbn [Text.is_empty].
      * rewrite IH, drop_0. reflexivity.
      * rewrite IH. apply prefix_drop in Hp. simpl in Hp.
        injection Hp as -> Hs. simpl. rewrite Nat.sub_0_r. now rewrite <- Hs.
    + rewrite IH, drop_0. reflexivity.
Qed.

Lemma set_nth_same (A : Type) (l : list A) : forall i x,
  nth_error l i = Some x -> set_nth i x l = l.
Proof.
  induction l as [|y l IH]; intros [|i] x H; simpl in *; try discriminate.
  - now injection H as ->.
  - now rewrite IH.
Qed.

Lemma set_nth_length (A : Type) (l : list A) : forall i x,
  List.length (set_nth i x l) = List.length l.
Proof.
  induction l as [|y l IH]; intros [|i] x; simpl; auto.
Qed.

Lemma map_set_nth (A B : Type) (f : A -> B) (l : list A) : forall i x y,
  nth_error l i = Some y -> f x = f y ->
  map f (set_nth i x l) = map f l.
Proof.
  induction l as [|z l IH]; intros [|i] x y H Hf; simpl in *;
    try discriminate.
  - injection H as ->. now rewrite Hf.
  - now rewrite (IH _ _ _ H Hf).
Qed.

Section CorrectorRuns.

Variable fecha_iso : string -> option string.
Variable get_close_matches : string -> list string -> list string.
Variable plantilla : string -> Res (string -> string).

Local Abbreviation sql_de := (generar_sql fecha_iso).
Local Abbreviation aplicar_rev := (aplicar fecha_iso plantilla).
Local Abbreviation revisar_revs :=
  (revisar fecha_iso get_close_matches plantilla).

(** Keeping the word a revision names changes neither the structure nor
    the SQL generated from it. *)
Lemma aplicar_original e r :
  apunta e r -> sin_barra r ->
  aplicar_rev r (rev_original r) (sql_de e) e = Ok (sql_de e, e).
Proof.
  unfold apunta, sin_barra, aplicar. destruct e as [ac en cs at_]. simpl.
  destruct (rev_tipo r).
  - intros -> _. unfold con_entidad, Text.replace. simpl.
    now rewrite replace_from_same, drop_0.
  - intros (l & -> & Hn) Hb. rewrite Hn. unfold re_sub_word.
    rewrite (Hb eq_refl). unfold Text.sub_word. cbn [bind].
    now rewrite sub_word_from_same, drop_0, (set_nth_same _ _ Hn).
  - intros (cond & Hn & Ha) _. rewrite Hn.
    assert (Hc : mkCondicion (rev_original r) (operador cond) (valor cond)
                 = cond) by (destruct cond; simpl in *; now subst).
    now rewrite Hc, (set_nth_same _ _ Hn).
Qed.

Lemma elegir_uno n resto :
  elegir (Z.of_nat (S n)) (Some 1%Z :: resto) = Ok (1%Z, resto).
Proof.
  cbn [elegir]. change (1 <? 1)%Z with false. cbn [orb].
  destruct (Z.gtb_spec 1 (Z.of_nat (S n))); [lia | reflexivity].
Qed.

Lemma revisar_original e validas revs : forall n,
  Forall (fun r => apunta e r /\ sin_barra r) revs -> List.length revs <= n ->
  revisar_revs revs validas (repeat (Some 1%Z) n) (sql_de e) e
  = Ok (sql_de e, e).
Proof.
  induction revs as [|r revs IH]; intros n Hf Hn; [reflexivity|].
  inversion Hf as [|? ? [Hr Hb] Hrevs]; subst.
  destruct n as [|n]; [simpl in Hn; lia|].
  cbn [revisar repeat List.length]. cbv zeta.
  rewrite elegir_uno. cbn [bind fst snd].
  change (Z.to_nat (1 - 1)) with 0. cbn [nth].
  rewrite (@aplicar_original e r Hr Hb). cbn [bind fst snd].
  apply IH; [exact Hrevs | simpl in Hn; lia].
Qed.

Lemma apunta_revisiones d e :
  Forall (fun a => en_diccionario d a = true \/ con_barra a = false)
    (match atributos_mostrar e with Some l => l | None => [] end) ->
  Forall (fun r => apunta e r /\ sin_barra r) (revisiones d e).
Proof.
  intros Hb. pose proof (revisiones_apuntan d e) as H.
  revert H. apply Forall_impl. intros r [Hd H]. split; [exact H|].
  intros Ht. unfold apunta in H. rewrite Ht in H.
  destruct H as (l & El & Hn). rewrite El in Hb.
  apply nth_error_In in Hn.
  pose proof (proj1 (Forall_forall _ _) Hb _ Hn) as [Hin|Hs];
    [congruence | exact Hs].
Qed.

(** X26. When the SQL is the one generated from the structure, no
    attribute to show that the Trie does not have holds a backslash, and
    the first option, the word as it is, is chosen at every prompt, the
    corrector returns that SQL and leaves the structure as it was. *)
Theorem revisar_conservando (d : Diccionario) (e : Estructura)
    (original_text : string) (n : nat) :
  Forall (fun a => en_diccionario d a = true \/ con_barra a = false)
    (match atributos_mostrar e with Some l => l | None => [] end) ->
  List.length (revisiones d e) <= n ->
  revisar_y_sugerir_traduccion fecha_iso get_close_matches plantilla
    (sql_de e) e d original_text (repeat (Some 1%Z) n)
  = Ok (sql_de e, e).
Proof.
  intros Hb Hn. unfold revisar_y_sugerir_traduccion. cbv zeta.
  pose proof (apunta_revisiones d e Hb) as Hf.
  destruct (revisiones d e) as [|r revs] eqn:E; [reflexivity|].
  now apply revisar_original.
Qed.

Lemma misma_forma_refl e : misma_forma e e.
Proof. now repeat split. Qed.

Lemma misma_forma_trans e1 e2 e3 :
  misma_forma e1 e2 -> misma_forma e2 e3 -> misma_forma e1 e3.
Proof.
  intros (A1 & B1 & C1 & D1) (A2 & B2 & C2 & D2).
  repeat split; congruence.
Qed.

Lemma aplicar_forma r palabra sql e sql' e' :
  aplicar_rev r palabra sql e = Ok (sql', e') -> misma_forma e e'.
Proof.
  unfold aplicar. destruct (rev_tipo r).
  - intros [= _ <-]. now repeat split.
  - destruct (nth_error
                (match atributos_mostrar e with Some l => l | None => [] end)
                (rev_indice r)) as [old_attr|]; [|discriminate].
    destruct (re_sub_word plantilla old_attr palabra 1 sql);
      try discriminate.
    intros [= _ <-]. repeat split. simpl. apply set_nth_length.
  - destruct (nth_error (condiciones e) (rev_indice r)) as [cond|] eqn:Hn;
      [|discriminate].
    intros [= _ <-]. repeat split; simpl.
    + now apply map_set_nth with (y := cond).
    + now apply map_set_nth with (y := cond).
Qed.

Lemma revisar_forma validas revs : forall entradas sql e sql' e',
  revisar_revs revs validas entradas sql e = Ok (sql', e') ->
  misma_forma e e'.
Proof.
  induction revs as [|r revs IH]; intros entradas sql e sql' e';
    cbn [revisar]; cbv zeta.
  - intros [= _ <-]. apply misma_forma_refl.
  - destruct (elegir _ entradas) as [[k resto]| | | |]; try discriminate.
    cbn [bind fst snd].
    destruct (aplicar_rev r _ sql e) as [[sql1 e1]| | | |] eqn:Ea;
      try discriminate.
    cbn [bind fst snd]. intros H.
    apply misma_forma_trans with (e2 := e1).
    + exact (aplicar_forma _ _ _ _ Ea).
    + exact (IH _ _ _ _ _ H).
Qed.

(** X27. Whatever is chosen at the prompts, the corrector changes names
    only: the structure it leaves has the same action, the same operators
    and values in the same order, and as many attributes to show. *)
Theorem revisar_misma_forma (d : Diccionario) (sql_query : string)
    (e : Estructura) (original_text : string) (entradas : list (option Z))
    (sql' : string) (e' : Estructura) :
  revisar_y_sugerir_traduccion fecha_iso get_close_matches plantilla
    sql_query e d original_text entradas = Ok (sql', e') ->
  misma_forma e e'.
Proof.
  unfold revisar_y_sugerir_traduccion. cbv zeta.
  destruct (revisiones d e) as [|r revs].
  - intros [= _ <-]. apply misma_forma_refl.
  - apply revisar_forma.
Qed.

Lemma last_app_not_nil (A : Type) (l1 l2 : list A) x :
  l2 <> [] -> last (l1 ++ l2) x = last l2 x.
Proof.
  intros H. induction l1 as [|y l1 IH]; [reflexivity|].
  simpl. destruct (l1 ++ l2)%list eqn:E; [|exact IH].
  apply app_eq_nil in E. destruct E. congruence.
Qed.

Lemma last_in (A : Type) (l : list A) x : l <> [] -> In (last l x) l.
Proof.
  induction l as [|y l IH]; [congruence|]. intros _.
  destruct l as [|z l]; [now left|]. right. apply IH. discriminate.
Qed.

(** When the last revision is on the attribute of a condition, the SQL
    returned is the one generated from the structure returned. *)
Lemma revisar_ultima validas revs : forall entradas sql e sql' e' r0,
  revs <> [] ->
  rev_tipo (last revs r0) = RevAtributoCondicion ->
  revisar_revs revs validas entradas sql e = Ok (sql', e') ->
  sql' = sql_de e'.
Proof.
  induction revs as [|r revs IH]; intros entradas sql e sql' e' r0 Hne Hl;
    [congruence|].
  cbn [revisar]. cbv zeta.
  destruct (elegir _ entradas) as [[k resto]| | | |]; try discriminate.
  cbn [bind fst snd].
  destruct (aplicar_rev r _ sql e) as [[sql1 e1]| | | |] eqn:Ea;
    try discriminate.
  cbn [bind fst snd]. destruct revs as [|r' revs].
  - simpl. intros [= <- <-]. simpl in Hl. unfold aplicar in Ea.
    rewrite Hl in Ea.
    destruct (nth_error (condiciones e) (rev_indice r)); [|discriminate].
    now injection Ea as <- <-.
  - intros H. apply (IH _ _ _ _ _ r0) in H; [exact H | discriminate|].
    exact Hl.
Qed.

(** X28. When at least one revision is on the attribute of a condition,
    the SQL the corrector returns is the SQL generated from the structure
    it returns: these revisions come last and each of them generates the
    SQL again, so the edits made to the text before them are kept only as
    far as they are in the structure. *)
Theorem revisar_regenera (d : Diccionario) (sql_query : string)
    (e : Estructura) (original_text : string) (entradas : list (option Z))
    (sql' : string) (e' : Estructura) :
  revisiones_condiciones d 0 (condiciones e) <> [] ->
  revisar_y_sugerir_traduccion fecha_iso get_close_matches plantilla
    sql_query e d original_text entradas = Ok (sql', e') ->
  sql' = sql_de e'.
Proof.
  intros Hc. unfold revisar_y_sugerir_traduccion. cbv zeta.
  set (r0 := mkRevision RevEntidad "" 0).
  assert (Hl : rev_tipo (last (revisiones d e) r0) = RevAtributoCondicion).
  { unfold revisiones. rewrite app_assoc, (last_app_not_nil _ _ Hc).
    pose proof (last_in r0 Hc) as Hin.
    now apply revisiones_condiciones_spec in Hin. }
  assert (Hne : revisiones d e <> []).
  { unfold revisiones. intros H. apply app_eq_nil in H. destruct H as [_ H].
    apply app_eq_nil in H. now destruct H. }
  destruct (revisiones d e) as [|r revs] eqn:E; [congruence|].
  intros H. eapply revisar_ultima; [exact Hne | exact Hl | exact H].
Qed.

End CorrectorRuns.

Lemma revisar_conservando_witness :
  revisar_y_sugerir_traduccion (fun _ => None) (fun _ l => l)
    (fun _ => ReError)
    (generar_sql (fun _ => None)
       (mkEstructura None (Some "bontas") [mkCondicion "edat" ">" "30"]
          (Some ["nonbre"])))
    (mkEstructura None (Some "bontas") [mkCondicion "edat" ">" "30"]
       (Some ["nonbre"]))
    (insert N.eq_dec new_trie "ventas")
    "" (repeat (Some 1%Z) 3)
  = Ok (generar_sql (fun _ => None)
          (mkEstructura None (Some "bontas") [mkCondicion "edat" ">" "30"]
             (Some ["nonbre"])),
        mkEstructura None (Some "bontas") [mkCondicion "edat" ">" "30"]
          (Some ["nonbre"])).
Proof.
  apply (@revisar_conservando (fun _ => None) (fun _ l => l)
           (fun _ => ReError)).
  - constructor; [right; reflexivity | constructor].
  - vm_compute. lia.
Defined.

Lemma revisar_misma_forma_witness :
  misma_forma
    (mkEstructura None (Some "bontas") [mkCondicion "edat" ">" "30"] None)
    (mkEstructura None (Some "ventas") [mkCondicion "edad" ">" "30"] None).
Proof.
  apply (@revisar_misma_forma (fun _ => None) (fun _ l => l)
           (fun _ => ReError)
           (insert N.eq_dec (insert N.eq_dec new_trie "ventas") "edad")
           "SELECT * FROM bontas WHERE edat > 30"
           (mkEstructura None (Some "bontas") [mkCondicion "edat" ">" "30"]
              None)
           "" [Some 2%Z; Some 3%Z]
           "SELECT * FROM ventas WHERE edad > 30").
  vm_compute. reflexivity.
Defined.

Lemma revisar_regenera_witness :
  "SELECT * FROM ventas WHERE edad > 30"
  = generar_sql (fun _ => None)
      (mkEstructura None (Some "ventas") [mkCondicion "edad" ">" "30"] None).
Proof.
  apply (@revisar_regenera (fun _ => None) (fun _ l => l)
           (fun _ => ReError)
           (insert N.eq_dec (insert N.eq_dec new_trie "ventas") "edad")
           "SELECT * FROM bontas WHERE edat > 30"
           (mkEstructura None (Some "bontas") [mkCondicion "edat" ">" "30"]
              None)
           "" [Some 2%Z; Some 3%Z]).
  - vm_compute. discriminate.
  - vm_compute. reflexivity.
Defined.
